(** * Bidirectional path tracing and Metropolis light transport (pbrt)

    A shallow embedding of the MIS weighting, the strategy loops and the
    debug-buffer indexing of [integrators/bdpt.cpp], and of the
    primary-sample-space sampler and the Markov-chain loops of
    [integrators/mlt.cpp]; of the random walks that generate the subpaths,
    of one pixel sample, and of the path evaluation [MLTIntegrator::L].

    Integers of the source ([int], [int64_t]) are [Z].  Signed overflow is
    undefined in the source; the arithmetic of the debug-buffer indices is
    modelled in 32 bits with the wrap-around of the compiled code, the other
    integer arithmetic is not bounded.  [Float] is the IEEE 754
    binary32 format with round-to-nearest-even, as specified by the
    Standard Library's [SpecFloat].  Arrays are lists, indexed with stdpp's
    lookup and insert; an access outside an array is undefined in the source
    and makes the embedded function return [None], or [Fault] where the code
    contains an unbounded loop and the embedding counts its turns. *)

From Stdlib Require Import ZArith Lia Bool SpecFloat.
From stdpp Require Import base option list.

Local Open Scope Z_scope.

(** * Floating point: [Float] is [float] (binary32) *)

Module Flt.

Definition prec : Z := 24.
Definition emax : Z := 128.

Definition Float : Type := spec_float.

Definition zero : Float := S754_zero false.
Definition one : Float := S754_finite false 8388608 (-23).
Definition two : Float := S754_finite false 8388608 (-22).

Definition add : Float -> Float -> Float := SFadd prec emax.
Definition sub : Float -> Float -> Float := SFsub prec emax.
Definition mul : Float -> Float -> Float := SFmul prec emax.
Definition div : Float -> Float -> Float := SFdiv prec emax.
Definition sqrt : Float -> Float := SFsqrt prec emax.
Definition eqb : Float -> Float -> bool := SFeqb.
Definition ltb : Float -> Float -> bool := SFltb.
Definition leb : Float -> Float -> bool := SFleb.

(** [(Float)n] for an integer [n]: the nearest binary32 value. *)
Definition of_Z (n : Z) : Float := binary_normalize prec emax n 0 false.

(** [std::floor] in the format [(prec, emax)]: the largest integral value not
    above [x]; exact, and the identity on zeros, infinities, NaN and on
    values without a fraction. *)
Definition floor_at (prec emax : Z) (x : spec_float) : spec_float :=
  match x with
  | S754_finite s m e =>
      if 0 <=? e then x
      else binary_normalize prec emax (cond_Zopp s (Zpos m) / 2 ^ (- e)) 0 s
  | _ => x
  end.

Definition floor : Float -> Float := floor_at prec emax.

(** [std::min(a, b)]: [b] when [b < a], otherwise [a]. *)
Definition min (a b : Float) : Float := if ltb b a then b else a.

(** [x] lies in the half-open unit interval: [0 <= x && x < 1]. *)
Definition in_unit_interval (x : Float) : bool := leb zero x && ltb x one.

End Flt.

Abbreviation Float := Flt.Float.

Definition Point2f : Type := (Float * Float)%type.

(** * Spectrum *)

(** Modelled from the spec: the spectrum class is declared in a header of
    its own, not in the integrators.  Spectral radiance is a vector of
    [Float] coefficients; scaling
    by a [Float] and adding act on every coefficient, and a spectrum is zero
    (converts to [false]) when every coefficient compares equal to 0. *)
Definition Spectrum : Type := list Float.

Module Sp.

Definition IsBlack (L : Spectrum) : bool := forallb (fun c => Flt.eqb c Flt.zero) L.
Definition nonzero (L : Spectrum) : bool := negb (IsBlack L).
Definition scale (L : Spectrum) (a : Float) : Spectrum := (fun c => Flt.mul c a) <$> L.
Definition divide (L : Spectrum) (a : Float) : Spectrum := (fun c => Flt.div c a) <$> L.
Definition mul (L1 L2 : Spectrum) : Spectrum := zip_with Flt.mul L1 L2.
Definition add (L1 L2 : Spectrum) : Spectrum := zip_with Flt.add L1 L2.

End Sp.

(** * Loops over integer ranges *)

(** The values taken by [i] in [for (i = lo; i < hi; ++i)]. *)
Definition upto (lo hi : Z) : list Z :=
  (fun k => lo + Z.of_nat k) <$> seq 0 (Z.to_nat (hi - lo)).

(** The values taken by [i] in [for (i = hi; i >= lo; --i)]. *)
Definition downto (hi lo : Z) : list Z := reverse (upto lo (hi + 1)).

(** * BDPT: indexing of the debug-visualization buffers *)

(** [int] has 32 bits: the result of an operation on [int] that leaves the
    range wraps around. *)
Definition int_wrap (n : Z) : Z := (n + 2147483648) mod 4294967296 - 2147483648.

(** [above * (5 + above) / 2] is C integer division (truncation). *)
Definition BufferIndex (s t : Z) : Z :=
  let above := int_wrap (int_wrap (s + t) - 2) in
  int_wrap (s + Z.quot (int_wrap (above * int_wrap (5 + above))) 2).

(** [(1 + maxDepth) * (6 + maxDepth) / 2], in [int]. *)
Definition bufferCount (maxDepth : Z) : Z :=
  Z.quot (int_wrap (int_wrap (1 + maxDepth) * int_wrap (6 + maxDepth))) 2.

(** The strategies visited by the set-up loop of the debug buffers
    ([depth] from 0 to [maxDepth], [s] from 0 to [depth + 2]), in order. *)
Definition visualized_strategies (maxDepth : Z) : list (Z * Z) :=
  depth ← upto 0 (maxDepth + 1);
  s ← upto 0 (depth + 2 + 1);
  let t := depth + 2 - s in
  if (t =? 0) || ((s =? 1) && (t =? 1)) then [] else [(s, t)].

(** * BDPT: vertices and subpaths *)

(** The scene, camera, lights, samplers and interaction records are external
    collaborators; only their types are needed here. *)
Class Externals := {
  Scene : Type;
  Camera : Type;
  Light : Type;
  FixedLightDistribution : Type;
  Sampler : Type;
  Interaction : Type;
  Vector3f : Type;
  VisibilityTester : Type
}.

Inductive VertexType := VCamera | VLight | VSurface | VMedium.

Inductive TransportMode := Radiance | Importance.

Record Vertex `{Externals} := mkVertex {
  type : VertexType;
  beta : Spectrum;
  interaction : Interaction;
  delta : bool;
  pdfFwd : Float;
  pdfRev : Float
}.

Definition set_delta `{Externals} (b : bool) (v : Vertex) : Vertex :=
  mkVertex _ (type v) (beta v) (interaction v) b (pdfFwd v) (pdfRev v).

Definition set_pdfFwd `{Externals} (f : Float) (v : Vertex) : Vertex :=
  mkVertex _ (type v) (beta v) (interaction v) (delta v) f (pdfRev v).

Definition set_pdfRev `{Externals} (f : Float) (v : Vertex) : Vertex :=
  mkVertex _ (type v) (beta v) (interaction v) (delta v) (pdfFwd v) f.

(** The density queries of a vertex, declared with the vertex type in
    [bdpt.h]: [Pdf scene v prev next] is [v.Pdf(scene, prev, next)] with
    [prev] a possibly null pointer. *)
Class VertexDensities `{Externals} := {
  Pdf : Scene -> Vertex -> option Vertex -> Vertex -> Float;
  PdfLight : Scene -> Vertex -> Vertex -> Float;
  PdfLightOrigin : Scene -> Vertex -> Vertex -> FixedLightDistribution -> Float;
  IsDeltaLight : Vertex -> bool
}.

(** [a[i]] for an [int] index; [None] outside the array. *)
Definition at_index {A : Type} (a : list A) (i : Z) : option A :=
  if i <? 0 then None else a !! Z.to_nat i.

(** [a[i] = x]; [None] outside the array. *)
Definition set_index {A : Type} (a : list A) (i : Z) (x : A) : option (list A) :=
  if (0 <=? i) && (i <? Z.of_nat (length a)) then Some (<[Z.to_nat i := x]> a)
  else None.

(** The two vertex arrays a strategy works on. *)
Record Subpaths `{Externals} := mkSubpaths {
  lightVertices : list Vertex;
  cameraVertices : list Vertex
}.

(** [&lightVertices[i]] and [&cameraVertices[i]]. *)
Inductive VertexPtr := LightAt (i : Z) | CameraAt (i : Z).

Definition load_vertex `{Externals} (m : Subpaths) (p : VertexPtr) : option Vertex :=
  match p with
  | LightAt i => at_index (lightVertices m) i
  | CameraAt i => at_index (cameraVertices m) i
  end.

Definition store_vertex `{Externals} (m : Subpaths) (p : VertexPtr) (v : Vertex)
  : option Subpaths :=
  match p with
  | LightAt i =>
      lv ← set_index (lightVertices m) i v; Some (mkSubpaths _ lv (cameraVertices m))
  | CameraAt i =>
      cv ← set_index (cameraVertices m) i v; Some (mkSubpaths _ (lightVertices m) cv)
  end.

(** Pointers to a whole vertex ([Vertex *]), to its [delta] flag ([bool *])
    and to its reverse density ([Float *]). *)
Inductive Ptr `{Externals} : Type -> Type :=
  | ToVertex : VertexPtr -> Ptr Vertex
  | ToDelta : VertexPtr -> Ptr bool
  | ToPdfRev : VertexPtr -> Ptr Float.

Definition load `{Externals} {T : Type} (m : Subpaths) (p : Ptr T) : option T :=
  match p in Ptr T return option T with
  | ToVertex q => load_vertex m q
  | ToDelta q => delta <$> load_vertex m q
  | ToPdfRev q => pdfRev <$> load_vertex m q
  end.

Definition store `{Externals} {T : Type} (m : Subpaths) (p : Ptr T) : T -> option Subpaths :=
  match p in Ptr T return T -> option Subpaths with
  | ToVertex q => fun x => store_vertex m q x
  | ToDelta q => fun x => v ← load_vertex m q; store_vertex m q (set_delta x v)
  | ToPdfRev q => fun x => v ← load_vertex m q; store_vertex m q (set_pdfRev x v)
  end.

(** Modelled from the spec: [ScopedAssignment] is declared in [bdpt.h], not
    in [bdpt.cpp].  It is the scoped, fully reversible temporary overwrite
    of the spec: built on a non-null target it saves the target's value and
    overwrites it; when it goes out of scope it writes the saved value back.
    A default-constructed one, or one built on a null target, does nothing. *)
Inductive ScopedAssignment `{Externals} (T : Type) :=
  | Unarmed
  | Armed (target : Ptr T) (backup : T).

Arguments Unarmed {_ _}.
Arguments Armed {_ _} target backup.

Definition scoped_assign `{Externals} {T : Type}
    (m : Subpaths) (target : option (Ptr T)) (value : T)
  : option (ScopedAssignment T * Subpaths) :=
  match target with
  | None => Some (Unarmed, m)
  | Some p =>
      old ← load m p;
      m' ← store m p value;
      Some (Armed p old, m')
  end.

Definition scoped_release `{Externals} {T : Type}
    (m : Subpaths) (a : ScopedAssignment T) : option Subpaths :=
  match a with
  | Unarmed => Some m
  | Armed p old => store m p old
  end.

(** * BDPT: the MIS weight of a strategy *)

(** [remap0]: a zero density stands for an excluded Dirac-delta strategy. *)
Definition remap0 (f : Float) : Float :=
  if negb (Flt.eqb f Flt.zero) then f else Flt.one.

(** A loop whose body may fail, over the successive values of its index. *)
Fixpoint for_each {S : Type} (indices : list Z) (body : Z -> S -> option S) (st : S)
  : option S :=
  match indices with
  | [] => Some st
  | i :: rest => st' ← body i st; for_each rest body st'
  end.

Section MISWeight.
Context `{VertexDensities}.

(** [*p]: undefined on a null pointer or outside the array. *)
Definition deref (m : Subpaths) (p : option VertexPtr) : option Vertex :=
  p ≫= load_vertex m.

(** A pointer argument that the callee checks for null before reading. *)
Definition deref_nullable (m : Subpaths) (p : option VertexPtr)
  : option (option Vertex) :=
  match p with
  | None => Some None
  | Some q => Some <$> load_vertex m q
  end.

(** One turn of the loop over the camera subpath: [acc] is [(ri, sumRi)]. *)
Definition camera_strategy (m : Subpaths) (i : Z) (acc : Float * Float)
  : option (Float * Float) :=
  let '(ri, sumRi) := acc in
  vi ← at_index (cameraVertices m) i;
  vprev ← at_index (cameraVertices m) (i - 1);
  let ri := Flt.mul ri (Flt.div (remap0 (pdfRev vi)) (remap0 (pdfFwd vi))) in
  Some (ri, if negb (delta vi) && negb (delta vprev) then Flt.add sumRi ri else sumRi).

(** One turn of the loop over the light subpath. *)
Definition light_strategy (m : Subpaths) (i : Z) (acc : Float * Float)
  : option (Float * Float) :=
  let '(ri, sumRi) := acc in
  vi ← at_index (lightVertices m) i;
  let ri := Flt.mul ri (Flt.div (remap0 (pdfRev vi)) (remap0 (pdfFwd vi))) in
  deltaLightvertex ←
    (if 0 <? i then delta <$> at_index (lightVertices m) (i - 1)
     else IsDeltaLight <$> at_index (lightVertices m) 0);
  Some (ri, if negb (delta vi) && negb deltaLightvertex then Flt.add sumRi ri else sumRi).

(** The two backward walks, on the temporarily updated subpaths. *)
Definition sum_ri (m : Subpaths) (s t : Z) : option Float :=
  '(_, sumRi) ← for_each (downto (t - 1) 1) (camera_strategy m) (Flt.one, Flt.zero);
  '(_, sumRi) ← for_each (downto (s - 1) 0) (light_strategy m) (Flt.one, sumRi);
  Some sumRi.

Definition MISWeight (scene : Scene) (m : Subpaths) (sampled : Vertex)
    (s t : Z) (lightDistrib : FixedLightDistribution)
  : option (Float * Subpaths) :=
  if s + t =? 2 then Some (Flt.one, m)
  else
    (* Look up connection vertices and their predecessors *)
    let qs := if 0 <? s then Some (LightAt (s - 1)) else None in
    let pt := if 0 <? t then Some (CameraAt (t - 1)) else None in
    let qsMinus := if 1 <? s then Some (LightAt (s - 2)) else None in
    let ptMinus := if 1 <? t then Some (CameraAt (t - 2)) else None in
    (* Update sampled vertex for s = 1 or t = 1 strategy *)
    '(a1, m) ← (if s =? 1 then scoped_assign m (ToVertex <$> qs) sampled
                else if t =? 1 then scoped_assign m (ToVertex <$> pt) sampled
                else Some (Unarmed, m));
    (* Mark connection vertices as non-degenerate *)
    '(a2, m) ← scoped_assign m (ToDelta <$> pt) false;
    '(a3, m) ← scoped_assign m (ToDelta <$> qs) false;
    (* Update reverse density of vertex pt_{t-1} *)
    '(a4, m) ←
      match pt with
      | None => Some (Unarmed, m)
      | Some p =>
          vpt ← load_vertex m p;
          value ←
            (if 0 <? s then
               vqs ← deref m qs;
               vqsMinus ← deref_nullable m qsMinus;
               Some (Pdf scene vqs vqsMinus vpt)
             else
               vptMinus ← deref m ptMinus;
               Some (PdfLightOrigin scene vpt vptMinus lightDistrib));
          scoped_assign m (Some (ToPdfRev p)) value
      end;
    (* Update reverse density of vertex pt_{t-2} *)
    '(a5, m) ←
      match ptMinus with
      | None => Some (Unarmed, m)
      | Some p =>
          vptMinus ← load_vertex m p;
          vpt ← deref m pt;
          value ←
            (if 0 <? s then
               vqs ← deref_nullable m qs;
               Some (Pdf scene vpt vqs vptMinus)
             else Some (PdfLight scene vpt vptMinus));
          scoped_assign m (Some (ToPdfRev p)) value
      end;
    (* Update reverse density of vertices qs_{s-1} and qs_{s-2} *)
    '(a6, m) ←
      match qs with
      | None => Some (Unarmed, m)
      | Some q =>
          vqs ← load_vertex m q;
          vpt ← deref m pt;
          vptMinus ← deref_nullable m ptMinus;
          scoped_assign m (Some (ToPdfRev q)) (Pdf scene vpt vptMinus vqs)
      end;
    '(a7, m) ←
      match qsMinus with
      | None => Some (Unarmed, m)
      | Some q =>
          vqsMinus ← load_vertex m q;
          vqs ← deref m qs;
          vpt ← deref_nullable m pt;
          scoped_assign m (Some (ToPdfRev q)) (Pdf scene vqs vpt vqsMinus)
      end;
    (* Consider hypothetical connection strategies along both subpaths *)
    sumRi ← sum_ri m s t;
    let result := Flt.div Flt.one (Flt.add Flt.one sumRi) in
    (* The scoped assignments go out of scope, last declared first *)
    m ← scoped_release m a7;
    m ← scoped_release m a6;
    m ← scoped_release m a5;
    m ← scoped_release m a4;
    m ← scoped_release m a3;
    m ← scoped_release m a2;
    m ← scoped_release m a1;
    Some (result, m).

End MISWeight.

(** * BDPT: connecting two subpaths *)

(** The result of [Camera::Sample_Wi]; [swi_pRaster] is the content of
    [*pRaster] after the call. *)
Record SampleWi `{Externals} := mkSampleWi {
  swi_Wi : Spectrum;
  swi_wi : Vector3f;
  swi_pdf : Float;
  swi_pRaster : Point2f;
  swi_vis : VisibilityTester
}.

(** The result of [Light::Sample_Li]. *)
Record SampleLi `{Externals} := mkSampleLi {
  sli_weight : Spectrum;
  sli_wi : Vector3f;
  sli_pdf : Float;
  sli_vis : VisibilityTester
}.

(** What a connection asks of the scene, the camera, the lights, the BSDFs
    and the sampler. *)
Class ConnectOps `{Externals} := {
  nSpectrumSamples : nat;
  default_vertex : Vertex;
  IsLight : Vertex -> bool;
  IsConnectible : Vertex -> bool;
  IsOnSurface : Vertex -> bool;
  Le : Scene -> Vertex -> Vertex -> Spectrum;
  f : Vertex -> Vertex -> TransportMode -> Spectrum;
  ns : Vertex -> Vector3f;
  p : Vertex -> Vector3f;
  vsub : Vector3f -> Vector3f -> Vector3f;
  vscale : Vector3f -> Float -> Vector3f;
  LengthSquared : Vector3f -> Float;
  AbsDot : Vector3f -> Vector3f -> Float;
  Get1D : Sampler -> Float * Sampler;
  Get2D : Sampler -> Point2f * Sampler;
  Sample_Wi : Camera -> Interaction -> Point2f -> Point2f -> SampleWi;
  Sample_Li : Light -> Interaction -> Point2f -> SampleLi;
  Sample_light : FixedLightDistribution -> Float -> Light * Float;
  P1 : VisibilityTester -> Interaction;
  make_VisibilityTester : Interaction -> Interaction -> VisibilityTester;
  Tr : VisibilityTester -> Scene -> Sampler -> Spectrum * Sampler;
  EndpointInteraction : Interaction -> Light -> Interaction;
  CreateCamera : Camera -> Interaction -> Spectrum -> Vertex;
  CreateLight : Interaction -> Spectrum -> Float -> Vertex
}.

(** The process-wide counters of the integrator.  [misWeightCalls] is a
    ghost log of the strategies for which [MISWeight] was invoked. *)
Record Stats := mkStats {
  totalPaths : Z;
  zeroRadiancePaths : Z;
  pathLength : list Z;
  misWeightCalls : list (Z * Z)
}.

Section ConnectBDPT.
Context `{VertexDensities} `{!ConnectOps}.

(** [Spectrum(0.f)]. *)
Definition black : Spectrum := replicate nSpectrumSamples Flt.zero.

Definition G (scene : Scene) (sampler : Sampler) (v0 v1 : Vertex)
  : Spectrum * Sampler :=
  let d := vsub (p v0) (p v1) in
  let g := Flt.div Flt.one (LengthSquared d) in
  let d := vscale d (Flt.sqrt g) in
  let g := if IsOnSurface v0 then Flt.mul g (AbsDot (ns v0) d) else g in
  let g := if IsOnSurface v1 then Flt.mul g (AbsDot (ns v1) d) else g in
  let vis := make_VisibilityTester (interaction v0) (interaction v1) in
  let '(tr, sampler) := Tr vis scene sampler in
  (Sp.scale tr g, sampler).

(** The connection proper: the unweighted contribution [L], the dynamically
    sampled vertex, the raster position and the sampler after the draws. *)
Definition connect_contribution (scene : Scene) (m : Subpaths) (s t : Z)
    (lightDistr : FixedLightDistribution) (camera : Camera)
    (sampler : Sampler) (pRaster : Point2f)
  : option (Spectrum * Vertex * Point2f * Sampler) :=
  let L := black in
  let sampled := default_vertex in
  if s =? 0 then
    (* Interpret the camera subpath as a complete path *)
    pt ← at_index (cameraVertices m) (t - 1);
    if IsLight pt then
      prev ← at_index (cameraVertices m) (t - 2);
      Some (Sp.mul (Le scene pt prev) (beta pt), sampled, pRaster, sampler)
    else Some (L, sampled, pRaster, sampler)
  else if t =? 1 then
    (* Sample a point on the camera and connect it to the light subpath *)
    qs ← at_index (lightVertices m) (s - 1);
    if IsConnectible qs then
      let '(u, sampler) := Get2D sampler in
      let r := Sample_Wi camera (interaction qs) u pRaster in
      let pRaster := swi_pRaster r in
      if Flt.ltb Flt.zero (swi_pdf r) && Sp.nonzero (swi_Wi r) then
        let sampled :=
          CreateCamera camera (P1 (swi_vis r)) (Sp.divide (swi_Wi r) (swi_pdf r)) in
        let L := Sp.mul (Sp.mul (beta qs) (f qs sampled Importance)) (beta sampled) in
        let L := if IsOnSurface qs then Sp.scale L (AbsDot (swi_wi r) (ns qs)) else L in
        if Sp.nonzero L then
          let '(tr, sampler) := Tr (swi_vis r) scene sampler in
          Some (Sp.mul L tr, sampled, pRaster, sampler)
        else Some (L, sampled, pRaster, sampler)
      else Some (L, sampled, pRaster, sampler)
    else Some (L, sampled, pRaster, sampler)
  else if s =? 1 then
    (* Sample a point on a light and connect it to the camera subpath *)
    pt ← at_index (cameraVertices m) (t - 1);
    if IsConnectible pt then
      let '(u1, sampler) := Get1D sampler in
      let '(light, lightPdf) := Sample_light lightDistr u1 in
      let '(u2, sampler) := Get2D sampler in
      let r := Sample_Li light (interaction pt) u2 in
      if Flt.ltb Flt.zero (sli_pdf r) && Sp.nonzero (sli_weight r) then
        let ei := EndpointInteraction (P1 (sli_vis r)) light in
        let sampled :=
          CreateLight ei (Sp.divide (sli_weight r) (Flt.mul (sli_pdf r) lightPdf))
            Flt.zero in
        let sampled :=
          set_pdfFwd (PdfLightOrigin scene sampled pt lightDistr) sampled in
        let L := Sp.mul (Sp.mul (beta pt) (f pt sampled Radiance)) (beta sampled) in
        let L := if IsOnSurface pt then Sp.scale L (AbsDot (sli_wi r) (ns pt)) else L in
        if Sp.nonzero L then
          let '(tr, sampler) := Tr (sli_vis r) scene sampler in
          Some (Sp.mul L tr, sampled, pRaster, sampler)
        else Some (L, sampled, pRaster, sampler)
      else Some (L, sampled, pRaster, sampler)
    else Some (L, sampled, pRaster, sampler)
  else
    (* Handle all other bidirectional connection cases *)
    qs ← at_index (lightVertices m) (s - 1);
    pt ← at_index (cameraVertices m) (t - 1);
    if IsConnectible qs && IsConnectible pt then
      let L :=
        Sp.mul (Sp.mul (Sp.mul (beta qs) (f qs pt Importance)) (f pt qs Radiance))
          (beta pt) in
      if Sp.nonzero L then
        let '(g, sampler) := G scene sampler qs pt in
        Some (Sp.mul L g, sampled, pRaster, sampler)
      else Some (L, sampled, pRaster, sampler)
    else Some (L, sampled, pRaster, sampler).

(** What [ConnectBDPT] leaves behind: the returned radiance, the vertex
    arrays, the sampler, [*pRaster], [*misWeightPtr] (when the pointer is not
    null) and the counters. *)
Record Connected := mkConnected {
  c_L : Spectrum;
  c_paths : Subpaths;
  c_sampler : Sampler;
  c_pRaster : Point2f;
  c_misWeight : option Float;
  c_stats : Stats
}.

(** The test [t > 1 && s != 0 && cameraVertices[t - 1].type ==
    VertexType::Light] that makes [ConnectBDPT] return at once. *)
Definition invalid_connection (m : Subpaths) (s t : Z) : option bool :=
  if (1 <? t) && negb (s =? 0) then
    pt ← at_index (cameraVertices m) (t - 1);
    Some (match type pt with VLight => true | _ => false end)
  else Some false.

Definition ConnectBDPT (scene : Scene) (m : Subpaths) (s t : Z)
    (lightDistr : FixedLightDistribution) (camera : Camera)
    (sampler : Sampler) (pRaster : Point2f) (misWeightPtr : option Float)
    (stats : Stats)
  : option Connected :=
  (* Ignore invalid connections related to infinite area lights *)
  ignore ← invalid_connection m s t;
  if ignore : bool then Some (mkConnected black m sampler pRaster misWeightPtr stats)
  else
    (* Perform connection and write contribution to L *)
    '(L, sampled, pRaster, sampler) ←
      connect_contribution scene m s t lightDistr camera sampler pRaster;
    let totalPaths := totalPaths stats + 1 in
    let zeroRadiancePaths :=
      if Sp.nonzero L then zeroRadiancePaths stats else zeroRadiancePaths stats + 1 in
    let pathLength := pathLength stats ++ [s + t - 2] in
    (* Compute MIS weight for connection strategy *)
    '(misWeight, m, calls) ←
      (if Sp.nonzero L then
         '(w, m) ← MISWeight scene m sampled s t lightDistr;
         Some (w, m, misWeightCalls stats ++ [(s, t)])
       else Some (Flt.zero, m, misWeightCalls stats));
    let L := Sp.scale L misWeight in
    let misWeightPtr := (fun _ => misWeight) <$> misWeightPtr in
    Some (mkConnected L m sampler pRaster misWeightPtr
            (mkStats totalPaths zeroRadiancePaths pathLength calls)).

End ConnectBDPT.

(** * BDPT: the strategies of one pixel sample *)

(** A film records what is splatted onto it, in order. *)
Definition Film : Type := list (Point2f * Spectrum).

(** A ghost record of one invocation of [ConnectBDPT] by the renderer. *)
Record Connection := mkConnection {
  cn_s : Z;
  cn_t : Z;
  cn_pFilmNew : Point2f;
  cn_Lpath : Spectrum;
  cn_misWeight : Float
}.

Definition strategy_of (c : Connection) : Z * Z := (cn_s c, cn_t c).

Record SampleState `{Externals} := mkSampleState {
  ss_paths : Subpaths;
  ss_sampler : Sampler;
  ss_L : Spectrum;
  ss_film : Film;
  ss_weightFilms : list (option Film);
  ss_stats : Stats;
  ss_connections : list Connection
}.

(** The buffers for debug visualization: [bufferCount] null pointers, then
    one film per visualized strategy.  A negative [bufferCount] is an
    enormous size for the vector, whose construction fails. *)
Definition allocate_weightFilms (maxDepth : Z) : option (list (option Film)) :=
  if bufferCount maxDepth <? 0 then None
  else
    foldl
      (fun films '(s, t) => films ≫= fun fl => set_index fl (BufferIndex s t) (Some []))
      (Some (replicate (Z.to_nat (bufferCount maxDepth)) None))
      (visualized_strategies maxDepth).

Section Render.
Context `{VertexDensities} `{!ConnectOps}.
Variables (scene : Scene) (camera : Camera) (lightDistribution : FixedLightDistribution).
Variables (maxDepth : Z) (visualizeStrategies visualizeWeights : bool).

(** The condition under which the loop body skips the pair [(s, t)]. *)
Definition skipped (s t : Z) : bool :=
  let depth := t + s - 2 in
  ((s =? 1) && (t =? 1)) || (depth <? 0) || (maxDepth <? depth).

(** [weightFilms[BufferIndex(s, t)]->AddSplat(pFilmNew, value)]. *)
Definition splat_weightFilm (films : list (option Film)) (s t : Z)
    (pFilmNew : Point2f) (value : Spectrum) : option (list (option Film)) :=
  slot ← at_index films (BufferIndex s t);
  film ← slot;
  set_index films (BufferIndex s t) (Some (film ++ [(pFilmNew, value)])).

(** The body of the inner loop, for one pair [(s, t)]. *)
Definition strategy (pFilm : Point2f) (t s : Z) (st : SampleState)
  : option SampleState :=
  if skipped s t then Some st
  else
    (* Execute the (s, t) connection strategy and update L *)
    r ← ConnectBDPT scene (ss_paths st) s t lightDistribution camera
          (ss_sampler st) pFilm (Some Flt.zero) (ss_stats st);
    let pFilmNew := c_pRaster r in
    let misWeight := default Flt.zero (c_misWeight r) in
    let Lpath := c_L r in
    films ←
      (if visualizeStrategies || visualizeWeights then
         let value := black in
         let value :=
           if visualizeStrategies then
             if Flt.eqb misWeight Flt.zero then black else Sp.divide Lpath misWeight
           else value in
         let value := if visualizeWeights then Lpath else value in
         splat_weightFilm (ss_weightFilms st) s t pFilmNew value
       else Some (ss_weightFilms st));
    let connections :=
      ss_connections st ++ [mkConnection s t pFilmNew Lpath misWeight] in
    if negb (t =? 1) then
      Some (mkSampleState _ (c_paths r) (c_sampler r) (Sp.add (ss_L st) Lpath)
              (ss_film st) films (c_stats r) connections)
    else
      Some (mkSampleState _ (c_paths r) (c_sampler r) (ss_L st)
              (ss_film st ++ [(pFilmNew, Lpath)]) films (c_stats r) connections).

(** All connection strategies of one pixel sample, from the generated
    subpaths of [nCamera] and [nLight] vertices on: the state after the
    loops, and the sample handed to [filmTile->AddSample]. *)
Definition connect_all (pFilm : Point2f) (nCamera nLight : Z) (st : SampleState)
  : option (SampleState * (Point2f * Spectrum)) :=
  let st :=
    mkSampleState _ (ss_paths st) (ss_sampler st) black (ss_film st)
      (ss_weightFilms st) (ss_stats st) (ss_connections st) in
  st ← for_each (upto 1 (nCamera + 1))
         (fun t st => for_each (upto 0 (nLight + 1)) (strategy pFilm t) st) st;
  Some (st, (pFilm, ss_L st)).

End Render.

(** The pairs for which the loops of one pixel sample reach [ConnectBDPT],
    in the order of the loops. *)
Definition connected_strategies (maxDepth nCamera nLight : Z) : list (Z * Z) :=
  t ← upto 1 (nCamera + 1);
  s ← upto 0 (nLight + 1);
  if skipped maxDepth s t then [] else [(s, t)].

(** The pairs the loops of one pixel sample are meant to connect. *)
Definition valid_strategy (maxDepth nCamera nLight s t : Z) : Prop :=
  1 <= t <= nCamera /\ 0 <= s <= nLight /\ 0 <= s + t - 2 <= maxDepth /\
  ~ (s = 1 /\ t = 1).

(** How often [ConnectBDPT] was invoked for the pair [(s, t)]. *)
Definition invocations (cs : list Connection) (s t : Z) : nat :=
  length (filter (fun c => strategy_of c = (s, t)) cs).

(** What the [t = 1] strategies among [cs] splat onto the film. *)
Definition splats_of (cs : list Connection) : Film :=
  (fun c => (cn_pFilmNew c, cn_Lpath c)) <$> filter (fun c => cn_t c = 1) cs.

(** The sum of the other strategies among [cs], as the loop accumulates it. *)
Definition radiance_of (zero : Spectrum) (cs : list Connection) : Spectrum :=
  foldl Sp.add zero (cn_Lpath <$> filter (fun c => cn_t c <> 1) cs).

(** The strategies named by the set-up loop of the debug buffers and by the
    loops of a pixel sample. *)
Definition enumerated (maxDepth s t : Z) : Prop :=
  exists depth, 0 <= depth <= maxDepth /\ 0 <= s <= depth + 2 /\ t = depth + 2 - s /\
    1 <= t /\ ~ (s = 1 /\ t = 1).

(** Every enumerated strategy has its debug film. *)
Definition films_ready (maxDepth : Z) (films : list (option Film)) : Prop :=
  forall s t, enumerated maxDepth s t ->
    exists film, at_index films (BufferIndex s t) = Some (Some film).

(** * Outcomes of code with an unbounded loop *)

(** A run of at most [fuel] turns of a loop either returns, or has undefined
    behaviour (an access outside an array), or needs more turns. *)
Inductive Outcome (A : Type) :=
  | Finished (a : A)
  | Fault
  | Unfinished.

Arguments Finished {A} a.
Arguments Fault {A}.
Arguments Unfinished {A}.

#[global] Instance Outcome_ret : MRet Outcome := fun A a => Finished a.

#[global] Instance Outcome_bind : MBind Outcome := fun A B k m =>
  match m with
  | Finished a => k a
  | Fault => Fault
  | Unfinished => Unfinished
  end.

(** A step that is undefined when it yields [None]. *)
Definition defined {A : Type} (x : option A) : Outcome A :=
  match x with
  | Some a => Finished a
  | None => Fault
  end.


(** * Double precision, where the source computes in [double] *)

Module Dbl.

Definition prec : Z := 53.
Definition emax : Z := 1024.

Definition one : spec_float := S754_finite false 4503599627370496 (-52).
Definition of_Z (n : Z) : spec_float := binary_normalize prec emax n 0 false.
Definition div : spec_float -> spec_float -> spec_float := SFdiv prec emax.
Definition sqrt : spec_float -> spec_float := SFsqrt prec emax.

(** The conversion of a [double] to [Float]. *)
Definition to_Float (x : spec_float) : Float :=
  match x with
  | S754_finite s m e => binary_normalize Flt.prec Flt.emax (cond_Zopp s (Zpos m)) e s
  | _ => x
  end.

End Dbl.

(** * BDPT: generating the subpaths *)

(** Rays and the records of an intersection and of a medium interaction are
    external, like the interactions of the vertices. *)
Class Geometry := {
  Ray : Type;
  SurfaceInteraction : Type;
  MediumInteraction : Type
}.

(** What [BSDF::Sample_f] leaves behind: the value [f], and the contents of
    [wi], [pdfFwd] and [type & BSDF_SPECULAR] after the call. *)
Record SampleF `{Externals} := mkSampleF {
  sf_f : Spectrum;
  sf_wi : Vector3f;
  sf_pdf : Float;
  sf_specular : bool
}.

(** What [Light::Sample_Le] leaves behind. *)
Record SampleLe `{Externals} `{Geometry} := mkSampleLe {
  sle_Le : Spectrum;
  sle_ray : Ray;
  sle_nLight : Vector3f;
  sle_pdfPos : Float;
  sle_pdfDir : Float
}.

(** What a random walk asks of the scene, the media, the BSDFs, the camera
    and the lights. *)
Class WalkOps `{Externals} `{!ConnectOps} `{Geometry} := {
  ray_d : Ray -> Vector3f;
  vneg : Vector3f -> Vector3f;
  (* scene.Intersect(ray, &isect): the result, the record and the ray, whose
     extent the intersection routine updates *)
  Intersect : Scene -> Ray -> bool * SurfaceInteraction * Ray;
  has_medium : Ray -> bool;
  medium_Sample : Ray -> Sampler -> Spectrum * MediumInteraction * Sampler;
  default_MediumInteraction : MediumInteraction;
  mi_IsValid : MediumInteraction -> bool;
  phase_Sample_p : MediumInteraction -> Vector3f -> Point2f -> Float * Vector3f;
  mi_SpawnRay : MediumInteraction -> Vector3f -> Ray;
  ComputeScatteringFunctions :
    SurfaceInteraction -> Ray -> TransportMode -> SurfaceInteraction;
  has_bsdf : SurfaceInteraction -> bool;
  isect_SpawnRay : SurfaceInteraction -> Vector3f -> Ray;
  isect_wo : SurfaceInteraction -> Vector3f;
  isect_n : SurfaceInteraction -> Vector3f;
  shading_n : SurfaceInteraction -> Vector3f;
  bsdf_Sample_f : SurfaceInteraction -> Vector3f -> Point2f -> Float -> SampleF;
  bsdf_Pdf : SurfaceInteraction -> Vector3f -> Vector3f -> Float;
  CreateMedium : MediumInteraction -> Spectrum -> Float -> Vertex -> Vertex;
  CreateSurface : SurfaceInteraction -> Spectrum -> Float -> Vertex -> Vertex;
  ray_EndpointInteraction : Ray -> Interaction;
  ConvertDensity : Vertex -> Float -> Vertex -> Float;
  (* camera *)
  sampler_samplesPerPixel : Sampler -> Z;
  GenerateRayDifferential : Camera -> Point2f -> Float -> Point2f -> Spectrum * Ray;
  ScaleDifferentials : Ray -> Float -> Ray;
  CreateCamera_ray : Camera -> Ray -> Spectrum -> Vertex;
  Pdf_We : Camera -> Ray -> Float * Float;
  (* lights *)
  Sample_Le : Light -> Point2f -> Point2f -> Float -> SampleLe;
  CreateLight_ray : Light -> Ray -> Vector3f -> Spectrum -> Float -> Vertex;
  IsInfiniteLight : Vertex -> bool;
  ng : Vertex -> Vector3f;
  InfiniteLightDensity : Scene -> FixedLightDistribution -> Vector3f -> Float;
  vertex_time : Vertex -> Float;
  (* sampler *)
  StartSequence : Sampler -> Z * Z -> Z -> Sampler
}.

(** The state of the loop of [RandomWalk]. *)
Record Walk `{Externals} `{Geometry} := mkWalk {
  w_ray : Ray;
  w_beta : Spectrum;
  w_pdfFwd : Float;
  w_pdfRev : Float;
  w_bounces : Z;
  w_path : list Vertex;
  w_sampler : Sampler
}.

(** How a turn of the loop ends: with [break], or by going round again. *)
Inductive Flow := Break | Again.

Section Subpaths.
Context `{WalkOps}.

Definition CorrectShadingNormal (isect : SurfaceInteraction) (wo wi : Vector3f)
    (mode : TransportMode) : Float :=
  match mode with
  | Importance =>
      let num := Flt.mul (AbsDot wo (shading_n isect)) (AbsDot wi (isect_n isect)) in
      let denom := Flt.mul (AbsDot wo (isect_n isect)) (AbsDot wi (shading_n isect)) in
      (* wi is occasionally perpendicular to isect.shading.n *)
      if Flt.eqb denom Flt.zero then Flt.zero else Flt.div num denom
  | Radiance => Flt.one
  end.

(** [prev.pdfRev = vertex.ConvertDensity(pdfRev, prev)], with [vertex] and
    [prev] the elements [vertex] and [prev] of the array. *)
Definition write_back (path : list Vertex) (vertex prev : Z) (pdfRev : Float)
  : option (list Vertex) :=
  v ← at_index path vertex;
  p ← at_index path prev;
  set_index path prev (set_pdfRev (ConvertDensity v pdfRev p) p).

(** One turn of the loop of [RandomWalk]; [path0] is the index, in the
    caller's array, of the element the parameter [path] points to. *)
Definition RandomWalk_turn (scene : Scene) (maxDepth : Z) (mode : TransportMode)
    (path0 : Z) (w : Walk) : option (Flow * Walk) :=
  let beta := w_beta w in
  let pdfFwd := w_pdfFwd w in
  let pdfRev := w_pdfRev w in
  let bounces := w_bounces w in
  let path := w_path w in
  let sampler := w_sampler w in
  (* Trace a ray and sample the medium, if any *)
  let '(foundIntersection, isect, ray) := Intersect scene (w_ray w) in
  let '(beta, mi, sampler) :=
    if has_medium ray then
      let '(tr, mi, sampler) := medium_Sample ray sampler in (Sp.mul beta tr, mi, sampler)
    else (beta, default_MediumInteraction, sampler) in
  if Sp.IsBlack beta then
    Some (Break, mkWalk _ _ ray beta pdfFwd pdfRev bounces path sampler)
  else
    let vertex := path0 + bounces in
    let prev := path0 + bounces - 1 in
    if mi_IsValid mi then
      (* Record medium interaction in path and compute forward density *)
      vprev ← at_index path prev;
      path ← set_index path vertex (CreateMedium mi beta pdfFwd vprev);
      let bounces := bounces + 1 in
      if maxDepth <=? bounces then
        Some (Break, mkWalk _ _ ray beta pdfFwd pdfRev bounces path sampler)
      else
        (* Sample direction and compute reverse density at preceding vertex *)
        let '(u, sampler) := Get2D sampler in
        let '(pdf, wi) := phase_Sample_p mi (vneg (ray_d ray)) u in
        let pdfFwd := pdf in
        let pdfRev := pdf in
        let ray := mi_SpawnRay mi wi in
        (* Compute reverse area density at preceding vertex *)
        path ← write_back path vertex prev pdfRev;
        Some (Again, mkWalk _ _ ray beta pdfFwd pdfRev bounces path sampler)
    else
      (* Handle surface interaction for path generation *)
      if negb foundIntersection then
        (* Capture escaped rays when tracing from the camera *)
        match mode with
        | Radiance =>
            path ← set_index path vertex
                     (CreateLight (ray_EndpointInteraction ray) beta pdfFwd);
            Some (Break, mkWalk _ _ ray beta pdfFwd pdfRev (bounces + 1) path sampler)
        | Importance =>
            Some (Break, mkWalk _ _ ray beta pdfFwd pdfRev bounces path sampler)
        end
      else
        (* Compute scattering functions for mode and skip over medium
           boundaries *)
        let isect := ComputeScatteringFunctions isect ray mode in
        if negb (has_bsdf isect) then
          let ray := isect_SpawnRay isect (ray_d ray) in
          Some (Again, mkWalk _ _ ray beta pdfFwd pdfRev bounces path sampler)
        else
          (* Initialize vertex with surface intersection information *)
          vprev ← at_index path prev;
          path ← set_index path vertex (CreateSurface isect beta pdfFwd vprev);
          let bounces := bounces + 1 in
          if maxDepth <=? bounces then
            Some (Break, mkWalk _ _ ray beta pdfFwd pdfRev bounces path sampler)
          else
            (* Sample BSDF at current vertex and compute reverse probability *)
            let wo := isect_wo isect in
            let '(u, sampler) := Get2D sampler in
            let r := bsdf_Sample_f isect wo u pdfFwd in
            let wi := sf_wi r in
            let pdfFwd := sf_pdf r in
            if Sp.IsBlack (sf_f r) || Flt.eqb pdfFwd Flt.zero then
              Some (Break, mkWalk _ _ ray beta pdfFwd pdfRev bounces path sampler)
            else
              let beta :=
                Sp.mul beta
                  (Sp.divide (Sp.scale (sf_f r) (AbsDot wi (shading_n isect))) pdfFwd) in
              let pdfRev := bsdf_Pdf isect wi wo in
              '(path, pdfFwd, pdfRev) ←
                (if sf_specular r then
                   v ← at_index path vertex;
                   path ← set_index path vertex (set_delta true v);
                   Some (path, Flt.zero, Flt.zero)
                 else Some (path, pdfFwd, pdfRev));
              let beta := Sp.scale beta (CorrectShadingNormal isect wo wi mode) in
              let ray := isect_SpawnRay isect wi in
              (* Compute reverse area density at preceding vertex *)
              path ← write_back path vertex prev pdfRev;
              Some (Again, mkWalk _ _ ray beta pdfFwd pdfRev bounces path sampler).

(** The loop [while (true)], for at most [fuel] turns. *)
Fixpoint RandomWalk_loop (fuel : nat) (scene : Scene) (maxDepth : Z)
    (mode : TransportMode) (path0 : Z) (w : Walk) : Outcome Walk :=
  match fuel with
  | O => Unfinished
  | S fuel =>
      match RandomWalk_turn scene maxDepth mode path0 w with
      | None => Fault
      | Some (Break, w) => Finished w
      | Some (Again, w) => RandomWalk_loop fuel scene maxDepth mode path0 w
      end
  end.

(** [RandomWalk(scene, ray, sampler, arena, beta, pdf, maxDepth, mode,
    path + path0)] on the caller's array [path]: the number of vertices
    created, the array and the sampler. *)
Definition RandomWalk (fuel : nat) (scene : Scene) (ray : Ray) (sampler : Sampler)
    (beta : Spectrum) (pdf : Float) (maxDepth : Z) (mode : TransportMode)
    (path : list Vertex) (path0 : Z) : Outcome (Z * list Vertex * Sampler) :=
  if maxDepth =? 0 then Finished (0, path, sampler)
  else
    (* Declare variables for forward and reverse probability densities *)
    w ← RandomWalk_loop fuel scene maxDepth mode path0
          (mkWalk _ _ ray beta pdf Flt.zero 0 path sampler);
    Finished (w_bounces w, w_path w, w_sampler w).

(** [1 / std::sqrt(sampler.samplesPerPixel)]: the square root of an integer
    and the quotient are computed in [double]; the parameter of
    [ScaleDifferentials] is a [Float]. *)
Definition differential_scale (samplesPerPixel : Z) : Float :=
  Dbl.to_Float (Dbl.div Dbl.one (Dbl.sqrt (Dbl.of_Z samplesPerPixel))).

Definition GenerateCameraSubpath (fuel : nat) (scene : Scene) (sampler : Sampler)
    (maxDepth : Z) (camera : Camera) (pFilm : Point2f) (path : list Vertex)
  : Outcome (Z * list Vertex * Sampler) :=
  if maxDepth =? 0 then Finished (0, path, sampler)
  else
    (* Sample initial ray for camera subpath *)
    let '(time, sampler) := Get1D sampler in
    let '(pLens, sampler) := Get2D sampler in
    let '(beta, ray) := GenerateRayDifferential camera pFilm time pLens in
    let ray := ScaleDifferentials ray (differential_scale (sampler_samplesPerPixel sampler)) in
    (* Generate first vertex on camera subpath and start random walk *)
    path ← defined (set_index path 0 (CreateCamera_ray camera ray beta));
    let '(pdfPos, pdfDir) := Pdf_We camera ray in
    '(n, path, sampler) ←
      RandomWalk fuel scene ray sampler beta pdfDir (maxDepth - 1) Radiance path 1;
    Finished (n + 1, path, sampler).

(** The correction of the densities of the first two vertices for an
    infinite area light. *)
Definition correct_infinite_light (scene : Scene) (lightDistr : FixedLightDistribution)
    (d : Vector3f) (pdfPos : Float) (nVertices : Z) (path : list Vertex)
  : option (list Vertex) :=
  v0 ← at_index path 0;
  if IsInfiniteLight v0 then
    (* Set spatial density of path[1] for infinite area light *)
    path ←
      (if 0 <? nVertices then
         v1 ← at_index path 1;
         let v1 := set_pdfFwd pdfPos v1 in
         let v1 :=
           if IsOnSurface v1 then set_pdfFwd (Flt.mul (pdfFwd v1) (AbsDot d (ng v1))) v1
           else v1 in
         set_index path 1 v1
       else Some path);
    (* Set spatial density of path[0] for infinite area light *)
    v0 ← at_index path 0;
    set_index path 0 (set_pdfFwd (InfiniteLightDensity scene lightDistr d) v0)
  else Some path.

(** The order in which the two [sampler.Get2D()] arguments of [Sample_Le]
    are evaluated is left to the compiler: [leftToRight] tells whether the
    first argument is drawn first. *)
Definition GenerateLightSubpath (fuel : nat) (leftToRight : bool) (scene : Scene)
    (sampler : Sampler) (maxDepth : Z) (time : Float)
    (lightDistr : FixedLightDistribution) (path : list Vertex)
  : Outcome (Z * list Vertex * Sampler) :=
  if maxDepth =? 0 then Finished (0, path, sampler)
  else
    (* Sample initial ray for light subpath *)
    let '(u, sampler) := Get1D sampler in
    let '(light, lightPdf) := Sample_light lightDistr u in
    if Flt.eqb lightPdf Flt.zero then Finished (0, path, sampler)
    else
      let '(a, sampler) := Get2D sampler in
      let '(b, sampler) := Get2D sampler in
      let r := if leftToRight then Sample_Le light a b time else Sample_Le light b a time in
      let ray := sle_ray r in
      let nLight := sle_nLight r in
      let pdfPos := sle_pdfPos r in
      let pdfDir := sle_pdfDir r in
      let Le := sle_Le r in
      if Flt.eqb pdfPos Flt.zero || Flt.eqb pdfDir Flt.zero || Sp.IsBlack Le then
        Finished (0, path, sampler)
      else
        (* Generate first vertex on light subpath and start random walk *)
        path ← defined (set_index path 0
                          (CreateLight_ray light ray nLight Le (Flt.mul pdfPos lightPdf)));
        let beta :=
          Sp.divide (Sp.scale Le (AbsDot nLight (ray_d ray)))
            (Flt.mul (Flt.mul lightPdf pdfPos) pdfDir) in
        '(nVertices, path, sampler) ←
          RandomWalk fuel scene ray sampler beta pdfDir (maxDepth - 1) Importance path 1;
        (* Correct subpath sampling densities for infinite area lights *)
        path ← defined (correct_infinite_light scene lightDistr (ray_d ray) pdfPos
                          nVertices path);
        Finished (nVertices + 1, path, sampler).

End Subpaths.

(** * BDPT: one pixel sample *)

Section PixelSample.
Context `{VertexDensities} `{!ConnectOps} `{!Geometry} `{!WalkOps}.
Variables (scene : Scene) (camera : Camera) (lightDistribution : FixedLightDistribution).
Variables (maxDepth : Z) (visualizeStrategies visualizeWeights : bool).

(** Modelled from the spec: [MemoryArena] is declared in a header, not in
    [bdpt.cpp]; the subpath arrays are fixed-capacity buffers allocated for
    one sample evaluation.  [arena.AllocArray<Vertex>(n)] yields [n]
    default-constructed vertices; a negative [n] is an enormous count, and
    the allocation fails. *)
Definition AllocArray (n : Z) : option (list Vertex) :=
  if n <? 0 then None else Some (replicate (Z.to_nat n) default_vertex).

(** The body of the loop over [sampleIndex], for the pixel [pPixel]: the
    state after it, and the sample handed to [filmTile->AddSample]. *)
Definition pixel_sample (fuel : nat) (leftToRight : bool) (pPixel : Z * Z)
    (sampleIndex : Z) (st : SampleState)
  : Outcome (SampleState * (Point2f * Spectrum)) :=
  let tileSampler := StartSequence (ss_sampler st) pPixel sampleIndex in
  (* Generate a single sample using BDPT *)
  let '(u, tileSampler) := Get2D tileSampler in
  let pFilm := (Flt.add (Flt.of_Z pPixel.1) u.1, Flt.add (Flt.of_Z pPixel.2) u.2) in
  (* Trace the camera subpath *)
  cameraVertices ← defined (AllocArray (maxDepth + 2));
  lightVertices ← defined (AllocArray (maxDepth + 1));
  '(nCamera, cameraVertices, tileSampler) ←
    GenerateCameraSubpath fuel scene tileSampler (maxDepth + 2) camera pFilm cameraVertices;
  (* Now trace the light subpath *)
  first ← defined (at_index cameraVertices 0);
  '(nLight, lightVertices, tileSampler) ←
    GenerateLightSubpath fuel leftToRight scene tileSampler (maxDepth + 1)
      (vertex_time first) lightDistribution lightVertices;
  (* Execute all BDPT connection strategies *)
  defined
    (connect_all scene camera lightDistribution maxDepth visualizeStrategies
       visualizeWeights pFilm nCamera nLight
       (mkSampleState _ (mkSubpaths _ lightVertices cameraVertices) tileSampler (ss_L st)
          (ss_film st) (ss_weightFilms st) (ss_stats st) (ss_connections st))).

(** [sampler->Clone()], and [InsideExclusive(pPixel, pixelBounds)] for the
    integrator's [pixelBounds]. *)
Variable Clone : Sampler -> Sampler.
Variable InsideExclusive : Z * Z -> bool.


End PixelSample.

(** What the debug film of a strategy receives for a connection: the
    weighted contribution, or the unweighted one. *)
Definition debug_value `{Externals} `{!ConnectOps}
    (visualizeStrategies visualizeWeights : bool) (c : Connection) : Spectrum :=
  if visualizeWeights then cn_Lpath c
  else if visualizeStrategies then
    if Flt.eqb (cn_misWeight c) Flt.zero then black
    else Sp.divide (cn_Lpath c) (cn_misWeight c)
  else black.

(** The splats the connections [cs] send to the debug film of [(s, t)]. *)
Definition debug_splats `{Externals} `{!ConnectOps}
    (visualizeStrategies visualizeWeights : bool) (cs : list Connection) (s t : Z) : Film :=
  (fun c => (cn_pFilmNew c, debug_value visualizeStrategies visualizeWeights c))
    <$> filter (fun c => strategy_of c = (s, t)) cs.

(** * MLT: the primary-sample-space sampler *)

(** The random number generator and the inverse error function are used but
    not defined by the sampler. *)
Class RandomOps := {
  RNG : Type;
  seeded : Z -> RNG;
  UniformFloat : RNG -> Float * RNG;
  ErfInv : Float -> Float;
  Sqrt2 : Float
}.

(** Modelled from the spec: [PrimarySample] is declared in [mlt.h], not in
    [mlt.cpp].  One coordinate: its value, the iteration of its last
    modification, and the backup of both taken before a mutation. *)
Record PrimarySample := mkPrimarySample {
  value : Float;
  lastModificationIteration : Z;
  valueBackup : Float;
  modifyBackup : Z
}.

(** A value-initialized coordinate, as [std::vector::resize] creates it. *)
Definition fresh_sample : PrimarySample := mkPrimarySample Flt.zero 0 Flt.zero 0.

Definition Backup (Xi : PrimarySample) : PrimarySample :=
  mkPrimarySample (value Xi) (lastModificationIteration Xi)
    (value Xi) (lastModificationIteration Xi).

Definition Restore (Xi : PrimarySample) : PrimarySample :=
  mkPrimarySample (valueBackup Xi) (modifyBackup Xi) (valueBackup Xi) (modifyBackup Xi).

Definition set_value (v : Float) (Xi : PrimarySample) : PrimarySample :=
  mkPrimarySample v (lastModificationIteration Xi) (valueBackup Xi) (modifyBackup Xi).

Definition set_lastModificationIteration (n : Z) (Xi : PrimarySample) : PrimarySample :=
  mkPrimarySample (value Xi) n (valueBackup Xi) (modifyBackup Xi).

(** The perturbation of a small step: [value += normalSample * effSigma;
    value -= std::floor(value)]. *)
Definition small_step (v normalSample effSigma : Float) : Float :=
  let v := Flt.add v (Flt.mul normalSample effSigma) in
  Flt.sub v (Flt.floor v).

Record MLTSampler `{RandomOps} := mkMLTSampler {
  samplesPerPixel : Z;
  rng : RNG;
  sigma : Float;
  largeStepProbability : Float;
  streamCount : Z;
  X : list PrimarySample;
  currentIteration : Z;
  largeStep : bool;
  lastLargeStepIteration : Z;
  streamIndex : Z;
  sampleIndex : Z
}.

Section MLTSampler.
Context `{RandomOps}.

(** Modelled from the spec: the constructor is declared in [mlt.h], not in
    [mlt.cpp].  A new sampler owns a generator seeded with its sequence index,
    has no coordinates yet and is at iteration 0; its first path is drawn as
    a large step, every coordinate fresh and uniform, as an independent
    bootstrap candidate must be. *)
Definition new_MLTSampler (mutationsPerPixel rngSequenceIndex : Z)
    (sigma largeStepProbability : Float) (streamCount : Z) : MLTSampler :=
  mkMLTSampler _ mutationsPerPixel (seeded rngSequenceIndex) sigma
    largeStepProbability streamCount [] 0 true 0 0 0.

Definition with_rng (r : RNG) (sm : MLTSampler) : MLTSampler :=
  mkMLTSampler _ (samplesPerPixel sm) r (sigma sm) (largeStepProbability sm)
    (streamCount sm) (X sm) (currentIteration sm) (largeStep sm)
    (lastLargeStepIteration sm) (streamIndex sm) (sampleIndex sm).

Definition with_X (x : list PrimarySample) (sm : MLTSampler) : MLTSampler :=
  mkMLTSampler _ (samplesPerPixel sm) (rng sm) (sigma sm) (largeStepProbability sm)
    (streamCount sm) x (currentIteration sm) (largeStep sm)
    (lastLargeStepIteration sm) (streamIndex sm) (sampleIndex sm).

(** Modelled from the spec: [GetNextIndex] is declared in [mlt.h], not in
    [mlt.cpp].  The coordinates are partitioned into [streamCount] interleaved
    streams; the call yields the coordinate under the cursor of the current
    stream and advances the cursor. *)
Definition GetNextIndex (sm : MLTSampler) : Z * MLTSampler :=
  (streamIndex sm + streamCount sm * sampleIndex sm,
   mkMLTSampler _ (samplesPerPixel sm) (rng sm) (sigma sm) (largeStepProbability sm)
     (streamCount sm) (X sm) (currentIteration sm) (largeStep sm)
     (lastLargeStepIteration sm) (streamIndex sm) (sampleIndex sm + 1)).

Definition StartIteration (sm : MLTSampler) : MLTSampler :=
  let '(u, r) := UniformFloat (rng sm) in
  mkMLTSampler _ (samplesPerPixel sm) r (sigma sm) (largeStepProbability sm)
    (streamCount sm) (X sm) (currentIteration sm + 1)
    (Flt.ltb u (largeStepProbability sm))
    (lastLargeStepIteration sm) (streamIndex sm) (sampleIndex sm).

Definition Accept (sm : MLTSampler) : MLTSampler :=
  if largeStep sm then
    mkMLTSampler _ (samplesPerPixel sm) (rng sm) (sigma sm) (largeStepProbability sm)
      (streamCount sm) (X sm) (currentIteration sm) (largeStep sm)
      (currentIteration sm) (streamIndex sm) (sampleIndex sm)
  else sm.

(** The mutation of one coordinate: the new coordinate and generator. *)
Definition mutate (sm : MLTSampler) (Xi : PrimarySample) : PrimarySample * RNG :=
  (* Reset Xi if a large step took place in the meantime *)
  let '(Xi, r) :=
    if lastModificationIteration Xi <? lastLargeStepIteration sm then
      let '(u, r) := UniformFloat (rng sm) in
      (set_lastModificationIteration (lastLargeStepIteration sm) (set_value u Xi), r)
    else (Xi, rng sm) in
  (* Apply remaining sequence of mutations to the sample *)
  let Xi := Backup Xi in
  let '(Xi, r) :=
    if largeStep sm then
      let '(u, r) := UniformFloat r in (set_value u Xi, r)
    else
      let nSmall := currentIteration sm - lastModificationIteration Xi in
      (* Sample the standard normal distribution N(0, 1) *)
      let '(u, r) := UniformFloat r in
      let normalSample := Flt.mul Sqrt2 (ErfInv (Flt.sub (Flt.mul Flt.two u) Flt.one)) in
      (* Compute the effective standard deviation and apply perturbation *)
      let effSigma := Flt.mul (sigma sm) (Flt.sqrt (Flt.of_Z nSmall)) in
      (set_value (small_step (value Xi) normalSample effSigma) Xi, r) in
  (set_lastModificationIteration (currentIteration sm) Xi, r).

(** [EnsureReady(index)]; a negative index is outside every vector. *)
Definition EnsureReady (index : Z) (sm : MLTSampler) : option MLTSampler :=
  if index <? 0 then None
  else
    let i := Z.to_nat index in
    (* Enlarge X if necessary and get current X_i *)
    let x := if Z.of_nat (length (X sm)) <=? index
             then resize (S i) fresh_sample (X sm) else X sm in
    Xi ← x !! i;
    let '(Xi, r) := mutate sm Xi in
    Some (with_rng r (with_X (<[i := Xi]> x) sm)).

Definition Get1D_MLT (sm : MLTSampler) : option (Float * MLTSampler) :=
  let '(index, sm) := GetNextIndex sm in
  sm ← EnsureReady index sm;
  Xi ← at_index (X sm) index;
  Some (value Xi, sm).

Definition Get2D_MLT (sm : MLTSampler) : option (Point2f * MLTSampler) :=
  '(a, sm) ← Get1D_MLT sm;
  '(b, sm) ← Get1D_MLT sm;
  Some ((a, b), sm).

Definition Reject (sm : MLTSampler) : MLTSampler :=
  mkMLTSampler _ (samplesPerPixel sm) (rng sm) (sigma sm) (largeStepProbability sm)
    (streamCount sm)
    ((fun Xi =>
        if lastModificationIteration Xi =? currentIteration sm
        then Restore Xi else Xi) <$> X sm)
    (currentIteration sm - 1) (largeStep sm)
    (lastLargeStepIteration sm) (streamIndex sm) (sampleIndex sm).

(** [StartStream(index)]; the failed [CHECK_LT] is fatal. *)
Definition StartStream (index : Z) (sm : MLTSampler) : option MLTSampler :=
  if index <? streamCount sm then
    Some (mkMLTSampler _ (samplesPerPixel sm) (rng sm) (sigma sm)
            (largeStepProbability sm) (streamCount sm) (X sm) (currentIteration sm)
            (largeStep sm) (lastLargeStepIteration sm) index 0)
  else None.

(** The calls a client can make, and a run of a call sequence: the values
    handed out, in order, and the final sampler. *)
Inductive Call :=
  | CallStartIteration
  | CallGet1D
  | CallGet2D
  | CallAccept
  | CallReject
  | CallStartStream (index : Z).

Definition call (c : Call) (sm : MLTSampler) : option (list Float * MLTSampler) :=
  match c with
  | CallStartIteration => Some ([], StartIteration sm)
  | CallGet1D => '(v, sm) ← Get1D_MLT sm; Some ([v], sm)
  | CallGet2D => '(v, sm) ← Get2D_MLT sm; Some ([v.1; v.2], sm)
  | CallAccept => Some ([], Accept sm)
  | CallReject => Some ([], Reject sm)
  | CallStartStream index => sm ← StartStream index sm; Some ([], sm)
  end.

Fixpoint run (calls : list Call) (sm : MLTSampler) : option (list Float * MLTSampler) :=
  match calls with
  | [] => Some ([], sm)
  | c :: rest =>
      '(vs, sm) ← call c sm;
      '(ws, sm) ← run rest sm;
      Some (vs ++ ws, sm)
  end.

End MLTSampler.

(** * MLT: bootstrap and Markov chains *)

Definition cameraStreamIndex : Z := 0.
Definition lightStreamIndex : Z := 1.
Definition connectionStreamIndex : Z := 2.
Definition nSampleStreams : Z := 3.

(** The evaluation [L] of one transport path of a given depth builds its
    subpaths through the scene; the loops below only use its result: the
    radiance, the raster position and the sampler after the draws.
    [y] is the luminance of a spectrum and [SampleDiscrete] the sampling of
    the bootstrap distribution. *)
Class PathOps `{RandomOps} := {
  MLTScene : Type;
  L : MLTScene -> MLTSampler -> Z -> Spectrum * Point2f * MLTSampler;
  y : Spectrum -> Float;
  SampleDiscrete : list Float -> Float -> Z
}.

Record Bootstrap := mkBootstrap {
  bootstrapWeights : list Float;
  bootstrapProgress : Z
}.

Record Chain `{RandomOps} := mkChain {
  ch_sampler : MLTSampler;
  ch_rng : RNG;
  pCurrent : Point2f;
  LCurrent : Spectrum;
  ch_film : Film;
  acceptedMutations : Z;
  totalMutations : Z;
  ch_progress : Z
}.

Section MLTRender.
Context `{PathOps}.
Variables (scene : MLTScene).
Variables (maxDepth nBootstrap nChains mutationsPerPixel : Z).
Variables (sigma_ largeStepProbability_ : Float).

(** The condition of the progress update in the bootstrap loop, as written:
    [(i + 1 % 256) == 0], where [%] binds tighter than [+]. *)
Definition progress_due (i : Z) : bool := i + Z.rem 1 256 =? 0.

(** The condition with the sum parenthesized: [((i + 1) % 256) == 0]. *)
Definition progress_due_parenthesized (i : Z) : bool := Z.rem (i + 1) 256 =? 0.

(** The bootstrap sample of index [i] and depth [depth]. *)
Definition bootstrap_sample (i depth : Z) (weights : list Float) : option (list Float) :=
  let rngIndex := i * (maxDepth + 1) + depth in
  let sampler :=
    new_MLTSampler mutationsPerPixel rngIndex sigma_ largeStepProbability_
      nSampleStreams in
  let '(Lsample, _, _) := L scene sampler depth in
  set_index weights rngIndex (y Lsample).

(** The luminance of the bootstrap sample of random-number index [k], whose
    depth is [k % (maxDepth + 1)]. *)
Definition bootstrap_weight (k : Z) : Float :=
  y (L scene
       (new_MLTSampler mutationsPerPixel k sigma_ largeStepProbability_ nSampleStreams)
       (Z.rem k (maxDepth + 1))).1.1.

(** One turn of the loop over [i], with [report] as its progress condition. *)
Definition bootstrap_turn (report : Z -> bool) (i : Z) (b : Bootstrap)
  : option Bootstrap :=
  weights ← for_each (upto 0 (maxDepth + 1)) (bootstrap_sample i) (bootstrapWeights b);
  Some (mkBootstrap weights
          (if report i then bootstrapProgress b + 1 else bootstrapProgress b)).

Definition bootstrap_loop (report : Z -> bool) (start end_ : Z) (b : Bootstrap)
  : option Bootstrap :=
  for_each (upto start end_) (bootstrap_turn report) b.

(** The chunk [start, end) of the bootstrap loop of [MLTIntegrator::Render]. *)
Definition bootstrap_chunk (start end_ : Z) (b : Bootstrap) : option Bootstrap :=
  bootstrap_loop progress_due start end_ b.

Definition progressFrequency : Z := 32768.

(** The initial state of the [i]th chain. *)
Definition start_chain (i : Z) (bootstrap : list Float) (film : Film)
    (accepted total progress : Z) : Z * Chain :=
  let '(u, r) := UniformFloat (seeded i) in
  let bootstrapIndex := SampleDiscrete bootstrap u in
  let depth := Z.rem bootstrapIndex (maxDepth + 1) in
  let sampler :=
    new_MLTSampler mutationsPerPixel bootstrapIndex sigma_ largeStepProbability_
      nSampleStreams in
  let '(Lc, pc, sampler) := L scene sampler depth in
  (depth, mkChain _ sampler r pc Lc film accepted total progress).

(** The acceptance probability of a proposal. *)
Definition acceptance (LProposed LCurrent : Spectrum) : Float :=
  Flt.min Flt.one (Flt.div (y LProposed) (y LCurrent)).

(** One step [j] of the [i]th Markov chain. *)
Definition chain_step (nTotalMutations i depth j : Z) (c : Chain) : Chain :=
  let sampler := StartIteration (ch_sampler c) in
  let '(LProposed, pProposed, sampler) := L scene sampler depth in
  (* Compute acceptance probability for proposed sample *)
  let accept := acceptance LProposed (LCurrent c) in
  (* Splat both current and proposed samples to film *)
  let film := ch_film c in
  let film :=
    if Flt.ltb Flt.zero accept then
      film ++ [(pProposed, Sp.divide (Sp.scale LProposed accept) (y LProposed))]
    else film in
  let film :=
    film ++ [(pCurrent c,
              Sp.divide (Sp.scale (LCurrent c) (Flt.sub Flt.one accept))
                (y (LCurrent c)))] in
  (* Accept or reject the proposal *)
  let '(u, r) := UniformFloat (ch_rng c) in
  let progress :=
    if Z.rem (Z.quot (i * nTotalMutations) nChains + j) progressFrequency =? 0
    then ch_progress c + 1 else ch_progress c in
  if Flt.ltb u accept then
    mkChain _ (Accept sampler) r pProposed LProposed film
      (acceptedMutations c + 1) (totalMutations c + 1) progress
  else
    mkChain _ (Reject sampler) r (pCurrent c) (LCurrent c) film
      (acceptedMutations c) (totalMutations c + 1) progress.

(** The [i]th chain followed for [nChainMutations] steps. *)
Definition run_chain (nTotalMutations i depth nChainMutations : Z) (c : Chain) : Chain :=
  foldl (fun c j => chain_step nTotalMutations i depth j c) c (upto 0 nChainMutations).

End MLTRender.

(** * MLT: the chunks of the bootstrap loop and the set of chains *)

(** What the chains share: the film, the two mutation counters and the
    progress reporter. *)
Record Rendering := mkRendering {
  r_film : Film;
  r_acceptedMutations : Z;
  r_totalMutations : Z;
  r_progress : Z
}.

Section MLTChains.
Context `{PathOps}.
Variables (scene : MLTScene).
Variables (maxDepth nBootstrap nChains mutationsPerPixel : Z).
Variables (sigma_ largeStepProbability_ : Float).

(** The bootstrap loop as [ParallelFor] runs it: one call of the loop body
    per chunk [(start, end)], here one chunk after the other. *)
Fixpoint bootstrap_chunks (chunks : list (Z * Z)) (b : Bootstrap) : option Bootstrap :=
  match chunks with
  | [] => Some b
  | (start, end_) :: rest =>
      b ← bootstrap_chunk scene maxDepth mutationsPerPixel sigma_ largeStepProbability_
            start end_ b;
      bootstrap_chunks rest b
  end.

(** The total work announced to the progress reporter of the chains. *)
Definition progress_total (nTotalMutations : Z) : Z :=
  Z.quot nTotalMutations progressFrequency.

(** The number of mutations of the [i]th chain:
    [std::min((i + 1) * nTotalMutations / nChains, nTotalMutations) -
     i * nTotalMutations / nChains]. *)
Definition nChainMutations (nTotalMutations i : Z) : Z :=
  let a := Z.quot ((i + 1) * nTotalMutations) nChains in
  (if nTotalMutations <? a then nTotalMutations else a)
  - Z.quot (i * nTotalMutations) nChains.

(** The body of the loop over the chains, for the [i]th chain. *)
Definition follow_chain (nTotalMutations : Z) (bootstrap : list Float) (i : Z)
    (r : Rendering) : Rendering :=
  let nChainMutations := nChainMutations nTotalMutations i in
  (* Select initial state from the set of bootstrap samples *)
  let '(depth, c) :=
    start_chain scene maxDepth mutationsPerPixel sigma_ largeStepProbability_ i bootstrap
      (r_film r) (r_acceptedMutations r) (r_totalMutations r) (r_progress r) in
  (* Run the Markov chain for nChainMutations steps *)
  let c := run_chain scene nChains nTotalMutations i depth nChainMutations c in
  mkRendering (ch_film c) (acceptedMutations c) (totalMutations c) (ch_progress c).

(** All the chains, when the scene has lights; [ParallelFor] runs them
    concurrently, here one after the other. *)
Definition run_chains (nLights nTotalMutations : Z) (bootstrap : list Float)
    (r : Rendering) : Rendering :=
  if 0 <? nLights then
    foldl (fun r i => follow_chain nTotalMutations bootstrap i r) r (upto 0 nChains)
  else r.

End MLTChains.

(** The number of multiples of [progressFrequency] among [0 .. m - 1]. *)
Definition updates_below (m : Z) : Z := (m + progressFrequency - 1) / progressFrequency.

(** * MLT: the evaluation of one path *)

(** The collaborators of the path evaluation, with [MLTSampler] as the
    sampler they draw from. *)
Definition with_MLTSampler `{RandomOps} (world : Externals) : Externals := {|
  Scene := @Scene world;
  Camera := @Camera world;
  Light := @Light world;
  FixedLightDistribution := @FixedLightDistribution world;
  Sampler := MLTSampler;
  Interaction := @Interaction world;
  Vector3f := @Vector3f world;
  VisibilityTester := @VisibilityTester world
|}.

Section MLTPath.
Context `{RandomOps} (world : Externals).
#[local] Hint Extern 0 Externals => exact (with_MLTSampler world) : typeclass_instances.
Context `{!VertexDensities} `{!ConnectOps} `{!Geometry} `{!WalkOps}.

(** [Sampler::GetDiscrete1D], [Film::GetSampleBounds] and [Bounds2f::Lerp]
    are used but not defined by the integrator. *)
Variable GetDiscrete1D : MLTSampler -> Z -> Z * MLTSampler.
Variable Bounds2f : Type.
Variable GetSampleBounds : Camera -> Bounds2f.
Variable Lerp : Bounds2f -> Point2f -> Point2f.

(** [MLTIntegrator::L]: the radiance, [*pRaster], the sampler and the
    counters after the call. *)
Definition MLTIntegrator_L (fuel : nat) (leftToRight : bool)
    (scene : Scene) (camera : Camera) (lightDistr : FixedLightDistribution)
    (sampler : MLTSampler) (depth : Z) (stats : Stats)
  : Outcome (Spectrum * Point2f * MLTSampler * Stats) :=
  sampler ← defined (StartStream cameraStreamIndex sampler);
  (* Determine the number of available strategies and pick a specific one *)
  let '(s, t, nStrategies, sampler) :=
    if depth =? 0 then (0, 2, 1, sampler)
    else
      let nStrategies := depth + 2 in
      let '(s, sampler) := GetDiscrete1D sampler nStrategies in
      (s, nStrategies - s, nStrategies, sampler) in
  (* Generate a camera subpath with exactly t vertices *)
  cameraVertices ← defined (AllocArray t);
  let sampleBounds := GetSampleBounds camera in
  let '(u, sampler) := Get2D (sampler : Sampler) in
  let pRaster := Lerp sampleBounds u in
  '(nCamera, cameraVertices, sampler) ←
    GenerateCameraSubpath fuel scene sampler t camera pRaster cameraVertices;
  if negb (nCamera =? t) then Finished (black, pRaster, sampler, stats)
  else
    (* Generate a light subpath with exactly s vertices *)
    sampler ← defined (StartStream lightStreamIndex sampler);
    lightVertices ← defined (AllocArray s);
    first ← defined (at_index cameraVertices 0);
    '(nLight, lightVertices, sampler) ←
      GenerateLightSubpath fuel leftToRight scene sampler s (vertex_time first)
        lightDistr lightVertices;
    if negb (nLight =? s) then Finished (black, pRaster, sampler, stats)
    else
      (* Execute connection strategy and return the radiance estimate *)
      sampler ← defined (StartStream connectionStreamIndex sampler);
      r ← defined (ConnectBDPT scene (mkSubpaths _ lightVertices cameraVertices) s t
                     lightDistr camera sampler pRaster None stats);
      Finished (Sp.scale (c_L r) (Flt.of_Z nStrategies), c_pRaster r, c_sampler r,
                c_stats r).

End MLTPath.

(** * The sampler's protocol, for the statements below *)

Section SamplerPredicates.
Context `{RandomOps}.

(** The number of coordinates a sequence of draws consumes. *)
Definition draws (calls : list Call) : Z :=
  foldr (fun c n => match c with CallGet1D => 1 + n | CallGet2D => 2 + n | _ => n end)
    0 calls.

Definition only_draws (calls : list Call) : Prop :=
  Forall (fun c => c = CallGet1D \/ c = CallGet2D) calls.


(** A sampler as its clients can bring it about: the streams are laid out,
    and each coordinate was either last modified no later than the current
    iteration or is identical to its backup. *)
Definition well_formed (sm : MLTSampler) : Prop :=
  1 <= streamCount sm /\ 0 <= streamIndex sm /\ 0 <= sampleIndex sm /\
  Forall (fun Xi => lastModificationIteration Xi <= currentIteration sm \/ Restore Xi = Xi)
    (X sm).

(** Calls whose stream index, if any, is not negative. *)
Definition proper_calls (calls : list Call) : Prop :=
  Forall (fun c => forall index, c = CallStartStream index -> 0 <= index) calls.

End SamplerPredicates.

(** * Predicates used in the statements and proofs *)

Section PathPredicates.
Context `{Externals}.

(** The arrays of [m'] are as long as those of [m]. *)
Definition same_shape (m m' : Subpaths) : Prop :=
  length (lightVertices m') = length (lightVertices m) /\
  length (cameraVertices m') = length (cameraVertices m).

(** The pointer [q] points into its array. *)
Definition in_range (m : Subpaths) (q : VertexPtr) : Prop :=
  match q with
  | LightAt i => 0 <= i < Z.of_nat (length (lightVertices m))
  | CameraAt i => 0 <= i < Z.of_nat (length (cameraVertices m))
  end.

(** The vertex a pointer points into. *)
Definition points_into {T} (p : Ptr T) : VertexPtr :=
  match p with ToVertex q | ToDelta q | ToPdfRev q => q end.

(** The state [st] of the strategy loops started in [st0], once the pairs
    [pairs] have been connected; [visualize] tells whether the debug films
    are in use. *)
Definition tracking (maxDepth : Z) (visualize : bool) (st0 : SampleState)
    (pairs : list (Z * Z)) (st : SampleState) : Prop :=
  ss_paths st = ss_paths st0 /\
  (visualize = true -> films_ready maxDepth (ss_weightFilms st)) /\
  exists new,
    ss_connections st = ss_connections st0 ++ new /\
    strategy_of <$> new = pairs /\
    ss_film st = ss_film st0 ++ splats_of new /\
    ss_L st = radiance_of (ss_L st0) new.

End PathPredicates.

Section ProposalPredicates.
Context `{RandomOps}.

(** The coordinate [i] of [sm], or the one a resize would create. *)
Definition original (sm : MLTSampler) (i : nat) : PrimarySample :=
  default fresh_sample (X sm !! i).


End ProposalPredicates.

(** * Predicates on subpaths under construction *)

Section WalkPredicates.
Context `{Externals} `{Geometry}.

(** [v'] is [v] but for its reverse density. *)
Definition but_pdfRev (v v' : Vertex) : Prop := set_pdfRev (pdfRev v) v' = v.

(** What a walk that created [n] vertices from the element [path0] on may
    have changed in the array: the elements [path0 .. path0 + n - 1], and
    the reverse density of the element before them. *)
Definition walk_frame (path path' : list Vertex) (path0 n : Z) : Prop :=
  length path' = length path /\
  (forall i, i < path0 - 1 \/ path0 + n <= i -> at_index path' i = at_index path i) /\
  exists v v', at_index path (path0 - 1) = Some v /\
               at_index path' (path0 - 1) = Some v' /\ but_pdfRev v v'.

(** What holds of the state at the head of the loop of [RandomWalk], and
    after the loop. *)
Definition walking (path : list Vertex) (path0 maxDepth : Z) (w : Walk) : Prop :=
  0 <= w_bounces w < maxDepth /\ walk_frame path (w_path w) path0 (w_bounces w).

Definition walked (path : list Vertex) (path0 maxDepth : Z) (w : Walk) : Prop :=
  0 <= w_bounces w <= maxDepth /\ walk_frame path (w_path w) path0 (w_bounces w).

(** What a subpath generator that returned [n] leaves in the array. *)
Definition subpath_frame (path path' : list Vertex) (n : Z) : Prop :=
  length path' = length path /\
  forall i, n <= i -> at_index path' i = at_index path i.

(** None of the [k] elements from [path0] on is a light vertex. *)
Definition no_light (path : list Vertex) (path0 k : Z) : Prop :=
  forall i, path0 <= i < path0 + k ->
    exists v, at_index path i = Some v /\ type v <> VLight.

End WalkPredicates.

Section FilmPredicates.
Context `{Externals} `{!ConnectOps}.

(** The debug films of [st], given those of [st0] and the connections made
    since. *)
Definition films_track (maxDepth : Z) (visualizeStrategies visualizeWeights : bool)
    (st0 st : SampleState) : Prop :=
  exists new,
    ss_connections st = ss_connections st0 ++ new /\
    forall s t, enumerated maxDepth s t ->
      exists film,
        at_index (ss_weightFilms st0) (BufferIndex s t) = Some (Some film) /\
        at_index (ss_weightFilms st) (BufferIndex s t)
        = Some (Some (film ++ debug_splats visualizeStrategies visualizeWeights new s t)).

End FilmPredicates.

(** * Predicates on the bootstrap and the chains *)

(** What the chains have done once the mutations [0 .. q - 1] of the budget
    are spent. *)
Definition spent (r0 : Rendering) (q : Z) (r : Rendering) : Prop :=
  r_totalMutations r = r_totalMutations r0 + q /\
  r_acceptedMutations r0 <= r_acceptedMutations r <= r_acceptedMutations r0 + q /\
  Z.of_nat (length (r_film r0)) + q <= Z.of_nat (length (r_film r))
    <= Z.of_nat (length (r_film r0)) + 2 * q /\
  r_progress r = r_progress r0 + updates_below q.

(** The luminance of [S] is neither zero nor NaN: [y != 0 && y == y]. *)
Definition lit `{PathOps} (S : Spectrum) : Prop :=
  Flt.eqb (y S) Flt.zero = false /\ Flt.eqb (y S) (y S) = true.

(** What a chain shares with the others. *)
Definition rendering_of `{RandomOps} (c : Chain) : Rendering :=
  mkRendering (ch_film c) (acceptedMutations c) (totalMutations c) (ch_progress c).

(** The sample index [k / (maxDepth + 1)] of the weight [k] lies in one of
    the chunks. *)
Definition in_chunks (maxDepth : Z) (chunks : list (Z * Z)) (k : Z) : Prop :=
  Exists (fun c => c.1 <= k / (maxDepth + 1) < c.2) chunks.

(** Chunks of the loop over [0 .. nBootstrap - 1]. *)
Definition proper_chunks (nBootstrap : Z) (chunks : list (Z * Z)) : Prop :=
  Forall (fun c => 0 <= c.1 /\ c.2 <= nBootstrap) chunks.

Section StreamPredicates.
Context `{RandomOps}.

(** The calls of one path evaluation: for each stream in turn, [StartStream]
    and then the draws from that stream. *)
Definition stream_calls (streams : list (Z * list Call)) : list Call :=
  streams ≫= fun jd => CallStartStream jd.1 :: jd.2.

(** The coordinates the draws [ds] from the start of stream [j] touch. *)
Definition stream_coordinates (sm : MLTSampler) (j : Z) (ds : list Call) : list Z :=
  (fun k => j + streamCount sm * k) <$> upto 0 (draws ds).

(** The coordinates these calls touch. *)
Definition streams_touched (sm : MLTSampler) (streams : list (Z * list Call)) : list Z :=
  streams ≫= fun jd => stream_coordinates sm jd.1 jd.2.

(** The streams are distinct streams of the sampler, and are only drawn
    from. *)
Definition proper_streams (sm : MLTSampler) (streams : list (Z * list Call)) : Prop :=
  NoDup (streams.*1) /\
  Forall (fun jd => 0 <= jd.1 < streamCount sm /\ only_draws jd.2) streams.

(** The sampler [st] in the iteration started from [sm], once the
    coordinates [T] have been touched. *)
Definition proposing_at (sm : MLTSampler) (T : list Z) (st : MLTSampler) : Prop :=
  currentIteration st = currentIteration sm + 1 /\
  lastLargeStepIteration st = lastLargeStepIteration sm /\
  streamCount st = streamCount sm /\
  (length (X sm) <= length (X st))%nat /\
  (forall i, i ∈ T -> 0 <= i < Z.of_nat (length (X st))) /\
  forall i : nat, (i < length (X st))%nat ->
    (Z.of_nat i ∈ T ->
     exists Xi, X st !! i = Some Xi /\
       lastModificationIteration Xi = currentIteration sm + 1 /\
       (lastLargeStepIteration sm <= lastModificationIteration (original sm i) ->
        valueBackup Xi = value (original sm i) /\
        modifyBackup Xi = lastModificationIteration (original sm i))) /\
    (Z.of_nat i ∉ T -> X st !! i = Some (original sm i)).

End StreamPredicates.

(** * A small concrete world on which the definitions are run *)

Module Example.

Definition half : Float := S754_finite false 8388608 (-24).
Definition quarter : Float := S754_finite false 8388608 (-25).
Definition grey (c : Float) : Spectrum := [c; c; c].

#[local] Instance externals : Externals := {|
  Scene := unit;
  Camera := unit;
  Light := unit;
  FixedLightDistribution := unit;
  Sampler := Z;
  Interaction := Z;
  Vector3f := Z;
  VisibilityTester := Z
|}.

#[local] Instance densities : VertexDensities := {|
  Pdf := fun _ v prev next =>
    match prev with
    | Some _ => Flt.mul half (Flt.add (pdfFwd v) (pdfFwd next))
    | None => Flt.add quarter (pdfFwd next)
    end;
  PdfLight := fun _ v w => Flt.add half (pdfFwd w);
  PdfLightOrigin := fun _ v w _ => Flt.add quarter (pdfFwd v);
  IsDeltaLight := fun v => delta v
|}.

#[local] Instance connect : ConnectOps := {|
  nSpectrumSamples := 3;
  default_vertex := mkVertex _ VSurface (grey Flt.zero) 0 false Flt.zero Flt.zero;
  IsLight := fun v => match type v with VLight => true | _ => false end;
  IsConnectible := fun v => negb (delta v);
  IsOnSurface := fun v => match type v with VSurface => true | _ => false end;
  Le := fun _ v _ => grey Flt.one;
  f := fun v w _ => grey half;
  ns := fun v => 1;
  p := fun v => interaction v;
  vsub := Z.sub;
  vscale := fun d _ => d;
  LengthSquared := fun d => Flt.of_Z (d * d);
  AbsDot := fun _ _ => half;
  Get1D := fun n => (half, n + 1);
  Get2D := fun n => ((half, quarter), n + 2);
  Sample_Wi := fun _ _ u _ => mkSampleWi _ (grey Flt.one) 1 Flt.one u 0;
  Sample_Li := fun _ _ _ => mkSampleLi _ (grey Flt.one) 1 Flt.one 0;
  Sample_light := fun _ _ => (tt, Flt.one);
  P1 := fun vis => vis;
  make_VisibilityTester := fun a b => a;
  Tr := fun _ _ sampler => (grey Flt.one, sampler);
  EndpointInteraction := fun i _ => i;
  CreateCamera := fun _ i b => mkVertex _ VCamera b i false Flt.zero Flt.zero;
  CreateLight := fun i b pdf => mkVertex _ VLight b i false pdf Flt.zero
|}.

Definition scene : Scene := tt.
Definition camera : Camera := tt.
Definition lights : FixedLightDistribution := tt.
Definition sampler0 : Sampler := 0.

Definition vertex (ty : VertexType) (i : Z) (d : bool) (fwd rev : Float) : Vertex :=
  mkVertex _ ty (grey Flt.one) i d fwd rev.

(** A light subpath of two vertices and a camera subpath of three. *)
Definition paths : Subpaths :=
  mkSubpaths _
    [vertex VLight 10 false half quarter; vertex VSurface 11 true quarter half]
    [vertex VCamera 0 false Flt.one half; vertex VSurface 1 false half quarter;
     vertex VSurface 2 true quarter Flt.one].

Definition sampled : Vertex := vertex VLight 12 false Flt.one Flt.one.

Definition no_stats : Stats := mkStats 0 0 [] [].

Definition sample_state : SampleState :=
  mkSampleState _ paths sampler0 (grey Flt.zero) [] [] no_stats [].

(** A generator that cycles through 0, 1/4, 1/2 and 3/4. *)
#[local] Instance random : RandomOps := {|
  RNG := Z;
  seeded := fun n => n;
  UniformFloat := fun r => (Flt.div (Flt.of_Z (r mod 4)) (Flt.of_Z 4), r + 1);
  ErfInv := fun x => x;
  Sqrt2 := S754_finite false 11863283 (-23)
|}.

Definition sampler : MLTSampler := new_MLTSampler 100 7 quarter half 3.

(** The sampler after a first path and one accepted small step. *)
Definition warm_sampler : MLTSampler :=
  Eval vm_compute in
    default sampler
      (snd <$> run [CallStartStream 0; CallGet1D; CallGet2D; CallStartIteration;
                    CallStartStream 1; CallGet1D; CallAccept] sampler).

(** The values handed out on the way to [warm_sampler]. *)
Definition warm_values : list Float :=
  Eval vm_compute in
    default []
      (fst <$> run [CallStartStream 0; CallGet1D; CallGet2D; CallStartIteration;
                    CallStartStream 1; CallGet1D; CallAccept] sampler).

(** A path evaluation that draws one raster position. *)
#[local] Instance evaluation : PathOps := {|
  MLTScene := unit;
  L := fun _ sm depth =>
    match Get2D_MLT sm with
    | Some (pos, sm') => ([pos.1; pos.2; Flt.of_Z (1 + depth)], pos, sm')
    | None => ([], (Flt.zero, Flt.zero), sm)
    end;
  y := fun l => foldr Flt.add Flt.zero l;
  SampleDiscrete := fun _ _ => 0
|}.

Definition mlt_scene : MLTScene := tt.

(** Two bootstrap samples at each of the depths 0 and 1. *)
Definition bootstrapped : Bootstrap :=
  Eval vm_compute in
    default (mkBootstrap [] 0)
      (bootstrap_chunk mlt_scene 1 100 quarter half 0 2
         (mkBootstrap (replicate 4 Flt.zero) 0)).

End Example.

(** * A corridor: a second concrete world, with rays and walks *)

(** The scene is a line of surfaces at the positions 0 to 3; a ray is the
    position it starts from.  The surface at 1 is specular, the position 2
    lies in a medium that scatters, and beyond 3 a ray escapes. *)
Module Corridor.

Import Example.

Section Line.

Variable S : Type.
Variables (get1 : S -> Float * S) (get2 : S -> Point2f * S) (spp : S -> Z).

Definition world : Externals := {|
  Scene := unit;
  Camera := unit;
  Light := unit;
  FixedLightDistribution := unit;
  Sampler := S;
  Interaction := Z;
  Vector3f := Z;
  VisibilityTester := Z
|}.

#[local] Existing Instance world.

Definition geometry : Geometry := {|
  Ray := Z;
  SurfaceInteraction := Z;
  MediumInteraction := Z
|}.

#[local] Existing Instance geometry.

Definition densities : VertexDensities := {|
  Pdf := fun _ v prev next =>
    match prev with
    | Some _ => Flt.mul half (Flt.add (pdfFwd v) (pdfFwd next))
    | None => Flt.add quarter (pdfFwd next)
    end;
  PdfLight := fun _ v w => Flt.add half (pdfFwd w);
  PdfLightOrigin := fun _ v w _ => Flt.add quarter (pdfFwd v);
  IsDeltaLight := fun v => delta v
|}.

(** The connections of the corridor, for a sampler of type [S] with the
    draws [get1] and [get2]. *)
Definition connect : ConnectOps := {|
  nSpectrumSamples := 3;
  default_vertex := mkVertex _ VSurface (grey Flt.zero) 0 false Flt.zero Flt.zero;
  IsLight := fun v => match type v with VLight => true | _ => false end;
  IsConnectible := fun v => negb (delta v);
  IsOnSurface := fun v => match type v with VSurface => true | _ => false end;
  Le := fun _ v _ => grey Flt.one;
  f := fun v w _ => grey half;
  ns := fun v => 1;
  p := fun v => interaction v;
  vsub := Z.sub;
  vscale := fun d _ => d;
  LengthSquared := fun d => Flt.of_Z (d * d);
  AbsDot := fun _ _ => half;
  Get1D := get1;
  Get2D := get2;
  Sample_Wi := fun _ _ u _ => mkSampleWi _ (grey Flt.one) 1 Flt.one u 0;
  Sample_Li := fun _ _ _ => mkSampleLi _ (grey Flt.one) 1 Flt.one 0;
  Sample_light := fun _ _ => (tt, Flt.one);
  P1 := fun vis => vis;
  make_VisibilityTester := fun a b => a;
  Tr := fun _ _ sampler => (grey Flt.one, sampler);
  EndpointInteraction := fun i _ => i;
  CreateCamera := fun _ i b => mkVertex _ VCamera b i false Flt.zero Flt.zero;
  CreateLight := fun i b pdf => mkVertex _ VLight b i false pdf Flt.zero
|}.

#[local] Existing Instance connect.

Definition walk : WalkOps := {|
  ray_d := fun r => 1;
  vneg := Z.opp;
  Intersect := fun _ r => (r <? 4, r, r);
  has_medium := fun r => r =? 2;
  medium_Sample := fun r sampler => (grey Flt.one, r, (get1 sampler).2);
  default_MediumInteraction := 0;
  mi_IsValid := fun mi => mi =? 2;
  phase_Sample_p := fun mi d u => (half, 1);
  mi_SpawnRay := fun mi wi => mi + 1;
  ComputeScatteringFunctions := fun isect _ _ => isect;
  has_bsdf := fun isect => true;
  isect_SpawnRay := fun isect wi => isect + 1;
  isect_wo := fun _ => 1;
  isect_n := fun _ => 1;
  shading_n := fun _ => 1;
  bsdf_Sample_f := fun isect wo u pdf => mkSampleF _ (grey half) 1 half (isect =? 1);
  bsdf_Pdf := fun _ _ _ => quarter;
  CreateMedium := fun mi beta pdf prev => mkVertex _ VMedium beta mi false pdf Flt.zero;
  CreateSurface := fun isect beta pdf prev =>
    mkVertex _ VSurface beta isect false pdf Flt.zero;
  ray_EndpointInteraction := fun r => r;
  ConvertDensity := fun v pdf prev => pdf;
  sampler_samplesPerPixel := spp;
  GenerateRayDifferential := fun _ pFilm time pLens => (grey Flt.one, 0);
  ScaleDifferentials := fun r s => r;
  CreateCamera_ray := fun _ r beta => mkVertex _ VCamera beta r false Flt.zero Flt.zero;
  Pdf_We := fun _ r => (Flt.one, Flt.one);
  Sample_Le := fun _ u1 u2 time => mkSampleLe _ _ (grey Flt.one) 0 1 Flt.one half;
  CreateLight_ray := fun _ r n Le pdf => mkVertex _ VLight Le r false pdf Flt.zero;
  IsInfiniteLight := fun v => match type v with VLight => true | _ => false end;
  ng := fun v => 1;
  InfiniteLightDensity := fun _ _ _ => quarter;
  vertex_time := fun v => Flt.zero;
  StartSequence := fun sampler pPixel sampleIndex => sampler
|}.

End Line.

(** The corridor seen through a counter that hands out 1/2 and (1/2, 1/4). *)
Definition counter1 (n : Z) : Float * Z := (half, n + 1).
Definition counter2 (n : Z) : Point2f * Z := ((half, quarter), n + 2).

#[local] Instance externals : Externals := world Z.
#[local] Instance rays : Geometry := geometry.
#[local] Instance vertex_densities : VertexDensities := densities Z.
#[local] Instance connections : ConnectOps := connect Z counter1 counter2.
#[local] Instance walks : WalkOps := walk Z counter1 counter2 (fun _ => 4).

Definition scene : Scene := tt.
Definition camera : Camera := tt.
Definition lights : FixedLightDistribution := tt.
Definition entrance : Ray := 0.
Definition counter : Sampler := 0.

(** An array of five default-constructed vertices. *)
Definition blank : list Vertex := replicate 5 default_vertex.

(** A camera subpath of up to five vertices. *)
Definition camera_subpath : Z * list Vertex * Z :=
  Eval vm_compute in
    match GenerateCameraSubpath 5 scene counter 5 camera (half, half) blank with
    | Finished r => r
    | _ => (0, [], 0)
    end.

Definition no_stats : Stats := mkStats 0 0 [] [].

(** The state before a pixel sample at depth 1, with the debug films. *)
Definition films : list (option Film) :=
  Eval vm_compute in default [] (allocate_weightFilms 1).

Definition sample_state : SampleState :=
  mkSampleState _ (mkSubpaths _ [] []) counter (grey Flt.zero) [] films no_stats [].

(** The first three vertices of the camera subpath and one light vertex. *)
Definition subpaths : Subpaths :=
  mkSubpaths _ [mkVertex _ VLight (grey Flt.one) 0 false half Flt.zero]
    (take 3 camera_subpath.1.2).

Definition connecting_state : SampleState :=
  mkSampleState _ subpaths counter (grey Flt.zero) [] films no_stats [].


(** The corridor under the Metropolis sampler.  A draw the sampler cannot
    serve counts as zero. *)
#[local] Existing Instance random.

Definition draw1 (sm : MLTSampler) : Float * MLTSampler :=
  default (Flt.zero, sm) (Get1D_MLT sm).
Definition draw2 (sm : MLTSampler) : Point2f * MLTSampler :=
  default ((Flt.zero, Flt.zero), sm) (Get2D_MLT sm).

(** A discrete draw that spends one coordinate and prefers the strategy
    with one light vertex. *)
Definition choose (sm : MLTSampler) (n : Z) : Z * MLTSampler :=
  (Z.min 1 (n - 1), (draw1 sm).2).

Definition metropolis_densities : @VertexDensities (with_MLTSampler externals) :=
  densities MLTSampler.
Definition metropolis_connections : @ConnectOps (with_MLTSampler externals) :=
  connect MLTSampler draw1 draw2.
Definition metropolis_walks
  : @WalkOps (with_MLTSampler externals) metropolis_connections rays :=
  walk MLTSampler draw1 draw2 samplesPerPixel.

(** The whole film, and a raster position in it. *)
Definition whole_film (_ : Camera) : unit := tt.
Definition on_film (_ : unit) (u : Point2f) : Point2f := u.

(** A path evaluation that finds no light on a large step, and a chain on
    a state with light. *)
Definition flicker : PathOps := {|
  MLTScene := unit;
  L := fun _ sm depth =>
    (if largeStep sm then [] else [Flt.one], (Flt.zero, Flt.zero), sm);
  y := fun S => match S with [] => Flt.zero | _ => Flt.one end;
  SampleDiscrete := fun _ _ => 0
|}.

Definition lit_chain : Chain :=
  mkChain _ (new_MLTSampler 100 8 quarter half 3) 5 (Flt.zero, Flt.zero) [Flt.one] [] 0 0 0.

End Corridor.

(** * Proofs *)

Lemma for_each_defined {S} (indices : list Z) (body : Z -> S -> option S) st :
  (forall i st, i ∈ indices -> is_Some (body i st)) ->
  is_Some (for_each indices body st).
Proof.
  revert st. induction indices as [|i rest IH]; intros st Hb; simpl; [eauto|].
  destruct (Hb i st) as [st' ->]; [left|]. simpl.
  apply IH. intros j st1 Hj. apply Hb. by right.
Qed.

Lemma elem_of_upto lo hi i : i ∈ upto lo hi <-> lo <= i < hi.
Proof.
  unfold upto. rewrite list_elem_of_fmap. split.
  - intros (k & -> & Hk). apply elem_of_seq in Hk. lia.
  - intros Hi. exists (Z.to_nat (i - lo)). split; [lia|].
    apply elem_of_seq. lia.
Qed.

Lemma elem_of_downto hi lo i : i ∈ downto hi lo <-> lo <= i <= hi.
Proof. unfold downto. rewrite elem_of_reverse, elem_of_upto. lia. Qed.

(** ** Arrays *)

Lemma at_index_Some {A} (a : list A) i x :
  at_index a i = Some x <-> 0 <= i /\ a !! Z.to_nat i = Some x.
Proof.
  unfold at_index. destruct (Z.ltb_spec i 0); split; try intros [? ?]; try done; try lia.
Qed.

Lemma at_index_in_range {A} (a : list A) i :
  0 <= i < Z.of_nat (length a) -> is_Some (at_index a i).
Proof.
  intros Hi. unfold at_index. destruct (Z.ltb_spec i 0); [lia|].
  apply lookup_lt_is_Some. lia.
Qed.

Lemma at_index_range {A} (a : list A) i x :
  at_index a i = Some x -> 0 <= i < Z.of_nat (length a).
Proof.
  intros [Hi Hx]%at_index_Some. apply lookup_lt_Some in Hx. lia.
Qed.

Lemma set_index_Some {A} (a a' : list A) i x :
  set_index a i x = Some a' <->
  0 <= i < Z.of_nat (length a) /\ a' = <[Z.to_nat i := x]> a.
Proof.
  unfold set_index.
  destruct (Z.leb_spec 0 i), (Z.ltb_spec i (Z.of_nat (length a))); simpl;
    split; try intros [? ?]; try intros [= <-]; subst; try done; try lia.
Qed.

Lemma set_index_in_range {A} (a : list A) i x :
  0 <= i < Z.of_nat (length a) -> set_index a i x = Some (<[Z.to_nat i := x]> a).
Proof. intros Hi. by apply set_index_Some. Qed.

Lemma set_index_length {A} (a a' : list A) i x :
  set_index a i x = Some a' -> length a' = length a.
Proof. intros [_ ->]%set_index_Some. apply length_insert. Qed.

Lemma at_index_set_index {A} (a a' : list A) i x :
  set_index a i x = Some a' -> at_index a' i = Some x.
Proof.
  intros [Hi ->]%set_index_Some. apply at_index_Some. split; [lia|].
  apply list_lookup_insert_eq. lia.
Qed.

(** Writing back the value that was overwritten gives the array back. *)
Lemma set_index_undo {A} (a a' : list A) i old x :
  at_index a i = Some old -> set_index a i x = Some a' -> set_index a' i old = Some a.
Proof.
  intros [_ Hold]%at_index_Some [Hi ->]%set_index_Some.
  apply set_index_Some. rewrite length_insert. split; [done|].
  rewrite list_insert_insert_eq. symmetry. by apply list_insert_id.
Qed.

(** ** Scoped assignments *)

Section Scoped.
Context `{Externals}.

Lemma same_shape_refl m : same_shape m m.
Proof. done. Qed.

Lemma same_shape_trans m1 m2 m3 :
  same_shape m1 m2 -> same_shape m2 m3 -> same_shape m1 m3.
Proof. intros [? ?] [? ?]. split; congruence. Qed.

Lemma in_range_shape m m' q : same_shape m m' -> in_range m q -> in_range m' q.
Proof. intros [Hl Hc]. destruct q; simpl; rewrite ?Hl, ?Hc; done. Qed.

Lemma load_vertex_in_range m q : in_range m q -> is_Some (load_vertex m q).
Proof. destruct q; apply at_index_in_range. Qed.

Lemma load_vertex_range m q v : load_vertex m q = Some v -> in_range m q.
Proof. destruct q; apply at_index_range. Qed.

Lemma store_vertex_in_range m q v : in_range m q -> is_Some (store_vertex m q v).
Proof.
  destruct q; simpl; intros Hi; rewrite (set_index_in_range _ _ _ Hi); simpl; eauto.
Qed.

Lemma store_vertex_shape m m' q v : store_vertex m q v = Some m' -> same_shape m m'.
Proof.
  destruct m as [lv cv], q; simpl; intros Hs;
    destruct (set_index _ _ _) as [a|] eqn:E; simplify_eq/=;
    apply set_index_length in E; by split.
Qed.

Lemma load_store_vertex m m' q v :
  store_vertex m q v = Some m' -> load_vertex m' q = Some v.
Proof.
  destruct m as [lv cv], q; simpl; intros Hs;
    destruct (set_index _ _ _) as [a|] eqn:E; simplify_eq/=;
    by eapply at_index_set_index.
Qed.

Lemma store_vertex_undo m m' q old v :
  load_vertex m q = Some old -> store_vertex m q v = Some m' ->
  store_vertex m' q old = Some m.
Proof.
  destruct m as [lv cv], q; simpl; intros Hl Hs;
    destruct (set_index _ _ _) as [a|] eqn:E; simplify_eq/=;
    by rewrite (set_index_undo _ _ _ _ _ Hl E).
Qed.

Lemma set_delta_undo (v : Vertex) b : set_delta (delta v) (set_delta b v) = v.
Proof. by destruct v. Qed.

Lemma set_pdfRev_undo (v : Vertex) x : set_pdfRev (pdfRev v) (set_pdfRev x v) = v.
Proof. by destruct v. Qed.

Lemma load_in_range {T} m (p : Ptr T) : in_range m (points_into p) -> is_Some (load m p).
Proof.
  intros Hr. destruct (load_vertex_in_range _ _ Hr) as [v Hv].
  destruct p; simpl in *; rewrite Hv; simpl; eauto.
Qed.

Lemma store_in_range {T} m (p : Ptr T) x : in_range m (points_into p) -> is_Some (store m p x).
Proof.
  intros Hr. destruct (load_vertex_in_range _ _ Hr) as [v Hv].
  destruct p; simpl in *; rewrite ?Hv; simpl; by apply store_vertex_in_range.
Qed.

Lemma store_shape {T} m m' (p : Ptr T) x : store m p x = Some m' -> same_shape m m'.
Proof.
  destruct p; simpl; intros Hs; [by eapply store_vertex_shape| |];
    destruct (load_vertex m v) eqn:E; simplify_eq/=; by eapply store_vertex_shape.
Qed.

(** Storing back what was loaded before a store restores the arrays. *)
Lemma store_undo {T} m m' (p : Ptr T) old x :
  load m p = Some old -> store m p x = Some m' -> store m' p old = Some m.
Proof.
  destruct p; simpl; intros Hl Hs.
  - by eapply store_vertex_undo.
  - destruct (load_vertex m v) as [v0|] eqn:E; simplify_eq/=.
    rewrite (load_store_vertex _ _ _ _ Hs). simpl.
    rewrite set_delta_undo. by eapply store_vertex_undo.
  - destruct (load_vertex m v) as [v0|] eqn:E; simplify_eq/=.
    rewrite (load_store_vertex _ _ _ _ Hs). simpl.
    rewrite set_pdfRev_undo. by eapply store_vertex_undo.
Qed.

(** A scoped assignment that goes out of scope while the arrays are as it
    left them puts them back as it found them. *)
Lemma scoped_assign_release {T} m m' (target : option (Ptr T)) x a :
  scoped_assign m target x = Some (a, m') -> scoped_release m' a = Some m.
Proof.
  destruct target as [p|]; simpl; [|by intros [= <- <-]].
  destruct (load m p) as [old|] eqn:El; simpl; [|done].
  destruct (store m p x) as [m1|] eqn:Es; simpl; [|done].
  intros [= <- <-]. simpl. by eapply store_undo.
Qed.

Lemma scoped_assign_shape {T} m m' (target : option (Ptr T)) x a :
  scoped_assign m target x = Some (a, m') -> same_shape m m'.
Proof.
  destruct target as [p|]; simpl; [|by intros [= <- <-]].
  destruct (load m p) as [old|] eqn:El; simpl; [|done].
  destruct (store m p x) as [m1|] eqn:Es; simpl; [|done].
  intros [= <- <-]. by eapply store_shape.
Qed.

Lemma scoped_assign_in_range {T} m (target : option (Ptr T)) x :
  (forall p, target = Some p -> in_range m (points_into p)) ->
  is_Some (scoped_assign m target x).
Proof.
  destruct target as [p|]; simpl; [|eauto]. intros Hr.
  destruct (load_in_range m p (Hr _ eq_refl)) as [old ->].
  destruct (store_in_range m p x (Hr _ eq_refl)) as [m1 ->]. simpl. eauto.
Qed.

End Scoped.

(** ** The MIS weight leaves the subpaths as it found them *)

Section MISWeightProofs.
Context `{VertexDensities}.

(** A guarded group of reads followed by a scoped assignment. *)
Ltac open_binds H :=
  repeat match type of H with
         | (_ ≫= _) = Some _ => apply bind_Some in H as (? & ? & H)
         | (if ?b then _ else _) = Some _ => destruct b
         | match ?o with Some _ => _ | None => _ end = Some _ => destruct o
         end.

Ltac released H :=
  open_binds H;
  first [ by eapply scoped_assign_release
        | by (injection H as <- <-) ].

Lemma MISWeight_restores_paths scene m sampled s t lightDistrib w m' :
  MISWeight scene m sampled s t lightDistrib = Some (w, m') -> m' = m.
Proof.
  unfold MISWeight. destruct (s + t =? 2); [by intros [= _ <-]|].
  cbv zeta. intros Hw.
  apply bind_Some in Hw as ([a1 m1] & H1 & Hw).
  apply bind_Some in Hw as ([a2 m2] & H2 & Hw).
  apply bind_Some in Hw as ([a3 m3] & H3 & Hw).
  apply bind_Some in Hw as ([a4 m4] & H4 & Hw).
  apply bind_Some in Hw as ([a5 m5] & H5 & Hw).
  apply bind_Some in Hw as ([a6 m6] & H6 & Hw).
  apply bind_Some in Hw as ([a7 m7] & H7 & Hw).
  apply bind_Some in Hw as (sumRi & _ & Hw).
  apply bind_Some in Hw as (r7 & R7 & Hw).
  apply bind_Some in Hw as (r6 & R6 & Hw).
  apply bind_Some in Hw as (r5 & R5 & Hw).
  apply bind_Some in Hw as (r4 & R4 & Hw).
  apply bind_Some in Hw as (r3 & R3 & Hw).
  apply bind_Some in Hw as (r2 & R2 & Hw).
  apply bind_Some in Hw as (r1 & R1 & Hw).
  injection Hw as _ <-.
  assert (E7 : scoped_release m7 a7 = Some m6) by released H7.
  assert (E6 : scoped_release m6 a6 = Some m5) by released H6.
  assert (E5 : scoped_release m5 a5 = Some m4) by released H5.
  assert (E4 : scoped_release m4 a4 = Some m3) by released H4.
  assert (E3 : scoped_release m3 a3 = Some m2) by released H3.
  assert (E2 : scoped_release m2 a2 = Some m1) by released H2.
  assert (E1 : scoped_release m1 a1 = Some m) by released H1.
  congruence.
Qed.

Lemma sum_ri_defined m s t :
  0 <= s <= Z.of_nat (length (lightVertices m)) ->
  t <= Z.of_nat (length (cameraVertices m)) ->
  is_Some (sum_ri m s t).
Proof.
  intros Hs Ht. unfold sum_ri.
  destruct (for_each_defined (downto (t - 1) 1) (camera_strategy m) (Flt.one, Flt.zero))
    as [[ri sumRi] ->].
  { intros i [ri sumRi] Hi%elem_of_downto. unfold camera_strategy.
    destruct (at_index_in_range (cameraVertices m) i) as [vi ->]; [lia|].
    destruct (at_index_in_range (cameraVertices m) (i - 1)) as [vp ->]; [lia|].
    simpl. eauto. }
  simpl.
  destruct (for_each_defined (downto (s - 1) 0) (light_strategy m) (Flt.one, sumRi))
    as [[ri' sumRi'] ->].
  { intros i [ri1 sumRi1] Hi%elem_of_downto. unfold light_strategy.
    destruct (at_index_in_range (lightVertices m) i) as [vi ->]; [lia|]. simpl.
    destruct (0 <? i) eqn:E.
    - apply Z.ltb_lt in E.
      destruct (at_index_in_range (lightVertices m) (i - 1)) as [vp ->]; [lia|].
      simpl. eauto.
    - destruct (at_index_in_range (lightVertices m) 0) as [vp ->]; [lia|].
      simpl. eauto. }
  simpl. eauto.
Qed.

#[local] Arguments scoped_assign : simpl never.
#[local] Arguments load_vertex : simpl never.
#[local] Arguments sum_ri : simpl never.

Ltac shape_of Hg :=
  let H' := fresh "H" in
  pose proof Hg as H'; simpl in H';
  repeat match type of H' with
         | scoped_assign _ _ _ = Some _ => fail 1
         | (_ ≫= _) = Some _ => apply bind_Some in H' as (? & ? & H')
         end;
  first [ pose proof (scoped_assign_release _ _ _ _ _ H');
          apply scoped_assign_shape in H' as [? ?]
        | injection H' as <- <- ].

(** Reads of the group at the head of the goal, all inside the arrays. *)
Ltac read_all :=
  repeat first
    [ progress simpl
    | match goal with
      | |- context [load_vertex ?m ?q] =>
          let E := fresh "E" in
          destruct (load_vertex_in_range m q) as [? E];
          [ simpl; lia | rewrite E ]
      | |- is_Some (scoped_assign ?m (Some ?p) ?x) =>
          apply scoped_assign_in_range; intros ? [= <-]; simpl; lia
      | |- is_Some (scoped_assign ?m None ?x) => by eexists
      | |- is_Some (Some _) => by eexists
      end ].

Ltac advance :=
  match goal with
  | |- is_Some (?g ≫= _) =>
      let Hg := fresh "Hg" in
      lazymatch type of g with option (ScopedAssignment _ * _) => idtac end;
      assert (is_Some g) as [[? ?] Hg];
      [ solve [unfold deref, deref_nullable; read_all]
      | rewrite Hg; simpl; shape_of Hg ]
  end.

Lemma MISWeight_defined scene m sampled s t lightDistrib :
  0 <= s <= Z.of_nat (length (lightVertices m)) ->
  1 <= t <= Z.of_nat (length (cameraVertices m)) ->
  2 <= s + t ->
  is_Some (MISWeight scene m sampled s t lightDistrib).
Proof.
  intros Hs Ht Hst. unfold MISWeight.
  destruct (Z.eqb_spec (s + t) 2); [eauto|]. cbv zeta.
  destruct (Z.ltb_spec 0 s), (Z.ltb_spec 0 t), (Z.ltb_spec 1 s), (Z.ltb_spec 1 t),
    (Z.eqb_spec s 1), (Z.eqb_spec t 1); try lia.
  all: repeat advance.
  all: match goal with
       | |- context [sum_ri ?m ?s ?t] =>
           destruct (sum_ri_defined m s t) as [sumRi ->]; [lia|lia|]; simpl
       end.
  all: repeat match goal with
              | R : scoped_release ?m ?a = Some _ |- context [scoped_release ?m ?a] =>
                  rewrite R; simpl
              end.
  all: by eexists.
Qed.

(** Claim C8.  Whenever [s + t = 2], [MISWeight] returns exactly 1 (and
    touches nothing); the direct strategy [s = 0], [t = 2] is one such case. *)
Theorem MISWeight_is_one_when_two_vertices scene m sampled s t lightDistrib :
  s + t = 2 -> MISWeight scene m sampled s t lightDistrib = Some (Flt.one, m).
Proof. intros Hst. unfold MISWeight. by rewrite (proj2 (Z.eqb_eq _ _) Hst). Qed.

(** Claim C1.  Whatever the scene, the subpaths, the sampled vertex and the
    strategy, when [MISWeight] returns, by either exit, both vertex arrays
    are exactly as they were before the call: the inserted sampled vertex,
    the cleared delta flags and the overwritten reverse densities are all
    undone.  And it does return whenever the strategy lies within the
    subpaths. *)
Theorem MISWeight_leaves_subpaths_unchanged scene m sampled s t lightDistrib :
  (forall w m', MISWeight scene m sampled s t lightDistrib = Some (w, m') -> m' = m) /\
  (0 <= s <= Z.of_nat (length (lightVertices m)) ->
   1 <= t <= Z.of_nat (length (cameraVertices m)) ->
   2 <= s + t ->
   exists w, MISWeight scene m sampled s t lightDistrib = Some (w, m)).
Proof.
  split.
  - intros w m'. apply MISWeight_restores_paths.
  - intros Hs Ht Hst.
    destruct (MISWeight_defined scene m sampled s t lightDistrib) as [[w m'] Hw];
      try done.
    exists w. by rewrite (MISWeight_restores_paths _ _ _ _ _ _ _ _ Hw) in Hw.
Qed.

End MISWeightProofs.

(** ** Indexing of the debug films *)

Lemma half_of_product d : 0 <= d -> 2 * Z.quot (d * (5 + d)) 2 = d * (5 + d).
Proof.
  intros Hd.
  rewrite Z.quot_div_nonneg by nia.
  assert (Hmod : (d * (5 + d)) mod 2 = 0).
  {
    destruct (Z.even d) eqn:E.
    - apply Z.even_spec in E. destruct E as [k ->].
      replace (2 * k * (5 + 2 * k)) with ((k * (5 + 2 * k)) * 2) by ring.
      apply Z.mod_mul. lia.
    - assert (O : Z.odd d = true) by (rewrite <- Z.negb_even, E; reflexivity).
      apply Z.odd_spec in O. destruct O as [k ->].
      replace ((2 * k + 1) * (5 + (2 * k + 1))) with (((2 * k + 1) * (3 + k)) * 2) by ring.
      apply Z.mod_mul. lia. }
  pose proof (Z.div_mod (d * (5 + d)) 2 ltac:(lia)). lia.
Qed.

Lemma int_wrap_in_range n : -2147483648 <= n < 2147483648 -> int_wrap n = n.
Proof. intros Hn. unfold int_wrap. rewrite Z.mod_small by lia. lia. Qed.

(** Up to the depth 46338 the arithmetic of [BufferIndex] stays in range. *)
Lemma BufferIndex_depth s t :
  0 <= s <= s + t -> 0 <= s + t - 2 <= 46338 ->
  2 * BufferIndex s t = 2 * s + (s + t - 2) * (5 + (s + t - 2)).
Proof.
  intros Hs Hd. unfold BufferIndex. cbv zeta.
  pose proof (half_of_product (s + t - 2) ltac:(lia)) as Hh.
  assert (Hprod : 0 <= (s + t - 2) * (5 + (s + t - 2)) <= 46338 * 46343) by nia.
  rewrite (int_wrap_in_range (s + t)) by lia.
  rewrite (int_wrap_in_range (s + t - 2)) by lia.
  rewrite (int_wrap_in_range (5 + (s + t - 2))) by lia.
  rewrite (int_wrap_in_range ((s + t - 2) * (5 + (s + t - 2)))) by lia.
  rewrite int_wrap_in_range by lia. lia.
Qed.

(** Up to [maxDepth = 46337] the product of [bufferCount] stays in range. *)
Lemma bufferCount_double m : 0 <= m <= 46337 -> 2 * bufferCount m = (1 + m) * (6 + m).
Proof.
  intros Hm. unfold bufferCount.
  pose proof (half_of_product (1 + m) ltac:(lia)) as Hh.
  replace ((1 + m) * (5 + (1 + m))) with ((1 + m) * (6 + m)) in Hh by ring.
  assert (Hprod : 0 <= (1 + m) * (6 + m) <= 46338 * 46343) by nia.
  rewrite (int_wrap_in_range (1 + m)), (int_wrap_in_range (6 + m)) by lia.
  rewrite int_wrap_in_range by lia. exact Hh.
Qed.

Lemma BufferIndex_in_bounds maxDepth s t :
  0 <= maxDepth <= 46337 -> enumerated maxDepth s t ->
  0 <= BufferIndex s t < bufferCount maxDepth.
Proof.
  intros Hm (d & Hd & Hs & -> & Ht & _).
  pose proof (BufferIndex_depth s (d + 2 - s) ltac:(lia) ltac:(lia)) as E.
  pose proof (bufferCount_double maxDepth Hm) as Ec.
  replace (s + (d + 2 - s) - 2) with d in E by lia.
  nia.
Qed.

Lemma BufferIndex_injective maxDepth s t s' t' :
  maxDepth <= 46338 ->
  enumerated maxDepth s t -> enumerated maxDepth s' t' ->
  BufferIndex s t = BufferIndex s' t' -> (s, t) = (s', t').
Proof.
  intros Hm (d & Hd & Hs & -> & Ht & _) (d' & Hd' & Hs' & -> & Ht' & _) Heq.
  pose proof (BufferIndex_depth s (d + 2 - s) ltac:(lia) ltac:(lia)) as E.
  pose proof (BufferIndex_depth s' (d' + 2 - s') ltac:(lia) ltac:(lia)) as E'.
  replace (s + (d + 2 - s) - 2) with d in E by lia.
  replace (s' + (d' + 2 - s') - 2) with d' in E' by lia.
  rewrite Heq in E.
  assert (d = d') by nia. subst d'.
  assert (s = s') by lia. subst s'. reflexivity.
Qed.

(** Films for every enumerated strategy exist only up to the depth 46338:
    from the depth 46339 on the product in [BufferIndex] overflows, and the
    index of the strategy (0, 46341) is negative. *)
Lemma films_ready_depth maxDepth films : films_ready maxDepth films -> maxDepth <= 46338.
Proof.
  intros Hready. destruct (Z.le_gt_cases maxDepth 46338) as [Hle|Hgt]; [done|].
  destruct (Hready 0 46341) as [film Hfilm].
  { exists 46339. lia. }
  apply at_index_Some in Hfilm as [Hpos _]. vm_compute in Hpos. by destruct Hpos.
Qed.

(** Claim C10, amended.  For [0 <= maxDepth <= 46337], where the product
    [(1 + maxDepth) * (6 + maxDepth)] fits an [int], and every strategy the
    loops enumerate, [BufferIndex s t] lies within [0, bufferCount), and two
    enumerated strategies with the same index are the same strategy. *)
Theorem BufferIndex_in_bounds_and_distinct maxDepth s t s' t' :
  0 <= maxDepth <= 46337 -> enumerated maxDepth s t -> enumerated maxDepth s' t' ->
  0 <= BufferIndex s t < bufferCount maxDepth /\
  (BufferIndex s t = BufferIndex s' t' -> (s, t) = (s', t')).
Proof.
  intros Hm Hst Hst'. split.
  - by apply BufferIndex_in_bounds.
  - apply (BufferIndex_injective maxDepth); [lia|done..].
Qed.

(** At [maxDepth = 46338] the product [46339 * 46344] exceeds [2^31 - 1]:
    [bufferCount] is negative, and the index 0 of the strategy (0, 2) is not
    below it. *)
Lemma BufferIndex_exceeds_bufferCount_at_46338 :
  0 <= 46338 /\ enumerated 46338 0 2 /\
  bufferCount 46338 = -1073716340 /\
  ~ (0 <= BufferIndex 0 2 < bufferCount 46338).
Proof.
  split; [lia|]. split; [exists 0; lia|]. split; [reflexivity|].
  vm_compute. intros [_ Hlt]. discriminate Hlt.
Qed.

(** ** Connections *)

(** ** Zero spectra *)

Lemma mul_zero_of_zero c : Flt.eqb c Flt.zero = true ->
  Flt.eqb (Flt.mul c Flt.zero) Flt.zero = true.
Proof. destruct c as [[]|[]| |[] m e]; simpl; done. Qed.

Lemma scale_black_by_zero L : Sp.IsBlack L = true -> Sp.IsBlack (Sp.scale L Flt.zero) = true.
Proof.
  unfold Sp.IsBlack, Sp.scale. induction L as [|c L IH]; simpl; [done|].
  intros [Hc HL]%andb_true_iff. rewrite mul_zero_of_zero by done. by apply IH.
Qed.

Section ConnectProofs.
Context `{VertexDensities} `{!ConnectOps}.

Lemma black_IsBlack : Sp.IsBlack black = true.
Proof.
  unfold black, Sp.IsBlack. induction nSpectrumSamples as [|n IH]; simpl; done.
Qed.

Lemma invalid_connection_defined m s t :
  t <= Z.of_nat (length (cameraVertices m)) -> is_Some (invalid_connection m s t).
Proof.
  intros Ht. unfold invalid_connection.
  destruct (Z.ltb_spec 1 t); simpl; [|eauto].
  destruct (negb _); [|eauto].
  destruct (at_index_in_range (cameraVertices m) (t - 1)) as [v ->]; [lia|]. simpl. eauto.
Qed.

Lemma connect_contribution_defined scene m s t lightDistr camera sampler pRaster :
  0 <= s <= Z.of_nat (length (lightVertices m)) ->
  1 <= t <= Z.of_nat (length (cameraVertices m)) ->
  2 <= s + t ->
  is_Some (connect_contribution scene m s t lightDistr camera sampler pRaster).
Proof.
  intros Hs Ht Hst. unfold connect_contribution. cbv zeta.
  destruct (Z.eqb_spec s 0) as [->|Hs0].
  { destruct (at_index_in_range (cameraVertices m) (t - 1)) as [pt ->]; [lia|]. simpl.
    destruct (IsLight pt); [|eauto].
    destruct (at_index_in_range (cameraVertices m) (t - 2)) as [pv ->]; [lia|].
    simpl. eauto. }
  destruct (Z.eqb_spec t 1) as [->|Ht1].
  { destruct (at_index_in_range (lightVertices m) (s - 1)) as [qs ->]; [lia|]. simpl.
    destruct (IsConnectible qs); [|eauto].
    destruct (Get2D sampler) as [u sampler1].
    destruct (_ && _); [|eauto].
    destruct (Sp.nonzero _); [|eauto].
    destruct (Tr _ _ _). eauto. }
  destruct (Z.eqb_spec s 1) as [->|Hs1].
  { destruct (at_index_in_range (cameraVertices m) (t - 1)) as [pt ->]; [lia|]. simpl.
    destruct (IsConnectible pt); [|eauto].
    destruct (Get1D sampler) as [u sampler1].
    destruct (Sample_light _ _) as [light lightPdf].
    destruct (Get2D sampler1) as [u2 sampler2].
    destruct (_ && _); [|eauto].
    destruct (Sp.nonzero _); [|eauto].
    destruct (Tr _ _ _). eauto. }
  destruct (at_index_in_range (lightVertices m) (s - 1)) as [qs ->]; [lia|]. simpl.
  destruct (at_index_in_range (cameraVertices m) (t - 1)) as [pt ->]; [lia|]. simpl.
  destruct (_ && _); [|eauto].
  destruct (Sp.nonzero _); [|eauto].
  destruct (G _ _ _ _). eauto.
Qed.

(** [ConnectBDPT] returns, and leaves both vertex arrays as they were. *)
Lemma ConnectBDPT_defined scene m s t lightDistr camera sampler pRaster mw stats :
  0 <= s <= Z.of_nat (length (lightVertices m)) ->
  1 <= t <= Z.of_nat (length (cameraVertices m)) ->
  2 <= s + t ->
  exists r,
    ConnectBDPT scene m s t lightDistr camera sampler pRaster mw stats = Some r /\
    c_paths r = m /\ (is_Some mw -> is_Some (c_misWeight r)).
Proof.
  intros Hs Ht Hst. unfold ConnectBDPT.
  destruct (invalid_connection_defined m s t) as [[] ->]; [lia| |]; simpl.
  { eexists. split; [done|]. simpl. done. }
  destruct (connect_contribution_defined scene m s t lightDistr camera sampler pRaster)
    as [[[[Lc sampled] pR] smp] ->]; try done. simpl.
  destruct (Sp.nonzero Lc).
  - destruct (MISWeight_defined scene m sampled s t lightDistr) as [[w m'] Hw]; try done.
    rewrite Hw. simpl. apply MISWeight_restores_paths in Hw as ->.
    eexists. split; [done|]. simpl. split; [done|]. intros [x ->]. simpl. eauto.
  - simpl. eexists. split; [done|]. simpl. split; [done|]. intros [x ->]. simpl. eauto.
Qed.

(** Claim C3.  When the connection is attempted and its contribution [L] is
    zero, [ConnectBDPT] does not invoke [MISWeight], reports the MIS weight
    0 through [misWeightPtr], returns zero radiance and counts one more
    zero-radiance path. *)
Theorem zero_contribution_skips_MISWeight
    scene m s t lightDistr camera sampler pRaster mw stats Lc sampled pRaster' sampler' :
  invalid_connection m s t = Some false ->
  connect_contribution scene m s t lightDistr camera sampler pRaster
    = Some (Lc, sampled, pRaster', sampler') ->
  Sp.IsBlack Lc = true ->
  exists r,
    ConnectBDPT scene m s t lightDistr camera sampler pRaster mw stats = Some r /\
    misWeightCalls (c_stats r) = misWeightCalls stats /\
    c_misWeight r = (fun _ => Flt.zero) <$> mw /\
    Sp.IsBlack (c_L r) = true /\
    zeroRadiancePaths (c_stats r) = zeroRadiancePaths stats + 1 /\
    c_paths r = m.
Proof.
  intros Hvalid Hc Hblack. unfold ConnectBDPT. rewrite Hvalid. simpl.
  rewrite Hc. simpl. unfold Sp.nonzero. rewrite Hblack. simpl.
  eexists. split; [done|]. simpl.
  repeat apply conj; try done. by apply scale_black_by_zero.
Qed.

(** On the early return for a light-typed camera vertex no connection is
    attempted: zero is returned, [MISWeight] is not invoked, and nothing is
    written through [misWeightPtr] or counted. *)
Lemma invalid_connection_returns_zero
    scene m s t lightDistr camera sampler pRaster mw stats :
  invalid_connection m s t = Some true ->
  ConnectBDPT scene m s t lightDistr camera sampler pRaster mw stats
  = Some (mkConnected black m sampler pRaster mw stats).
Proof. intros Hinvalid. unfold ConnectBDPT. by rewrite Hinvalid. Qed.

(** Whenever [MISWeight] is invoked, the contribution was not zero. *)
Lemma MISWeight_invoked_only_for_nonzero
    scene m s t lightDistr camera sampler pRaster mw stats r :
  ConnectBDPT scene m s t lightDistr camera sampler pRaster mw stats = Some r ->
  misWeightCalls (c_stats r) <> misWeightCalls stats ->
  exists Lc sampled pRaster' sampler',
    connect_contribution scene m s t lightDistr camera sampler pRaster
      = Some (Lc, sampled, pRaster', sampler') /\ Sp.IsBlack Lc = false.
Proof.
  unfold ConnectBDPT. intros Hr Hcalls.
  apply bind_Some in Hr as ([] & Hi & Hr); [injection Hr as <-; done|].
  apply bind_Some in Hr as ([[[Lc sampled] pR] smp] & Hc & Hr).
  exists Lc, sampled, pR, smp. split; [done|].
  unfold Sp.nonzero in Hr. destruct (Sp.IsBlack Lc); [|done].
  simpl in Hr. injection Hr as <-. done.
Qed.

End ConnectProofs.

(** ** The strategies of one pixel sample *)

(** ** Enumerations *)

Lemma NoDup_upto lo hi : NoDup (upto lo hi).
Proof.
  unfold upto. apply NoDup_fmap_2; [|apply NoDup_seq].
  intros a b Hab. lia.
Qed.

Lemma skipped_false maxDepth s t :
  skipped maxDepth s t = false <->
  ~ (s = 1 /\ t = 1) /\ 0 <= t + s - 2 <= maxDepth.
Proof.
  unfold skipped. cbv zeta.
  destruct (Z.eqb_spec s 1), (Z.eqb_spec t 1), (Z.ltb_spec (t + s - 2) 0),
    (Z.ltb_spec maxDepth (t + s - 2)); simpl; split; try done; try lia;
    intros [? ?]; lia.
Qed.

Lemma elem_of_connected_strategies maxDepth nCamera nLight s t :
  (s, t) ∈ connected_strategies maxDepth nCamera nLight <->
  valid_strategy maxDepth nCamera nLight s t.
Proof.
  unfold connected_strategies, valid_strategy.
  rewrite list_elem_of_bind. split.
  - intros (t' & Hin & Ht%elem_of_upto).
    apply list_elem_of_bind in Hin as (s' & Hin & Hs%elem_of_upto).
    destruct (skipped maxDepth s' t') eqn:E; [by apply elem_of_nil in Hin|].
    apply list_elem_of_singleton in Hin as [= -> ->].
    apply skipped_false in E. lia.
  - intros (Ht & Hs & Hd & Hne). exists t. split; [|apply elem_of_upto; lia].
    apply list_elem_of_bind. exists s. split; [|apply elem_of_upto; lia].
    rewrite (proj2 (skipped_false maxDepth s t)) by (split; [done|lia]).
    by apply list_elem_of_singleton.
Qed.

Lemma NoDup_connected_strategies maxDepth nCamera nLight :
  NoDup (connected_strategies maxDepth nCamera nLight).
Proof.
  unfold connected_strategies. apply NoDup_bind; [| |apply NoDup_upto].
  - intros t1 t2 [s t] _ _ H1 H2.
    apply list_elem_of_bind in H1 as (s1 & H1 & _).
    apply list_elem_of_bind in H2 as (s2 & H2 & _).
    destruct (skipped maxDepth s1 t1); [by apply elem_of_nil in H1|].
    destruct (skipped maxDepth s2 t2); [by apply elem_of_nil in H2|].
    apply list_elem_of_singleton in H1, H2. congruence.
  - intros t _. apply NoDup_bind; [| |apply NoDup_upto].
    + intros s1 s2 [s t'] _ _ H1 H2.
      destruct (skipped maxDepth s1 t); [by apply elem_of_nil in H1|].
      destruct (skipped maxDepth s2 t); [by apply elem_of_nil in H2|].
      apply list_elem_of_singleton in H1, H2. congruence.
    + intros s _. destruct (skipped maxDepth s t).
      * apply NoDup_nil_2.
      * apply NoDup_singleton.
Qed.

Lemma valid_strategy_enumerated maxDepth nCamera nLight s t :
  valid_strategy maxDepth nCamera nLight s t -> enumerated maxDepth s t.
Proof.
  intros (Ht & Hs & Hd & Hne). exists (s + t - 2). repeat apply conj; lia.
Qed.

Lemma elem_of_visualized_strategies maxDepth s t :
  (s, t) ∈ visualized_strategies maxDepth <-> enumerated maxDepth s t.
Proof.
  unfold visualized_strategies, enumerated. rewrite list_elem_of_bind. split.
  - intros (d & Hin & Hd%elem_of_upto).
    apply list_elem_of_bind in Hin as (s' & Hin & Hs%elem_of_upto).
    cbv zeta in Hin.
    destruct (Z.eqb_spec (d + 2 - s') 0), (Z.eqb_spec s' 1), (Z.eqb_spec (d + 2 - s') 1);
      simpl in Hin; try (by apply elem_of_nil in Hin);
      apply list_elem_of_singleton in Hin as [= -> ->];
      exists d; repeat apply conj; lia.
  - intros (d & Hd & Hs & -> & Ht & Hne). exists d. split; [|apply elem_of_upto; lia].
    apply list_elem_of_bind. exists s. split; [|apply elem_of_upto; lia].
    cbv zeta.
    destruct (Z.eqb_spec (d + 2 - s) 0), (Z.eqb_spec s 1), (Z.eqb_spec (d + 2 - s) 1);
      simpl; try lia; by apply list_elem_of_singleton.
Qed.

(** ** Loops with a trace *)

Lemma for_each_trace {S B} (R : list B -> S -> Prop) (g : Z -> list B)
    (body : Z -> S -> option S) (indices : list Z) :
  (forall i pairs st, i ∈ indices -> R pairs st ->
     exists st', body i st = Some st' /\ R (pairs ++ g i) st') ->
  forall pre st, R pre st ->
    exists st', for_each indices body st = Some st' /\ R (pre ++ (indices ≫= g)) st'.
Proof.
  induction indices as [|i rest IH]; intros Hbody pre st HR; simpl.
  - exists st. by rewrite app_nil_r.
  - destruct (Hbody i pre st) as (st1 & -> & HR1); [left|done|]. simpl.
    destruct (IH (fun j pairs st Hj => Hbody j pairs st (list_elem_of_further _ _ _ Hj))
                (pre ++ g i) st1 HR1) as (st2 & -> & HR2).
    exists st2. split; [done|]. by rewrite <- app_assoc in HR2.
Qed.

Lemma bind_singleton (l : list Z) : l ≫= (fun i => [i]) = l.
Proof. induction l as [|x l IH]; [done|]. rewrite bind_cons, IH. done. Qed.

(** A loop whose every turn keeps an invariant of the indices done so far. *)
Lemma for_each_invariant {S} (R : list Z -> S -> Prop)
    (body : Z -> S -> option S) (indices : list Z) st :
  R [] st ->
  (forall i done st, i ∈ indices -> R done st ->
     exists st', body i st = Some st' /\ R (done ++ [i]) st') ->
  exists st', for_each indices body st = Some st' /\ R indices st'.
Proof.
  intros Hstart Hbody.
  destruct (for_each_trace R (fun i => [i]) body indices Hbody [] st Hstart)
    as (st' & Hrun & HR).
  exists st'. split; [done|]. by rewrite app_nil_l, bind_singleton in HR.
Qed.

(** ** What one more connection adds *)

Lemma splats_of_snoc cs c :
  splats_of (cs ++ [c]) =
  splats_of cs ++ (if decide (cn_t c = 1) then [(cn_pFilmNew c, cn_Lpath c)] else []).
Proof.
  unfold splats_of. rewrite filter_app, fmap_app. f_equal.
  rewrite filter_cons, filter_nil. by destruct (decide _).
Qed.

Lemma radiance_of_snoc zero cs c :
  radiance_of zero (cs ++ [c]) =
  if decide (cn_t c <> 1) then Sp.add (radiance_of zero cs) (cn_Lpath c)
  else radiance_of zero cs.
Proof.
  unfold radiance_of. rewrite filter_app, fmap_app, foldl_app.
  rewrite filter_cons, filter_nil. by destruct (decide _).
Qed.

Lemma films_ready_splat maxDepth films s t pFilmNew v :
  films_ready maxDepth films -> enumerated maxDepth s t ->
  exists films', splat_weightFilm films s t pFilmNew v = Some films' /\
                 films_ready maxDepth films'.
Proof.
  intros Hready Hst. unfold splat_weightFilm.
  destruct (Hready s t Hst) as [film Hfilm]. rewrite Hfilm. simpl.
  pose proof (at_index_range _ _ _ Hfilm) as Hrange.
  rewrite set_index_in_range by done. eexists. split; [done|].
  intros s' t' Hst'. destruct (Hready s' t' Hst') as [film' Hfilm'].
  apply at_index_Some in Hfilm' as [Hpos Hfilm'].
  destruct (decide (Z.to_nat (BufferIndex s' t') = Z.to_nat (BufferIndex s t))) as [E|E].
  - eexists. apply at_index_Some. split; [done|]. rewrite E.
    apply list_lookup_insert_eq. lia.
  - exists film'. apply at_index_Some. split; [done|].
    by rewrite list_lookup_insert_ne.
Qed.

Section RenderProofs.
Context `{VertexDensities} `{!ConnectOps}.
Variables (scene : Scene) (camera : Camera) (lightDistribution : FixedLightDistribution).
Variables (maxDepth : Z) (visualizeStrategies visualizeWeights : bool).

Lemma strategy_tracking pFilm nCamera nLight st0 t s st pairs :
  nCamera <= Z.of_nat (length (cameraVertices (ss_paths st0))) ->
  nLight <= Z.of_nat (length (lightVertices (ss_paths st0))) ->
  1 <= t <= nCamera -> 0 <= s <= nLight ->
  tracking maxDepth (visualizeStrategies || visualizeWeights) st0 pairs st ->
  exists st',
    strategy scene camera lightDistribution maxDepth visualizeStrategies
      visualizeWeights pFilm t s st = Some st' /\
    tracking maxDepth (visualizeStrategies || visualizeWeights) st0 (pairs ++ (if skipped maxDepth s t then [] else [(s, t)])) st'.
Proof.
  intros HnC HnL Ht Hs (Hpaths & Hfilms & new & Hconn & Hpairs & Hfilm & HL).
  unfold strategy. destruct (skipped maxDepth s t) eqn:Eskip.
  { exists st. split; [done|]. rewrite app_nil_r. split; [done|]. split; [done|].
    by exists new. }
  apply skipped_false in Eskip as [Hne Hd].
  destruct (ConnectBDPT_defined scene (ss_paths st) s t lightDistribution camera
              (ss_sampler st) pFilm (Some Flt.zero) (ss_stats st))
    as (r & -> & Hr & Hmw); try (rewrite Hpaths; lia); [lia|].
  simpl.
  set (pFilmNew := c_pRaster r). set (misWeight := default Flt.zero (c_misWeight r)).
  set (c := mkConnection s t pFilmNew (c_L r) misWeight).
  assert (Hfilms' : exists films',
    (if visualizeStrategies || visualizeWeights
     then splat_weightFilm (ss_weightFilms st) s t pFilmNew
            (if visualizeWeights then c_L r
             else if visualizeStrategies
                  then if Flt.eqb misWeight Flt.zero then black
                       else Sp.divide (c_L r) misWeight
                  else black)
     else Some (ss_weightFilms st)) = Some films' /\
    (visualizeStrategies || visualizeWeights = true -> films_ready maxDepth films')).
  { destruct (visualizeStrategies || visualizeWeights) eqn:Ev; [|by eexists].
    destruct (films_ready_splat maxDepth (ss_weightFilms st) s t pFilmNew
                (if visualizeWeights then c_L r
                 else if visualizeStrategies
                      then if Flt.eqb misWeight Flt.zero then black
                           else Sp.divide (c_L r) misWeight
                      else black))
      as (films' & -> & Hready'); [by apply Hfilms| |by eexists].
    exists (s + t - 2). repeat apply conj; lia. }
  destruct Hfilms' as (films' & Efilms & Hready').
  rewrite Efilms. simpl.
  destruct (Z.eqb_spec t 1) as [->|Ht1]; simpl.
  - eexists. split; [done|]. split; [simpl; congruence|]. split; [done|].
    exists (new ++ [c]). simpl.
    rewrite splats_of_snoc, radiance_of_snoc. simpl.
    repeat apply conj.
    + by rewrite Hconn, app_assoc.
    + by rewrite fmap_app, Hpairs.
    + by rewrite Hfilm, app_assoc.
    + done.
  - eexists. split; [done|]. split; [simpl; congruence|]. split; [done|].
    exists (new ++ [c]). simpl.
    rewrite splats_of_snoc, radiance_of_snoc. simpl.
    rewrite decide_False by done. rewrite decide_True by done.
    repeat apply conj.
    + by rewrite Hconn, app_assoc.
    + by rewrite fmap_app, Hpairs.
    + by rewrite Hfilm, app_nil_r.
    + by rewrite HL.
Qed.

Lemma invocations_NoDup (cs : list Connection) s t :
  NoDup (strategy_of <$> cs) ->
  invocations cs s t = if decide ((s, t) ∈ strategy_of <$> cs) then 1%nat else 0%nat.
Proof.
  unfold invocations. induction cs as [|c cs IH]; intros Hnd.
  - rewrite decide_False; [done|]. simpl. apply not_elem_of_nil.
  - rewrite fmap_cons in Hnd. apply NoDup_cons in Hnd as [Hnotin Hnd].
    rewrite filter_cons, fmap_cons. destruct (decide (strategy_of c = (s, t))) as [E|E].
    + simpl. rewrite IH by done. rewrite E in *.
      rewrite decide_False by done.
      rewrite decide_True by (apply elem_of_cons; by left). done.
    + rewrite IH by done. destruct (decide ((s, t) ∈ strategy_of <$> cs)) as [Hin|Hin].
      * rewrite decide_True by (by right). done.
      * rewrite decide_False; [done|]. intros [?|?]%elem_of_cons; congruence.
Qed.

(** Claim C5, amended.  For one pixel sample whose subpaths hold [nCamera]
    and [nLight] vertices, [ConnectBDPT] is invoked exactly once for every
    pair [(s, t)] with [1 <= t <= nCamera], [0 <= s <= nLight] and
    [0 <= s + t - 2 <= maxDepth] other than [(1, 1)], and for no other pair;
    the results of the [t = 1] strategies are splatted at their new raster
    position, and all the others are summed into the radiance [L] handed on
    with the sample's own position [pFilm]. *)
Theorem connect_all_connects_each_strategy_once pFilm nCamera nLight st :
  nCamera <= Z.of_nat (length (cameraVertices (ss_paths st))) ->
  nLight <= Z.of_nat (length (lightVertices (ss_paths st))) ->
  (visualizeStrategies || visualizeWeights = true ->
   films_ready maxDepth (ss_weightFilms st)) ->
  exists st' new,
    connect_all scene camera lightDistribution maxDepth visualizeStrategies
      visualizeWeights pFilm nCamera nLight st = Some (st', (pFilm, ss_L st')) /\
    ss_connections st' = ss_connections st ++ new /\
    (forall s t, valid_strategy maxDepth nCamera nLight s t ->
                 invocations new s t = 1%nat) /\
    (forall s t, ~ valid_strategy maxDepth nCamera nLight s t ->
                 invocations new s t = 0%nat) /\
    ss_film st' = ss_film st ++ splats_of new /\
    ss_L st' = radiance_of black new /\
    ss_paths st' = ss_paths st.
Proof.
  intros HnC HnL Hready. unfold connect_all.
  set (st0 := mkSampleState _ (ss_paths st) (ss_sampler st) black (ss_film st)
                (ss_weightFilms st) (ss_stats st) (ss_connections st)).
  destruct (for_each_trace (tracking maxDepth (visualizeStrategies || visualizeWeights) st0)
              (fun t => s ← upto 0 (nLight + 1);
                        if skipped maxDepth s t then [] else [(s, t)])
              (fun t st =>
                 for_each (upto 0 (nLight + 1))
                   (strategy scene camera lightDistribution maxDepth
                      visualizeStrategies visualizeWeights pFilm t) st)
              (upto 1 (nCamera + 1))) with (pre := @nil (Z * Z)) (st := st0)
    as (st' & Hrun & Htrack).
  - intros t pairs st1 Ht%elem_of_upto Htr.
    apply (for_each_trace (tracking maxDepth (visualizeStrategies || visualizeWeights) st0)
             (fun s => if skipped maxDepth s t then [] else [(s, t)])); [|done].
    intros s pairs' st2 Hs%elem_of_upto Htr2.
    apply (strategy_tracking pFilm nCamera nLight); try done; lia.
  - split; [done|]. split; [done|]. exists []. simpl.
    by rewrite !app_nil_r.
  - rewrite Hrun. simpl.
    destruct Htrack as (Hpaths & _ & new & Hconn & Hpairs & Hfilm & HL).
    exists st', new. simpl in *.
    fold (connected_strategies maxDepth nCamera nLight) in Hpairs.
    assert (Hnd : NoDup (strategy_of <$> new))
      by (rewrite Hpairs; apply NoDup_connected_strategies).
    repeat apply conj; try done.
    + intros s t Hv. rewrite invocations_NoDup by done.
      rewrite decide_True; [done|]. rewrite Hpairs.
      by apply elem_of_connected_strategies.
    + intros s t Hv. rewrite invocations_NoDup by done.
      rewrite decide_False; [done|]. rewrite Hpairs.
      by rewrite elem_of_connected_strategies.
Qed.

End RenderProofs.

(** ** The debug films are all allocated *)

Lemma allocate_fold pairs : forall films : list (option Film),
  (forall s t, (s, t) ∈ pairs -> 0 <= BufferIndex s t < Z.of_nat (length films)) ->
  exists films',
    foldl (fun films '(s, t) =>
             films ≫= fun fl => set_index fl (BufferIndex s t) (Some []))
      (Some films) pairs = Some films' /\
    length films' = length films /\
    (forall i film, at_index films i = Some (Some film) ->
       exists film', at_index films' i = Some (Some film')) /\
    (forall s t, (s, t) ∈ pairs ->
       exists film, at_index films' (BufferIndex s t) = Some (Some film)).
Proof.
  induction pairs as [|[s t] rest IH]; intros films Hin.
  - exists films. simpl. repeat apply conj; try done; [by eauto|].
    intros s t Hst. by apply elem_of_nil in Hst.
  - cbn [foldl mbind option_bind].
    assert (Hrange : 0 <= BufferIndex s t < Z.of_nat (length films)) by (apply Hin; left).
    rewrite set_index_in_range by done.
    destruct (IH (<[Z.to_nat (BufferIndex s t) := Some []]> films))
      as (films' & Hrun & Hlen & Hkeep & Hset).
    { intros s' t' Hst'. rewrite length_insert. apply Hin. by right. }
    exists films'. split; [done|]. split; [by rewrite Hlen, length_insert|]. split.
    + intros i film [Hi Hlook]%at_index_Some.
      destruct (decide (Z.to_nat i = Z.to_nat (BufferIndex s t))) as [E|E].
      * apply (Hkeep i []). apply at_index_Some. split; [done|]. rewrite E.
        apply list_lookup_insert_eq. lia.
      * apply (Hkeep i film). apply at_index_Some. split; [done|].
        by rewrite list_lookup_insert_ne.
    + intros s' t' [[= -> ->]|Hst']%elem_of_cons; [|by apply Hset].
      apply (Hkeep _ []). apply at_index_Some. split; [lia|].
      apply list_lookup_insert_eq. lia.
Qed.

(** For [0 <= maxDepth <= 46337], where [bufferCount] does not overflow, the
    set-up loop of the debug films writes only inside the vector of
    [bufferCount maxDepth] films, and leaves a film for every enumerated
    strategy. *)
Lemma allocate_weightFilms_ready maxDepth :
  0 <= maxDepth <= 46337 ->
  exists films, allocate_weightFilms maxDepth = Some films /\
                films_ready maxDepth films /\
                Z.of_nat (length films) = bufferCount maxDepth.
Proof.
  intros Hm. unfold allocate_weightFilms.
  pose proof (bufferCount_double maxDepth Hm) as Hcount.
  destruct (Z.ltb_spec (bufferCount maxDepth) 0) as [Hneg|_]; [nia|].
  destruct (allocate_fold (visualized_strategies maxDepth)
              (replicate (Z.to_nat (bufferCount maxDepth)) None))
    as (films & Hrun & Hlen & _ & Hset).
  { intros s t Hst%elem_of_visualized_strategies. rewrite length_replicate.
    pose proof (BufferIndex_in_bounds maxDepth s t Hm Hst). lia. }
  exists films. split; [done|]. split.
  - intros s t Hst. apply Hset. by apply elem_of_visualized_strategies.
  - rewrite length_replicate in Hlen. unfold Film in *. rewrite Hlen. nia.
Qed.

(** At [maxDepth = 46338] the count is negative, and the vector of films
    cannot be constructed. *)
Lemma allocate_weightFilms_fails_at_46338 : allocate_weightFilms 46338 = None.
Proof. reflexivity. Qed.

(** ** The primary-sample-space sampler *)

Section SamplerProofs.
Context `{RandomOps}.


Lemma mutate_spec sm Xi Xi' r :
  mutate sm Xi = (Xi', r) ->
  lastModificationIteration Xi' = currentIteration sm /\
  (lastLargeStepIteration sm <= lastModificationIteration Xi ->
   valueBackup Xi' = value Xi /\ modifyBackup Xi' = lastModificationIteration Xi).
Proof.
  unfold mutate.
  destruct (Z.ltb_spec (lastModificationIteration Xi) (lastLargeStepIteration sm)).
  - destruct (UniformFloat (rng sm)) as [u r1].
    destruct (largeStep sm).
    + destruct (UniformFloat r1) as [u2 r2]. intros [= <- <-]. simpl. split; [done|lia].
    + destruct (UniformFloat r1) as [u2 r2]. intros [= <- <-]. simpl. split; [done|lia].
  - destruct (largeStep sm).
    + destruct (UniformFloat (rng sm)) as [u2 r2]. intros [= <- <-]. simpl. done.
    + destruct (UniformFloat (rng sm)) as [u2 r2]. intros [= <- <-]. simpl. done.
Qed.

(** In a small step on a coordinate with no large step pending, the new
    value is [small_step] of the old one. *)
Lemma mutate_small_step sm Xi :
  largeStep sm = false ->
  lastLargeStepIteration sm <= lastModificationIteration Xi ->
  let u := (UniformFloat (rng sm)).1 in
  let normalSample := Flt.mul Sqrt2 (ErfInv (Flt.sub (Flt.mul Flt.two u) Flt.one)) in
  let nSmall := currentIteration sm - lastModificationIteration Xi in
  let effSigma := Flt.mul (sigma sm) (Flt.sqrt (Flt.of_Z nSmall)) in
  value (mutate sm Xi).1 = small_step (value Xi) normalSample effSigma.
Proof.
  intros Hsmall Hle. unfold mutate. rewrite Hsmall.
  destruct (Z.ltb_spec (lastModificationIteration Xi) (lastLargeStepIteration sm));
    [lia|].
  destruct (UniformFloat (rng sm)) as [u r]. reflexivity.
Qed.



Lemma draws_nonneg calls : 0 <= draws calls.
Proof. induction calls as [|[] rest IH]; simpl; lia. Qed.



(** ** The sampler stays well formed *)

Lemma Restore_Restore Xi : Restore (Restore Xi) = Restore Xi.
Proof. done. Qed.

Lemma well_formed_new mpp seed sg lsp n : 1 <= n -> well_formed (new_MLTSampler mpp seed sg lsp n).
Proof. intros Hn. unfold well_formed, new_MLTSampler. simpl. repeat apply conj; try lia. done. Qed.

Lemma well_formed_StartIteration sm : well_formed sm -> well_formed (StartIteration sm).
Proof.
  intros (Hc & Hi & Hs & Hwf). unfold well_formed, StartIteration.
  destruct (UniformFloat (rng sm)) as [u r]. simpl. repeat apply conj; try lia.
  eapply Forall_impl; [exact Hwf|]. simpl. intros Xi [?|?]; [left; lia|by right].
Qed.

Lemma well_formed_Accept sm : well_formed sm -> well_formed (Accept sm).
Proof. intros Hwf. unfold Accept. by destruct (largeStep sm). Qed.

Lemma well_formed_Reject sm : well_formed sm -> well_formed (Reject sm).
Proof.
  intros (Hc & Hi & Hs & Hwf). unfold well_formed, Reject. simpl.
  repeat apply conj; try lia.
  apply Forall_fmap. eapply Forall_impl; [exact Hwf|]. simpl. intros Xi Hx.
  destruct (Z.eqb_spec (lastModificationIteration Xi) (currentIteration sm)).
  - by right.
  - destruct Hx; [left; lia|by right].
Qed.

Lemma well_formed_StartStream index sm sm' :
  0 <= index -> well_formed sm -> StartStream index sm = Some sm' -> well_formed sm'.
Proof.
  intros Hindex (Hc & Hi & Hs & Hwf). unfold StartStream.
  destruct (index <? streamCount sm); [|done]. intros [= <-].
  unfold well_formed. simpl. repeat apply conj; try lia. done.
Qed.

Lemma mutate_well_formed sm Xi Xi' r :
  mutate sm Xi = (Xi', r) -> lastModificationIteration Xi' = currentIteration sm.
Proof. by intros [? _]%mutate_spec. Qed.

Lemma well_formed_Get1D sm v sm' :
  well_formed sm -> Get1D_MLT sm = Some (v, sm') -> well_formed sm'.
Proof.
  intros (Hc & Hi & Hs & Hwf). unfold Get1D_MLT, GetNextIndex, EnsureReady.
  cbn [X]. set (index := streamIndex sm + streamCount sm * sampleIndex sm).
  destruct (index <? 0); [done|].
  set (x := if Z.of_nat (length (X sm)) <=? index then _ else _).
  destruct (x !! Z.to_nat index) as [Xi|] eqn:Ex; [|done]. simpl.
  destruct (mutate _ Xi) as [Xi' r] eqn:Em. simpl.
  destruct (at_index _ index); [|done]. simpl. intros [= _ <-].
  unfold well_formed. simpl. repeat apply conj; try lia.
  apply mutate_well_formed in Em. simpl in Em.
  apply Forall_insert; [|left; lia].
  unfold x. destruct (_ <=? _); [|done].
  apply Forall_resize; [by right|done].
Qed.

Lemma well_formed_call c sm vs sm' :
  (forall index, c = CallStartStream index -> 0 <= index) ->
  well_formed sm -> call c sm = Some (vs, sm') -> well_formed sm'.
Proof.
  intros Hc Hwf. destruct c; simpl.
  - intros [= _ <-]. by apply well_formed_StartIteration.
  - destruct (Get1D_MLT sm) as [[v sm1]|] eqn:E; [|done]. simpl. intros [= _ <-].
    by eapply well_formed_Get1D.
  - unfold Get2D_MLT.
    destruct (Get1D_MLT sm) as [[v sm1]|] eqn:E1; [|done]. simpl.
    destruct (Get1D_MLT sm1) as [[v2 sm2]|] eqn:E2; [|done]. simpl. intros [= _ <-].
    eapply well_formed_Get1D; [|done]. by eapply well_formed_Get1D.
  - intros [= _ <-]. by apply well_formed_Accept.
  - intros [= _ <-]. by apply well_formed_Reject.
  - destruct (StartStream index sm) as [sm1|] eqn:E; [|done]. simpl. intros [= _ <-].
    eapply well_formed_StartStream; [|done..]. by apply Hc.
Qed.

(** Every sampler reached from a new one by proper calls is well formed. *)
Lemma well_formed_run calls : forall sm vs sm',
  proper_calls calls -> well_formed sm -> run calls sm = Some (vs, sm') ->
  well_formed sm'.
Proof.
  induction calls as [|c rest IH]; intros sm vs sm' Hp Hwf; simpl.
  - by intros [= _ <-].
  - apply Forall_cons in Hp as [Hc Hrest].
    destruct (call c sm) as [[v1 sm1]|] eqn:E1; [|done]. simpl.
    destruct (run rest sm1) as [[v2 sm2]|] eqn:E2; [|done]. simpl. intros [= _ <-].
    eapply IH; [done| |done]. by eapply well_formed_call.
Qed.

End SamplerProofs.

(** Claim C6 fails in binary32, in two ways.  Rounding: from the coordinate
    1/4, with [sigma] = 1/16, four iterations since the last touch and the
    normal variate -(2 + 2^-22), the sum is -2^-25; its floor is -1, and
    -2^-25 + 1 rounds to 1, outside [0, 1).  Overflow: with [sigma] = 2^127,
    four iterations and the normal variate 1, the perturbation is infinite
    and the wrapped value is not a number. *)
Theorem small_step_can_leave_unit_interval :
  let value := S754_finite false 8388608 (-25) in
  let sigma := S754_finite false 8388608 (-27) in
  let normalSample := S754_finite true 8388609 (-22) in
  let effSigma := Flt.mul sigma (Flt.sqrt (Flt.of_Z 4)) in
  let hugeSigma := S754_finite false 8388608 104 in
  let hugeEffSigma := Flt.mul hugeSigma (Flt.sqrt (Flt.of_Z 4)) in
  Flt.in_unit_interval value = true /\
  (small_step value normalSample effSigma = Flt.one /\
   Flt.in_unit_interval (small_step value normalSample effSigma) = false) /\
  (small_step value Flt.one hugeEffSigma = S754_nan /\
   Flt.in_unit_interval (small_step value Flt.one hugeEffSigma) = false).
Proof. vm_compute. auto. Qed.

(** The same wrap in binary64, the other format [Float] can be built as:
    from 1/4 and the perturbation -(1/4 + 2^-54) the result is again 1. *)
Lemma wrap_reaches_one_in_binary64 :
  let value := S754_finite false 4503599627370496 (-54) in
  let perturbation := S754_finite true 4503599627370497 (-54) in
  let v := SFadd 53 1024 value perturbation in
  SFsub 53 1024 v (Flt.floor_at 53 1024 v) = S754_finite false 4503599627370496 (-52).
Proof. vm_compute. reflexivity. Qed.

(** ** Bootstrap and Markov chains *)

Section MLTRenderTheorems.
Context `{PathOps}.
Variables (scene : MLTScene).
Variables (maxDepth nBootstrap nChains mutationsPerPixel : Z).
Variables (sigma_ largeStepProbability_ : Float).


Lemma progress_due_false i : 0 <= i -> progress_due i = false.
Proof. intros Hi. unfold progress_due. change (Z.rem 1 256) with 1. lia. Qed.

Lemma bootstrap_sample_defined i d weights :
  0 <= i < nBootstrap -> 0 <= d <= maxDepth ->
  length weights = Z.to_nat (nBootstrap * (maxDepth + 1)) ->
  exists weights',
    bootstrap_sample scene maxDepth mutationsPerPixel sigma_ largeStepProbability_
      i d weights = Some weights' /\
    length weights' = length weights.
Proof.
  intros Hi Hd Hlen. unfold bootstrap_sample. cbv zeta.
  match goal with
  | |- context [L scene ?sm d] => destruct (L scene sm d) as [[Ls ps] sm']
  end.
  rewrite set_index_in_range by (rewrite Hlen; nia).
  eexists. split; [done|]. by rewrite length_insert.
Qed.

Lemma bootstrap_samples_defined i weights ds :
  0 <= i < nBootstrap -> 0 <= maxDepth ->
  length weights = Z.to_nat (nBootstrap * (maxDepth + 1)) ->
  (forall d, d ∈ ds -> 0 <= d <= maxDepth) ->
  exists weights',
    for_each ds (bootstrap_sample scene maxDepth mutationsPerPixel sigma_
                   largeStepProbability_ i) weights = Some weights' /\
    length weights' = length weights.
Proof.
  intros Hi Hm. revert weights.
  induction ds as [|d ds IH]; intros weights Hlen Hds; [by eexists|].
  cbn [for_each].
  destruct (bootstrap_sample_defined i d weights) as (w1 & -> & Hlen1); try done.
  { apply Hds. left. }
  cbn [mbind option_bind].
  destruct (IH w1) as (w' & Hw' & Hlen'); [congruence| |].
  - intros d' Hd'. apply Hds. by right.
  - exists w'. split; [done|]. congruence.
Qed.

Lemma bootstrap_turn_unfold report i b :
  bootstrap_turn scene maxDepth mutationsPerPixel sigma_ largeStepProbability_ report i b
  = (weights ← for_each (upto 0 (maxDepth + 1))
                 (bootstrap_sample scene maxDepth mutationsPerPixel sigma_
                    largeStepProbability_ i) (bootstrapWeights b);
     Some (mkBootstrap weights
             (if report i then bootstrapProgress b + 1 else bootstrapProgress b))).
Proof. reflexivity. Qed.

Lemma bootstrap_loop_weights indices : forall b,
  (forall i, i ∈ indices -> 0 <= i < nBootstrap) -> 0 <= maxDepth ->
  length (bootstrapWeights b) = Z.to_nat (nBootstrap * (maxDepth + 1)) ->
  exists weights,
    forall report, exists progress,
      for_each indices
        (bootstrap_turn scene maxDepth mutationsPerPixel sigma_ largeStepProbability_
           report) b = Some (mkBootstrap weights progress) /\
      ((forall i, i ∈ indices -> report i = false) -> progress = bootstrapProgress b).
Proof.
  induction indices as [|i rest IH]; intros b Hin Hm Hlen.
  - exists (bootstrapWeights b). intros report. exists (bootstrapProgress b).
    by destruct b.
  - cbn [for_each]. destruct (bootstrap_samples_defined i (bootstrapWeights b) (upto 0 (maxDepth + 1)))
      as (w1 & Hw1 & Hlen1); try done.
    { apply Hin. left. }
    { intros d Hd%elem_of_upto. lia. }
    destruct (IH (mkBootstrap w1 0)) as (weights & Hrest); try done.
    { intros k Hk. apply Hin. by right. }
    { simpl. congruence. }
    exists weights. intros report.
    rewrite bootstrap_turn_unfold, Hw1. cbn [mbind option_bind].
    set (p1 := if report i then _ else _).
    destruct (IH (mkBootstrap w1 p1)) as (weights' & Hrest'); try done.
    { intros k Hk. apply Hin. by right. }
    { simpl. congruence. }
    destruct (Hrest' report) as (progress & Hrun & Hprog).
    destruct (Hrest report) as (progress0 & Hrun0 & _).
    assert (weights' = weights) as ->.
    { clear -Hrun Hrun0 Hw1. revert Hrun Hrun0. generalize p1.
      generalize 0. generalize w1. clear.
      induction rest as [|k rest IHr]; intros w p q.
      - simpl. by intros [= <- _] [= <- _].
      - cbn [for_each]. rewrite !bootstrap_turn_unfold. cbn [bootstrapWeights].
        destruct (for_each _ _ w) as [wk|]; [|done]. cbn [mbind option_bind].
        apply IHr. }
    exists progress. split; [done|]. intros Hfalse.
    rewrite Hprog by (intros k Hk; apply Hfalse; by right). simpl.
    unfold p1. rewrite Hfalse by left. done.
Qed.

(** Claim C9.  The condition [(i + 1 % 256) == 0] is false for every
    [i >= 0], so a chunk of the bootstrap loop never updates the progress;
    the bootstrap weights are the same whatever the progress condition. *)
Theorem bootstrap_progress_is_never_updated start end_ b :
  0 <= start -> end_ <= nBootstrap -> 0 <= maxDepth ->
  length (bootstrapWeights b) = Z.to_nat (nBootstrap * (maxDepth + 1)) ->
  (forall i, 0 <= i -> progress_due i = false) /\
  exists b',
    bootstrap_chunk scene maxDepth mutationsPerPixel sigma_ largeStepProbability_
      start end_ b = Some b' /\
    bootstrapProgress b' = bootstrapProgress b /\
    forall report,
      bootstrapWeights <$>
        bootstrap_loop scene maxDepth mutationsPerPixel sigma_ largeStepProbability_
          report start end_ b
      = Some (bootstrapWeights b').
Proof.
  intros Hstart Hend Hm Hlen. split; [apply progress_due_false|].
  destruct (bootstrap_loop_weights (upto start end_) b) as (weights & Hw); try done.
  { intros i Hi%elem_of_upto. lia. }
  destruct (Hw progress_due) as (progress & Hrun & Hprog).
  exists (mkBootstrap weights progress). split; [done|]. split.
  - simpl. apply Hprog. intros i Hi%elem_of_upto. apply progress_due_false. lia.
  - intros report. destruct (Hw report) as (progress' & Hrun' & _).
    unfold bootstrap_loop. by rewrite Hrun'.
Qed.

Lemma bootstrap_sample_writes i d weights weights' :
  0 <= i -> 0 <= d <= maxDepth ->
  bootstrap_sample scene maxDepth mutationsPerPixel sigma_ largeStepProbability_
    i d weights = Some weights' ->
  length weights' = length weights /\
  forall k, 0 <= k ->
    at_index weights' k =
    if decide (k = i * (maxDepth + 1) + d) then Some (bootstrap_weight scene maxDepth mutationsPerPixel sigma_ largeStepProbability_ k)
    else at_index weights k.
Proof.
  intros Hi Hd. unfold bootstrap_sample. cbv zeta.
  destruct (L scene _ d) as [[Ls ps] sm'] eqn:EL.
  intros Hset. pose proof Hset as [Hrange ->]%set_index_Some.
  split; [by rewrite length_insert|].
  intros k Hk. destruct (decide (k = i * (maxDepth + 1) + d)) as [->|Hne].
  - rewrite (at_index_set_index _ _ _ _ Hset). f_equal.
    unfold bootstrap_weight.
    replace (Z.rem (i * (maxDepth + 1) + d) (maxDepth + 1)) with d.
    + by rewrite EL.
    + rewrite Z.rem_mod_nonneg by nia.
      rewrite Z.add_comm, Z.mod_add by lia. symmetry. apply Z.mod_small. lia.
  - unfold at_index. destruct (k <? 0); [done|].
    rewrite list_lookup_insert_ne by lia. done.
Qed.

Lemma bootstrap_turn_writes report i b :
  0 <= i < nBootstrap -> 0 <= maxDepth ->
  length (bootstrapWeights b) = Z.to_nat (nBootstrap * (maxDepth + 1)) ->
  exists b',
    bootstrap_turn scene maxDepth mutationsPerPixel sigma_ largeStepProbability_
      report i b = Some b' /\
    length (bootstrapWeights b') = length (bootstrapWeights b) /\
    forall k, 0 <= k ->
      at_index (bootstrapWeights b') k =
      if decide (k / (maxDepth + 1) = i) then Some (bootstrap_weight scene maxDepth mutationsPerPixel sigma_ largeStepProbability_ k)
      else at_index (bootstrapWeights b) k.
Proof.
  intros Hi Hm Hlen. rewrite bootstrap_turn_unfold.
  destruct (for_each_invariant
              (fun done w =>
                 length w = length (bootstrapWeights b) /\
                 forall k, 0 <= k ->
                   at_index w k =
                   if decide (k / (maxDepth + 1) = i /\ k mod (maxDepth + 1) ∈ done)
                   then Some (bootstrap_weight scene maxDepth mutationsPerPixel sigma_ largeStepProbability_ k)
                   else at_index (bootstrapWeights b) k)
              (bootstrap_sample scene maxDepth mutationsPerPixel sigma_
                 largeStepProbability_ i)
              (upto 0 (maxDepth + 1)) (bootstrapWeights b))
    as (w' & Hrun & Hlen' & Hw').
  - split; [done|]. intros k Hk. rewrite decide_False; [done|].
    intros [_ Hin]. by apply elem_of_nil in Hin.
  - intros d done w Hd%elem_of_upto [Hlenw Hw].
    destruct (bootstrap_sample_defined i d w)
      as (w1 & Hw1 & Hlen1); [done|lia|congruence|].
    exists w1. split; [done|].
    apply bootstrap_sample_writes in Hw1 as [_ Hwrite]; [|lia|lia].
    split; [congruence|]. intros k Hk. rewrite (Hwrite k Hk), (Hw k Hk).
    pose proof (Z.div_mod k (maxDepth + 1) ltac:(lia)) as Hdm.
    pose proof (Z.mod_pos_bound k (maxDepth + 1) ltac:(lia)) as Hmod.
    destruct (decide (k = i * (maxDepth + 1) + d)) as [->|Hne].
    + rewrite decide_True; [done|]. split.
      * rewrite Z.add_comm, Z.div_add by lia. rewrite Z.div_small by lia. lia.
      * rewrite Z.add_comm, Z.mod_add by lia. rewrite Z.mod_small by lia.
        apply elem_of_app. right. by apply list_elem_of_singleton.
    + destruct (decide (k / (maxDepth + 1) = i /\ k mod (maxDepth + 1) ∈ done))
        as [[Hq Hin]|Hnot].
      * rewrite decide_True; [done|]. split; [done|]. apply elem_of_app. by left.
      * rewrite decide_False; [done|]. intros [Hq [Hin|Hin]%elem_of_app].
        -- by apply Hnot.
        -- apply list_elem_of_singleton in Hin. apply Hne. nia.
  - rewrite Hrun. cbn [mbind option_bind]. eexists. split; [done|].
    cbn [bootstrapWeights]. split; [done|]. intros k Hk. rewrite (Hw' k Hk).
    pose proof (Z.mod_pos_bound k (maxDepth + 1) ltac:(lia)) as Hmod.
    destruct (decide (k / (maxDepth + 1) = i)) as [Hq|Hq].
    + rewrite decide_True; [done|]. split; [done|]. apply elem_of_upto. lia.
    + rewrite decide_False; [done|]. by intros [? _].
Qed.

(** What the bootstrap loop leaves in the weights. *)
Lemma bootstrap_loop_writes report start end_ b :
  0 <= start -> end_ <= nBootstrap -> 0 <= maxDepth ->
  length (bootstrapWeights b) = Z.to_nat (nBootstrap * (maxDepth + 1)) ->
  exists b',
    bootstrap_loop scene maxDepth mutationsPerPixel sigma_ largeStepProbability_
      report start end_ b = Some b' /\
    forall k, 0 <= k ->
      at_index (bootstrapWeights b') k =
      if decide (start <= k / (maxDepth + 1) < end_) then Some (bootstrap_weight scene maxDepth mutationsPerPixel sigma_ largeStepProbability_ k)
      else at_index (bootstrapWeights b) k.
Proof.
  intros Hstart Hend Hm Hlen. unfold bootstrap_loop.
  destruct (for_each_invariant
              (fun done b' =>
                 length (bootstrapWeights b') = length (bootstrapWeights b) /\
                 forall k, 0 <= k ->
                   at_index (bootstrapWeights b') k =
                   if decide (k / (maxDepth + 1) ∈ done)
                   then Some (bootstrap_weight scene maxDepth mutationsPerPixel sigma_ largeStepProbability_ k)
                   else at_index (bootstrapWeights b) k)
              (bootstrap_turn scene maxDepth mutationsPerPixel sigma_
                 largeStepProbability_ report)
              (upto start end_) b)
    as (b' & Hrun & _ & Hb').
  - split; [done|]. intros k Hk. rewrite decide_False; [done|]. apply not_elem_of_nil.
  - intros i done b1 Hi%elem_of_upto [Hlen1 Hb1].
    destruct (bootstrap_turn_writes report i b1) as (b2 & Hturn & Hlen2 & Hb2);
      [lia|done|congruence|].
    exists b2. split; [done|]. split; [congruence|].
    intros k Hk. rewrite (Hb2 k Hk), (Hb1 k Hk).
    destruct (decide (k / (maxDepth + 1) = i)) as [Hq|Hq].
    + rewrite decide_True; [done|]. apply elem_of_app. right.
      by apply list_elem_of_singleton.
    + destruct (decide (k / (maxDepth + 1) ∈ done)) as [Hin|Hnin].
      * rewrite decide_True; [done|]. apply elem_of_app. by left.
      * rewrite decide_False; [done|]. intros [?|?%list_elem_of_singleton]%elem_of_app;
          done.
  - exists b'. split; [done|]. intros k Hk. rewrite (Hb' k Hk).
    destruct (decide (start <= k / (maxDepth + 1) < end_)) as [Hin|Hnin].
    + rewrite decide_True; [done|]. by apply elem_of_upto.
    + rewrite decide_False; [done|]. by rewrite elem_of_upto.
Qed.

(** The chain that starts from the bootstrap sample [k] evaluates the very
    path whose luminance the bootstrap loop stored at [k]. *)
Theorem chain_start_replays_bootstrap_sample i start end_ b b' film accepted total progress :
  0 <= start -> end_ <= nBootstrap -> 0 <= maxDepth ->
  length (bootstrapWeights b) = Z.to_nat (nBootstrap * (maxDepth + 1)) ->
  bootstrap_chunk scene maxDepth mutationsPerPixel sigma_ largeStepProbability_
    start end_ b = Some b' ->
  let k := SampleDiscrete (bootstrapWeights b') (UniformFloat (seeded i)).1 in
  let chain :=
    start_chain scene maxDepth mutationsPerPixel sigma_ largeStepProbability_ i
      (bootstrapWeights b') film accepted total progress in
  start * (maxDepth + 1) <= k < end_ * (maxDepth + 1) ->
  chain.1 = Z.rem k (maxDepth + 1) /\
  at_index (bootstrapWeights b') k = Some (y (LCurrent chain.2)).
Proof.
  intros Hstart Hend Hm Hlen Hrun k chain Hk.
  destruct (bootstrap_loop_writes progress_due start end_ b) as (b1 & Hrun1 & Hb1);
    try done.
  unfold bootstrap_chunk in Hrun. rewrite Hrun in Hrun1. injection Hrun1 as <-.
  assert (Hk0 : 0 <= k) by nia.
  rewrite (Hb1 k Hk0). rewrite decide_True.
  2:{ split.
      - apply Z.div_le_lower_bound; lia.
      - apply Z.div_lt_upper_bound; lia. }
  unfold chain, start_chain, bootstrap_weight. fold k.
  destruct (UniformFloat (seeded i)) as [u r] eqn:Eu. simpl in k. fold k.
  destruct (L scene _ (Z.rem k (maxDepth + 1))) as [[Lc pc] smc]. simpl. done.
Qed.

End MLTRenderTheorems.

(** The parenthesized condition would report every 256th sample. *)
Lemma progress_due_parenthesized_fires :
  progress_due_parenthesized 255 = true /\ progress_due 255 = false.
Proof. by vm_compute. Qed.

(** * Proofs: the subpaths *)

Lemma at_index_set_index_ne {A} (a a' : list A) i j x :
  set_index a i x = Some a' -> i <> j -> at_index a' j = at_index a j.
Proof.
  intros [Hi ->]%set_index_Some Hne. unfold at_index.
  destruct (j <? 0) eqn:E; [done|]. apply Z.ltb_ge in E.
  rewrite list_lookup_insert_ne by lia. done.
Qed.

Section WalkProofs.
Context `{WalkOps}.

Lemma but_pdfRev_refl (v : Vertex) : but_pdfRev v v.
Proof. unfold but_pdfRev. by destruct v. Qed.

Lemma but_pdfRev_set (v v' : Vertex) x : but_pdfRev v v' -> but_pdfRev v (set_pdfRev x v').
Proof. unfold but_pdfRev. intros <-. by destruct v'. Qed.

Lemma walk_frame_start (path : list Vertex) path0 :
  1 <= path0 <= Z.of_nat (length path) -> walk_frame path path path0 0.
Proof.
  intros Hp. split; [done|]. split; [done|].
  destruct (at_index_in_range path (path0 - 1)) as [v Hv]; [lia|].
  exists v, v. split; [done|]. split; [done|]. apply but_pdfRev_refl.
Qed.

Lemma walk_frame_mono (path path' : list Vertex) path0 n n' :
  n <= n' -> walk_frame path path' path0 n -> walk_frame path path' path0 n'.
Proof.
  intros Hn (Hlen & Hout & Hprev). split; [done|]. split; [|done].
  intros i Hi. apply Hout. lia.
Qed.

(** A write inside the elements the walk owns. *)
Lemma walk_frame_set (path p p' : list Vertex) path0 n i x :
  walk_frame path p path0 n -> path0 <= i < path0 + n ->
  set_index p i x = Some p' -> walk_frame path p' path0 n.
Proof.
  intros (Hlen & Hout & v & v' & Hv & Hv' & Hb) Hi Hset.
  split; [by rewrite (set_index_length _ _ _ _ Hset)|]. split.
  - intros j Hj. rewrite (at_index_set_index_ne _ _ _ j _ Hset) by lia. by apply Hout.
  - exists v, v'. split; [done|]. split; [|done].
    by rewrite (at_index_set_index_ne _ _ _ (path0 - 1) _ Hset) by lia.
Qed.

(** The write-back of a reverse density into the element before [vertex]. *)
Lemma walk_frame_write_back (path p : list Vertex) path0 n b pdf :
  walk_frame path p path0 n -> 0 <= b < n ->
  path0 + n <= Z.of_nat (length path) -> 1 <= path0 ->
  exists p', write_back p (path0 + b) (path0 + b - 1) pdf = Some p' /\
             walk_frame path p' path0 n.
Proof.
  intros Hf Hb Hlen Hp0. pose proof Hf as (Hl & Hout & v & v' & Hv & Hv' & Hbut).
  unfold write_back.
  destruct (at_index_in_range p (path0 + b)) as [x ->]; [lia|].
  destruct (at_index_in_range p (path0 + b - 1)) as [q Hq]; [lia|].
  rewrite Hq. simpl. rewrite set_index_in_range by lia.
  eexists. split; [done|].
  destruct (decide (b = 0)) as [->|Hb0].
  - replace (path0 + 0 - 1) with (path0 - 1) in * by lia.
    split; [by rewrite length_insert|]. split.
    + intros j Hj.
      rewrite (at_index_set_index_ne p _ (path0 - 1) j (set_pdfRev (ConvertDensity x pdf q) q))
        by (apply set_index_in_range || idtac; lia).
      by apply Hout.
    + exists v, (set_pdfRev (ConvertDensity x pdf q) q). split; [done|]. split.
      * apply at_index_Some. split; [lia|]. apply list_lookup_insert_eq. lia.
      * apply but_pdfRev_set. congruence.
  - eapply (walk_frame_set path p _ path0 _ (path0 + b - 1));
      [exact Hf|lia|apply set_index_in_range; lia].
Qed.

Lemma RandomWalk_turn_frame scene maxDepth mode path path0 w :
  1 <= path0 -> path0 + maxDepth <= Z.of_nat (length path) ->
  walking path path0 maxDepth w ->
  exists flow w', RandomWalk_turn scene maxDepth mode path0 w = Some (flow, w') /\
    match flow with
    | Again => walking path path0 maxDepth w'
    | Break => walked path path0 maxDepth w'
    end.
Proof.
  intros Hp0 Hlen [Hb Hf]. unfold RandomWalk_turn.
  destruct (Intersect scene (w_ray w)) as [[found isect] ray].
  set (start := if has_medium ray then _ else _).
  destruct start as [[beta mi] sampler].
  destruct (Sp.IsBlack beta).
  { eexists _, _. split; [done|]. split; simpl; [lia|done]. }
  pose proof Hf as (Hl & _).
  assert (Hcreate : forall x,
    exists p', set_index (w_path w) (path0 + w_bounces w) x = Some p' /\
               walk_frame path p' path0 (w_bounces w + 1)).
  { intros x. rewrite set_index_in_range by lia. eexists. split; [done|].
    eapply (walk_frame_set path (w_path w) _ path0 _ (path0 + w_bounces w));
      [eapply walk_frame_mono; [|exact Hf]; lia|lia|].
    apply set_index_in_range. lia. }
  destruct (at_index_in_range (w_path w) (path0 + w_bounces w - 1)) as [vprev Hprev];
    [lia|].
  destruct (mi_IsValid mi).
  { rewrite Hprev. simpl.
    destruct (Hcreate (CreateMedium mi beta (w_pdfFwd w) vprev)) as (p1 & -> & Hf1).
    simpl. destruct (Z.leb_spec maxDepth (w_bounces w + 1)).
    { eexists _, _. split; [done|]. split; simpl; [lia|done]. }
    destruct (Get2D sampler) as [u sampler1].
    destruct (phase_Sample_p mi _ u) as [pdf wi].
    destruct (walk_frame_write_back path p1 path0 (w_bounces w + 1) (w_bounces w) pdf)
      as (p2 & -> & Hf2); try done; try lia.
    simpl. eexists _, _. split; [done|]. split; simpl; [lia|done]. }
  destruct found; simpl.
  2:{ destruct mode.
      - destruct (Hcreate (CreateLight (ray_EndpointInteraction ray) beta (w_pdfFwd w)))
          as (p1 & -> & Hf1).
        simpl. eexists _, _. split; [done|]. split; simpl; [lia|done].
      - eexists _, _. split; [done|]. split; simpl; [lia|done]. }
  destruct (has_bsdf _); simpl.
  2:{ eexists _, _. split; [done|]. split; simpl; [lia|done]. }
  rewrite Hprev. simpl.
  set (isect' := ComputeScatteringFunctions isect ray mode).
  destruct (Hcreate (CreateSurface isect' beta (w_pdfFwd w) vprev)) as (p1 & -> & Hf1).
  simpl. destruct (Z.leb_spec maxDepth (w_bounces w + 1)).
  { eexists _, _. split; [done|]. split; simpl; [lia|done]. }
  destruct (Get2D sampler) as [u sampler1].
  destruct (_ || _).
  { eexists _, _. split; [done|]. split; simpl; [lia|done]. }
  pose proof Hf1 as (Hl1 & _).
  destruct (sf_specular _).
  - destruct (at_index_in_range p1 (path0 + w_bounces w)) as [v ->]; [lia|]. simpl.
    rewrite set_index_in_range by lia. simpl.
    assert (Hf1' : walk_frame path (<[Z.to_nat (path0 + w_bounces w) := set_delta true v]> p1)
                     path0 (w_bounces w + 1)).
    { eapply (walk_frame_set path p1 _ path0 _ (path0 + w_bounces w));
        [exact Hf1|lia|apply set_index_in_range; lia]. }
    destruct (walk_frame_write_back path _ path0 (w_bounces w + 1) (w_bounces w) Flt.zero Hf1')
      as (p2 & -> & Hf2); try done; try lia.
    simpl. eexists _, _. split; [done|]. split; simpl; [lia|done].
  - simpl.
    destruct (walk_frame_write_back path p1 path0 (w_bounces w + 1) (w_bounces w)
                (bsdf_Pdf isect' (sf_wi (bsdf_Sample_f isect' (isect_wo isect') u (w_pdfFwd w)))
                   (isect_wo isect')) Hf1)
      as (p2 & -> & Hf2); try done; try lia.
    simpl. eexists _, _. split; [done|]. split; simpl; [lia|done].
Qed.

Lemma RandomWalk_loop_frame fuel scene maxDepth mode path path0 : forall w,
  1 <= path0 -> path0 + maxDepth <= Z.of_nat (length path) ->
  walking path path0 maxDepth w ->
  match RandomWalk_loop fuel scene maxDepth mode path0 w with
  | Finished w' => walked path path0 maxDepth w'
  | Fault => False
  | Unfinished => True
  end.
Proof.
  induction fuel as [|fuel IH]; intros w Hp0 Hlen Hw; simpl; [done|].
  destruct (RandomWalk_turn_frame scene maxDepth mode path path0 w)
    as (flow & w' & -> & Hflow); try done.
  destruct flow; [done|]. by apply IH.
Qed.

Lemma RandomWalk_frame fuel scene ray sampler beta pdf maxDepth mode path path0 :
  0 <= maxDepth -> 1 <= path0 -> path0 + maxDepth <= Z.of_nat (length path) ->
  match RandomWalk fuel scene ray sampler beta pdf maxDepth mode path path0 with
  | Finished (n, path', _) => 0 <= n <= maxDepth /\ walk_frame path path' path0 n
  | Fault => False
  | Unfinished => True
  end.
Proof.
  intros Hm Hp0 Hlen. unfold RandomWalk.
  destruct (Z.eqb_spec maxDepth 0) as [->|Hne].
  { split; [lia|]. apply walk_frame_start. lia. }
  assert (Hstart : walking path path0 maxDepth
                     (mkWalk _ _ ray beta pdf Flt.zero 0 path sampler)).
  { split; simpl; [lia|]. apply walk_frame_start. lia. }
  pose proof (RandomWalk_loop_frame fuel scene maxDepth mode path path0 _ Hp0 Hlen Hstart)
    as Hloop.
  destruct (RandomWalk_loop _ _ _ _ _ _) as [w| |]; simpl; done.
Qed.

(** [RandomWalk] never reads or writes outside the [maxDepth] elements it is
    given and the element before them; it returns a count [n] between 0 and
    [maxDepth], and has changed nothing but the first [n] elements and the
    reverse density of the element before them. *)
Theorem RandomWalk_stays_in_its_array
    fuel scene ray sampler beta pdf maxDepth mode path path0 :
  0 <= maxDepth -> 1 <= path0 -> path0 + maxDepth <= Z.of_nat (length path) ->
  RandomWalk fuel scene ray sampler beta pdf maxDepth mode path path0 <> Fault /\
  forall n path' sampler',
    RandomWalk fuel scene ray sampler beta pdf maxDepth mode path path0
      = Finished (n, path', sampler') ->
    0 <= n <= maxDepth /\
    length path' = length path /\
    (forall i, i < path0 - 1 \/ path0 + n <= i -> at_index path' i = at_index path i) /\
    exists v v', at_index path (path0 - 1) = Some v /\
                 at_index path' (path0 - 1) = Some v' /\ set_pdfRev (pdfRev v) v' = v.
Proof.
  intros Hm Hp0 Hlen.
  pose proof (RandomWalk_frame fuel scene ray sampler beta pdf maxDepth mode path path0
                Hm Hp0 Hlen) as Hw.
  destruct (RandomWalk _ _ _ _ _ _ _ _ _ _) as [[[n p] sm]| |]; [|done|].
  - split; [done|]. intros n' p' sm' [= <- <- <-].
    destruct Hw as (Hn & Hl & Hout & Hprev). done.
  - split; [done|]. done.
Qed.

(** ** The walk returns when no medium boundary is skipped *)

Section NoBoundaries.
Hypothesis every_hit_scatters :
  forall isect ray mode, has_bsdf (ComputeScatteringFunctions isect ray mode) = true.

Lemma RandomWalk_turn_advances scene maxDepth mode path0 w w' :
  RandomWalk_turn scene maxDepth mode path0 w = Some (Again, w') ->
  w_bounces w' = w_bounces w + 1.
Proof.
  unfold RandomWalk_turn. intros Hturn.
  repeat (case_match; simplify_option_eq); try done.
  all: try (by rewrite every_hit_scatters in *).
Qed.

Lemma RandomWalk_loop_returns fuel scene maxDepth mode path path0 : forall w,
  1 <= path0 -> path0 + maxDepth <= Z.of_nat (length path) ->
  walking path path0 maxDepth w ->
  maxDepth - w_bounces w <= Z.of_nat fuel ->
  exists w', RandomWalk_loop fuel scene maxDepth mode path0 w = Finished w'.
Proof.
  induction fuel as [|fuel IH]; intros w Hp0 Hlen Hw Hfuel.
  { destruct Hw as [Hb _]. lia. }
  simpl.
  destruct (RandomWalk_turn_frame scene maxDepth mode path path0 w)
    as (flow & w' & Hturn & Hflow); try done.
  rewrite Hturn. destruct flow; [by eexists|].
  apply RandomWalk_turn_advances in Hturn. apply IH; try done. lia.
Qed.

Lemma RandomWalk_finishes fuel scene ray sampler beta pdf maxDepth mode path path0 :
  0 <= maxDepth -> 1 <= path0 -> path0 + maxDepth <= Z.of_nat (length path) ->
  maxDepth <= Z.of_nat fuel ->
  exists n path' sampler',
    RandomWalk fuel scene ray sampler beta pdf maxDepth mode path path0
      = Finished (n, path', sampler').
Proof.
  intros Hm Hp0 Hlen Hfuel. unfold RandomWalk.
  destruct (Z.eqb_spec maxDepth 0) as [->|Hne]; [by eexists _, _, _|].
  destruct (RandomWalk_loop_returns fuel scene maxDepth mode path path0
              (mkWalk _ _ ray beta pdf Flt.zero 0 path sampler)) as [w' ->]; try done.
  - split; simpl; [lia|]. apply walk_frame_start. lia.
  - simpl. lia.
  - simpl. by eexists _, _, _.
Qed.

(** In a scene where every intersection found has a BSDF, the loop of
    [RandomWalk] makes at most [maxDepth] turns. *)
Theorem RandomWalk_returns_within_maxDepth_turns
    fuel scene ray sampler beta pdf maxDepth mode path path0 :
  0 <= maxDepth -> 1 <= path0 -> path0 + maxDepth <= Z.of_nat (length path) ->
  maxDepth <= Z.of_nat fuel ->
  exists n path' sampler',
    RandomWalk fuel scene ray sampler beta pdf maxDepth mode path path0
      = Finished (n, path', sampler').
Proof. apply RandomWalk_finishes. Qed.

End NoBoundaries.

(** ** The two subpaths *)

Lemma subpath_frame_nothing (path path' : list Vertex) :
  subpath_frame path path' 0 -> path' = path.
Proof.
  intros [Hlen Hout]. apply list_eq. intros i.
  specialize (Hout (Z.of_nat i) ltac:(lia)). unfold at_index in Hout.
  destruct (Z.ltb_spec (Z.of_nat i) 0); [lia|]. by rewrite Nat2Z.id in Hout.
Qed.

(** A walk from the element 1 on, after the element 0 was written. *)
Lemma walk_frame_after_first (path path1 path' : list Vertex) x n :
  0 <= n -> set_index path 0 x = Some path1 -> walk_frame path1 path' 1 n ->
  subpath_frame path path' (n + 1) /\
  exists v, at_index path' 0 = Some v /\ but_pdfRev x v.
Proof.
  intros Hn Hset (Hlen & Hout & v & v' & Hv & Hv' & Hbut).
  change (1 - 1) with 0 in Hv, Hv'.
  rewrite (at_index_set_index _ _ _ _ Hset) in Hv. injection Hv as <-.
  split; [split|by exists v'].
  - by rewrite Hlen, (set_index_length _ _ _ _ Hset).
  - intros i Hi. rewrite Hout by lia.
    apply (at_index_set_index_ne _ _ _ _ _ Hset). lia.
Qed.

Lemma GenerateCameraSubpath_frame fuel scene sampler maxDepth camera pFilm path :
  0 <= maxDepth <= Z.of_nat (length path) ->
  match GenerateCameraSubpath fuel scene sampler maxDepth camera pFilm path with
  | Finished (n, path', sampler') =>
      (maxDepth = 0 -> n = 0 /\ path' = path /\ sampler' = sampler) /\
      (0 < maxDepth -> 1 <= n <= maxDepth) /\
      subpath_frame path path' n /\
      (0 < maxDepth ->
       exists ray beta v, at_index path' 0 = Some v /\
                          but_pdfRev (CreateCamera_ray camera ray beta) v)
  | Fault => False
  | Unfinished => True
  end.
Proof.
  intros Hm. unfold GenerateCameraSubpath.
  destruct (Z.eqb_spec maxDepth 0) as [->|Hne].
  { repeat apply conj; try done; lia. }
  destruct (Get1D sampler) as [time sampler1].
  destruct (Get2D sampler1) as [pLens sampler2].
  destruct (GenerateRayDifferential camera pFilm time pLens) as [beta ray0].
  set (ray := ScaleDifferentials ray0 _).
  destruct (set_index path 0 (CreateCamera_ray camera ray beta)) as [path1|] eqn:Hset.
  2:{ rewrite set_index_in_range in Hset by lia. done. }
  simpl. destruct (Pdf_We camera ray) as [pdfPos pdfDir].
  pose proof (RandomWalk_frame fuel scene ray sampler2 beta pdfDir (maxDepth - 1)
                Radiance path1 1) as Hw.
  rewrite (set_index_length _ _ _ _ Hset) in Hw.
  specialize (Hw ltac:(lia) ltac:(lia) ltac:(lia)).
  destruct (RandomWalk _ _ _ _ _ _ _ _ _ _) as [[[n p] sm]| |]; simpl; [|done..].
  destruct Hw as [Hn Hf].
  destruct (walk_frame_after_first path path1 p _ n ltac:(lia) Hset Hf) as [Hsub Hfirst].
  split; [lia|]. split; [lia|]. split; [done|].
  intros _. destruct Hfirst as (v & Hv & Hbut). by exists ray, beta, v.
Qed.

(** [GenerateCameraSubpath] stays inside an array of [maxDepth] vertices.
    It returns 0, with nothing drawn or written, exactly when [maxDepth] is
    0; otherwise between 1 and [maxDepth], with the camera vertex first.
    The elements from the returned count on are as they were. *)
Theorem GenerateCameraSubpath_fills_a_prefix
    fuel scene sampler maxDepth camera pFilm path :
  0 <= maxDepth <= Z.of_nat (length path) ->
  GenerateCameraSubpath fuel scene sampler maxDepth camera pFilm path <> Fault /\
  forall n path' sampler',
    GenerateCameraSubpath fuel scene sampler maxDepth camera pFilm path
      = Finished (n, path', sampler') ->
    (maxDepth = 0 -> n = 0 /\ path' = path /\ sampler' = sampler) /\
    (0 < maxDepth -> 1 <= n <= maxDepth) /\
    length path' = length path /\
    (forall i, n <= i -> at_index path' i = at_index path i) /\
    (0 < maxDepth ->
     exists ray beta v, at_index path' 0 = Some v /\
       set_pdfRev (pdfRev (CreateCamera_ray camera ray beta)) v
       = CreateCamera_ray camera ray beta).
Proof.
  intros Hm.
  pose proof (GenerateCameraSubpath_frame fuel scene sampler maxDepth camera pFilm path Hm)
    as Hg.
  destruct (GenerateCameraSubpath _ _ _ _ _ _ _) as [[[n p] sm]| |]; [|done|done].
  split; [done|]. intros n' p' sm' [= <- <- <-].
  destruct Hg as (Hzero & Hn & [Hlen Hout] & Hfirst). done.
Qed.

Lemma subpath_frame_set (path p : list Vertex) n i x :
  subpath_frame path p n -> 0 <= i < n -> i < Z.of_nat (length path) ->
  exists p', set_index p i x = Some p' /\ subpath_frame path p' n.
Proof.
  intros [Hlen Hout] Hi Hlt. rewrite set_index_in_range by lia.
  eexists. split; [done|]. split; [by rewrite length_insert|].
  intros j Hj. rewrite <- Hout by done.
  eapply at_index_set_index_ne; [apply set_index_in_range|]; lia.
Qed.

Lemma correct_infinite_light_frame scene lightDistr d pdfPos nVertices (path : list Vertex) :
  0 <= nVertices -> nVertices + 1 <= Z.of_nat (length path) ->
  exists path', correct_infinite_light scene lightDistr d pdfPos nVertices path = Some path' /\
                subpath_frame path path' (nVertices + 1).
Proof.
  intros Hn Hlen. unfold correct_infinite_light.
  assert (Hrefl : subpath_frame path path (nVertices + 1)) by done.
  destruct (at_index_in_range path 0) as [v0 ->]; [lia|]. simpl.
  destruct (IsInfiniteLight v0); [|by eexists].
  destruct (Z.ltb_spec 0 nVertices).
  - destruct (at_index_in_range path 1) as [v1 ->]; [lia|]. simpl.
    match goal with
    | |- context [set_index path 1 ?x] =>
        destruct (subpath_frame_set path path (nVertices + 1) 1 x) as (p1 & -> & Hf1);
          [done|lia|lia|]
    end.
    simpl. pose proof Hf1 as [Hlen1 _].
    destruct (at_index_in_range p1 0) as [v0' ->]; [lia|]. simpl.
    apply subpath_frame_set; [done|lia|lia].
  - destruct (at_index_in_range path 0) as [v0' Hv0']; [lia|]. simpl. rewrite Hv0'. simpl.
    apply subpath_frame_set; [done|lia|lia].
Qed.

Lemma GenerateLightSubpath_frame
    fuel leftToRight scene sampler maxDepth time lightDistr path :
  0 <= maxDepth <= Z.of_nat (length path) ->
  match GenerateLightSubpath fuel leftToRight scene sampler maxDepth time lightDistr path with
  | Finished (n, path', sampler') =>
      0 <= n <= maxDepth /\ subpath_frame path path' n /\
      (maxDepth = 0 -> n = 0 /\ sampler' = sampler)
  | Fault => False
  | Unfinished => True
  end.
Proof.
  intros Hm. unfold GenerateLightSubpath.
  destruct (Z.eqb_spec maxDepth 0) as [->|Hne].
  { repeat apply conj; try done; lia. }
  destruct (Get1D sampler) as [u sampler1].
  destruct (Sample_light lightDistr u) as [light lightPdf].
  destruct (Flt.eqb lightPdf Flt.zero).
  { repeat apply conj; try done; lia. }
  destruct (Get2D sampler1) as [a sampler2].
  destruct (Get2D sampler2) as [b sampler3].
  set (r := if leftToRight then _ else _).
  destruct (_ || _).
  { repeat apply conj; try done; lia. }
  destruct (set_index path 0 _) as [path1|] eqn:Hset.
  2:{ rewrite set_index_in_range in Hset by lia. done. }
  simpl.
  set (beta := Sp.divide _ _).
  pose proof (RandomWalk_frame fuel scene (sle_ray r) sampler3 beta (sle_pdfDir r)
                (maxDepth - 1) Importance path1 1) as Hw.
  rewrite (set_index_length _ _ _ _ Hset) in Hw.
  specialize (Hw ltac:(lia) ltac:(lia) ltac:(lia)).
  destruct (RandomWalk _ _ _ _ _ _ _ _ _ _) as [[[n p] sm]| |]; simpl; [|done..].
  destruct Hw as [Hn Hf].
  destruct (walk_frame_after_first path path1 p _ n ltac:(lia) Hset Hf) as [[Hlen Hout] _].
  destruct (correct_infinite_light_frame scene lightDistr (ray_d (sle_ray r))
              (sle_pdfPos r) n p) as (p' & -> & Hlen' & Hout'); [lia|lia|].
  simpl. split; [lia|]. split; [split|intros; lia].
  - congruence.
  - intros i Hi. rewrite Hout' by done. by apply Hout.
Qed.

(** [GenerateLightSubpath] stays inside an array of [maxDepth] vertices and
    returns a count between 0 and [maxDepth], whichever of the two direction
    samples the compiler draws first; it returns 0 only with the array
    untouched, and the elements from the returned count on are as they
    were. *)
Theorem GenerateLightSubpath_fills_a_prefix
    fuel leftToRight scene sampler maxDepth time lightDistr path :
  0 <= maxDepth <= Z.of_nat (length path) ->
  GenerateLightSubpath fuel leftToRight scene sampler maxDepth time lightDistr path
    <> Fault /\
  forall n path' sampler',
    GenerateLightSubpath fuel leftToRight scene sampler maxDepth time lightDistr path
      = Finished (n, path', sampler') ->
    0 <= n <= maxDepth /\
    length path' = length path /\
    (forall i, n <= i -> at_index path' i = at_index path i) /\
    (n = 0 -> path' = path) /\
    (maxDepth = 0 -> sampler' = sampler).
Proof.
  intros Hm.
  pose proof (GenerateLightSubpath_frame fuel leftToRight scene sampler maxDepth time
                lightDistr path Hm) as Hg.
  destruct (GenerateLightSubpath _ _ _ _ _ _ _ _) as [[[n p] sm]| |]; [|done|done].
  split; [done|]. intros n' p' sm' [= <- <- <-].
  destruct Hg as (Hn & [Hlen Hout] & Hzero).
  split; [done|]. split; [done|]. split; [done|]. split.
  - intros ->. by apply subpath_frame_nothing.
  - intros Hz. by apply Hzero.
Qed.

(** ** The subpath generators return when no medium boundary is skipped *)

Section SubpathsReturn.
Hypothesis every_hit_scatters :
  forall isect ray mode, has_bsdf (ComputeScatteringFunctions isect ray mode) = true.

Lemma GenerateCameraSubpath_finishes fuel scene sampler maxDepth camera pFilm path :
  0 <= maxDepth <= Z.of_nat (length path) -> maxDepth - 1 <= Z.of_nat fuel ->
  exists n path' sampler',
    GenerateCameraSubpath fuel scene sampler maxDepth camera pFilm path
      = Finished (n, path', sampler').
Proof.
  intros Hm Hfuel. unfold GenerateCameraSubpath.
  destruct (Z.eqb_spec maxDepth 0) as [->|Hne]; [by eexists _, _, _|].
  destruct (Get1D sampler) as [time sampler1].
  destruct (Get2D sampler1) as [pLens sampler2].
  destruct (GenerateRayDifferential camera pFilm time pLens) as [beta ray0].
  set (ray := ScaleDifferentials ray0 _).
  rewrite set_index_in_range by lia. simpl.
  destruct (Pdf_We camera ray) as [pdfPos pdfDir].
  destruct (RandomWalk_finishes every_hit_scatters fuel scene ray sampler2 beta pdfDir
              (maxDepth - 1) Radiance (<[Z.to_nat 0 := CreateCamera_ray camera ray beta]> path) 1)
    as (n & p & sm & ->); try lia.
  { rewrite length_insert. lia. }
  simpl. by eexists _, _, _.
Qed.

Lemma GenerateLightSubpath_finishes
    fuel leftToRight scene sampler maxDepth time lightDistr path :
  0 <= maxDepth <= Z.of_nat (length path) -> maxDepth - 1 <= Z.of_nat fuel ->
  exists n path' sampler',
    GenerateLightSubpath fuel leftToRight scene sampler maxDepth time lightDistr path
      = Finished (n, path', sampler').
Proof.
  intros Hm Hfuel.
  pose proof (GenerateLightSubpath_frame fuel leftToRight scene sampler maxDepth time
                lightDistr path Hm) as Hframe.
  revert Hframe. unfold GenerateLightSubpath.
  destruct (Z.eqb_spec maxDepth 0) as [->|Hne]; [by eexists _, _, _|].
  destruct (Get1D sampler) as [u sampler1].
  destruct (Sample_light lightDistr u) as [light lightPdf].
  destruct (Flt.eqb lightPdf Flt.zero); [by eexists _, _, _|].
  destruct (Get2D sampler1) as [a sampler2].
  destruct (Get2D sampler2) as [b sampler3].
  set (r := if leftToRight then _ else _).
  destruct (_ || _); [by eexists _, _, _|].
  rewrite set_index_in_range by lia. simpl.
  set (beta := Sp.divide _ _).
  destruct (RandomWalk_finishes every_hit_scatters fuel scene (sle_ray r) sampler3 beta
              (sle_pdfDir r) (maxDepth - 1) Importance
              (<[Z.to_nat 0 := CreateLight_ray light (sle_ray r) (sle_nLight r) (sle_Le r)
                                 (Flt.mul (sle_pdfPos r) lightPdf)]> path) 1)
    as (n & p & sm & ->); try lia.
  { rewrite length_insert. lia. }
  simpl. destruct (correct_infinite_light _ _ _ _ _ _); simpl; [|done].
  intros _. by eexists _, _, _.
Qed.

End SubpathsReturn.

(** ** What the subpath generators do with the sampler *)

(** The generators use the sampler only through [Get1D], [Get2D] and the
    sampling of the media: what these calls keep, the generators keep. *)
Section SamplerUse.
Variable kept : Sampler -> Prop.
Hypothesis Get1D_keeps : forall sampler, kept sampler -> kept (Get1D sampler).2.
Hypothesis Get2D_keeps : forall sampler, kept sampler -> kept (Get2D sampler).2.
Hypothesis medium_Sample_keeps :
  forall ray sampler, kept sampler -> kept (medium_Sample ray sampler).2.

Lemma RandomWalk_turn_keeps scene maxDepth mode path0 w flow w' :
  RandomWalk_turn scene maxDepth mode path0 w = Some (flow, w') ->
  kept (w_sampler w) -> kept (w_sampler w').
Proof.
  unfold RandomWalk_turn. intros Hturn Hk.
  destruct (Intersect scene (w_ray w)) as [[found isect] ray].
  assert (Hmedium : kept (if has_medium ray
                          then let '(tr, mi, sampler) := medium_Sample ray (w_sampler w) in
                               (Sp.mul (w_beta w) tr, mi, sampler)
                          else (w_beta w, default_MediumInteraction, w_sampler w)).2).
  { destruct (has_medium ray); [|done].
    pose proof (medium_Sample_keeps ray _ Hk) as Hm.
    by destruct (medium_Sample ray (w_sampler w)) as [[tr mi] sm]. }
  destruct (if has_medium ray then _ else _) as [[beta mi] sampler]. simpl in Hmedium.
  pose proof (Get2D_keeps sampler Hmedium) as Hs2.
  destruct (Get2D sampler) as [u sampler1]. simpl in Hs2.
  repeat (case_match; simplify_option_eq); done.
Qed.

Lemma RandomWalk_loop_keeps fuel scene maxDepth mode path0 : forall w w',
  RandomWalk_loop fuel scene maxDepth mode path0 w = Finished w' ->
  kept (w_sampler w) -> kept (w_sampler w').
Proof.
  induction fuel as [|fuel IH]; intros w w'; simpl; [done|].
  destruct (RandomWalk_turn scene maxDepth mode path0 w) as [[flow w1]|] eqn:Hturn; [|done].
  intros Hloop Hk. pose proof (RandomWalk_turn_keeps _ _ _ _ _ _ _ Hturn Hk) as Hk1.
  destruct flow.
  - by injection Hloop as <-.
  - by eapply IH.
Qed.

Lemma RandomWalk_keeps fuel scene ray sampler beta pdf maxDepth mode path path0 n path' sampler' :
  RandomWalk fuel scene ray sampler beta pdf maxDepth mode path path0
    = Finished (n, path', sampler') ->
  kept sampler -> kept sampler'.
Proof.
  unfold RandomWalk. destruct (maxDepth =? 0); [by intros [= _ _ <-]|].
  destruct (RandomWalk_loop _ _ _ _ _ _) as [w'| |] eqn:Hloop; simpl; [|done..].
  intros [= _ _ <-] Hk. by apply (RandomWalk_loop_keeps _ _ _ _ _ _ _ Hloop).
Qed.

Lemma GenerateCameraSubpath_keeps fuel scene sampler maxDepth camera pFilm path n path' sampler' :
  GenerateCameraSubpath fuel scene sampler maxDepth camera pFilm path
    = Finished (n, path', sampler') ->
  kept sampler -> kept sampler'.
Proof.
  unfold GenerateCameraSubpath. destruct (maxDepth =? 0); [by intros [= _ _ <-]|].
  intros Hg Hk. pose proof (Get1D_keeps sampler Hk) as Hs1.
  destruct (Get1D sampler) as [time sampler1]. simpl in Hs1.
  pose proof (Get2D_keeps sampler1 Hs1) as Hs2.
  destruct (Get2D sampler1) as [pLens sampler2]. simpl in Hs2.
  destruct (GenerateRayDifferential camera pFilm time pLens) as [beta ray0].
  destruct (set_index path 0 _) as [path1|]; [|done]. simpl in Hg.
  destruct (Pdf_We camera _) as [pdfPos pdfDir].
  destruct (RandomWalk _ _ _ _ _ _ _ _ _ _) as [[[k p] sm]| |] eqn:Hw; simpl in Hg; [|done..].
  injection Hg as _ _ <-. by apply (RandomWalk_keeps _ _ _ _ _ _ _ _ _ _ _ _ _ Hw).
Qed.

Lemma GenerateLightSubpath_keeps
    fuel leftToRight scene sampler maxDepth time lightDistr path n path' sampler' :
  GenerateLightSubpath fuel leftToRight scene sampler maxDepth time lightDistr path
    = Finished (n, path', sampler') ->
  kept sampler -> kept sampler'.
Proof.
  unfold GenerateLightSubpath. destruct (maxDepth =? 0); [by intros [= _ _ <-]|].
  intros Hg Hk. pose proof (Get1D_keeps sampler Hk) as Hs1.
  destruct (Get1D sampler) as [u sampler1]. simpl in Hs1.
  destruct (Sample_light lightDistr u) as [light lightPdf].
  destruct (Flt.eqb lightPdf Flt.zero); [by injection Hg as _ _ <-|].
  pose proof (Get2D_keeps sampler1 Hs1) as Hs2.
  destruct (Get2D sampler1) as [a sampler2]. simpl in Hs2.
  pose proof (Get2D_keeps sampler2 Hs2) as Hs3.
  destruct (Get2D sampler2) as [b sampler3]. simpl in Hs3.
  destruct (_ || _); [by injection Hg as _ _ <-|].
  destruct (set_index path 0 _) as [path1|]; [|done]. simpl in Hg.
  destruct (RandomWalk _ _ _ _ _ _ _ _ _ _) as [[[k p] sm]| |] eqn:Hw; simpl in Hg; [|done..].
  destruct (correct_infinite_light _ _ _ _ _ _); simpl in Hg; [|done].
  injection Hg as _ _ <-. by apply (RandomWalk_keeps _ _ _ _ _ _ _ _ _ _ _ _ _ Hw).
Qed.

End SamplerUse.

End WalkProofs.

Section VertexTypes.
Context `{WalkOps}.
Hypothesis CreateSurface_type :
  forall isect beta pdf prev, type (CreateSurface isect beta pdf prev) = VSurface.
Hypothesis CreateMedium_type :
  forall mi beta pdf prev, type (CreateMedium mi beta pdf prev) = VMedium.

Lemma no_light_mono (p : list Vertex) path0 k k' :
  k' <= k -> no_light p path0 k -> no_light p path0 k'.
Proof. intros Hk Hn i Hi. apply Hn. lia. Qed.

Lemma no_light_append (p p' : list Vertex) path0 k x :
  0 <= k -> 0 <= path0 ->
  no_light p path0 k -> set_index p (path0 + k) x = Some p' -> type x <> VLight ->
  no_light p' path0 (k + 1).
Proof.
  intros Hk Hp0 Hn Hset Hx i Hi. destruct (decide (i = path0 + k)) as [->|Hne].
  - exists x. split; [|done]. by eapply at_index_set_index.
  - destruct (Hn i) as (v & Hv & Hty); [lia|]. exists v. split; [|done].
    rewrite <- Hv. eapply at_index_set_index_ne; [done|lia].
Qed.

Lemma no_light_beyond (p p' : list Vertex) path0 k x :
  no_light p path0 k -> set_index p (path0 + k) x = Some p' -> no_light p' path0 k.
Proof.
  intros Hn Hset i Hi. destruct (Hn i) as (v & Hv & Hty); [lia|]. exists v. split; [|done].
  rewrite <- Hv. eapply at_index_set_index_ne; [done|lia].
Qed.

Lemma no_light_update (p p' : list Vertex) path0 k i v x :
  no_light p path0 k -> at_index p i = Some v -> type x = type v ->
  set_index p i x = Some p' -> no_light p' path0 k.
Proof.
  intros Hn Hv Hx Hset j Hj. destruct (Hn j) as (u & Hu & Hty); [lia|].
  destruct (decide (j = i)) as [->|Hne].
  - exists x. split; [by eapply at_index_set_index|]. congruence.
  - exists u. split; [|done]. rewrite <- Hu. eapply at_index_set_index_ne; [done|lia].
Qed.

Lemma no_light_write_back (p p' : list Vertex) path0 k vertex prev pdf :
  no_light p path0 k -> write_back p vertex prev pdf = Some p' -> no_light p' path0 k.
Proof.
  unfold write_back. intros Hn Hw.
  apply bind_Some in Hw as (v & Hv & Hw). apply bind_Some in Hw as (q & Hq & Hw).
  eapply no_light_update; [exact Hn|exact Hq| |exact Hw]. by destruct q.
Qed.

Lemma RandomWalk_turn_types scene maxDepth mode path0 w flow w' :
  0 <= path0 -> 0 <= w_bounces w ->
  no_light (w_path w) path0 (w_bounces w) ->
  RandomWalk_turn scene maxDepth mode path0 w = Some (flow, w') ->
  0 <= w_bounces w' /\
  match flow with
  | Again => no_light (w_path w') path0 (w_bounces w')
  | Break => no_light (w_path w') path0 (w_bounces w' - 1) /\
             (mode = Importance -> no_light (w_path w') path0 (w_bounces w'))
  end.
Proof.
  intros Hp0 Hb Hn. unfold RandomWalk_turn.
  assert (Hless : no_light (w_path w) path0 (w_bounces w - 1))
    by (eapply no_light_mono; [|exact Hn]; lia).
  destruct (Intersect scene (w_ray w)) as [[found isect] ray].
  set (start := if has_medium ray then _ else _).
  destruct start as [[beta mi] sampler].
  destruct (Sp.IsBlack beta); [by intros [= <- <-]|].
  destruct (mi_IsValid mi).
  { destruct (at_index _ _) as [vprev|]; [|done]. simpl.
    destruct (set_index _ _ _) as [p1|] eqn:Hset; [|done]. simpl.
    assert (Hn1 : no_light p1 path0 (w_bounces w + 1)).
    { eapply no_light_append; [| |exact Hn|exact Hset|]; try done.
      by rewrite CreateMedium_type. }
    destruct (maxDepth <=? w_bounces w + 1).
    { intros [= <- <-]. simpl. split; [lia|]. split; [|done].
      eapply no_light_mono; [|exact Hn1]; lia. }
    destruct (Get2D sampler) as [u sampler1].
    destruct (phase_Sample_p mi _ u) as [pdf wi].
    destruct (write_back p1 _ _ _) as [p2|] eqn:Hwb; [|done]. simpl.
    intros [= <- <-]. simpl. split; [lia|]. by eapply no_light_write_back. }
  destruct found; simpl.
  2:{ destruct mode.
      - destruct (set_index _ _ _) as [p1|] eqn:Hset; [|done]. simpl.
        intros [= <- <-]. simpl. split; [lia|]. split; [|done].
        replace (w_bounces w + 1 - 1) with (w_bounces w) by lia.
        by eapply no_light_beyond.
      - by intros [= <- <-]. }
  destruct (has_bsdf _); simpl; [|by intros [= <- <-]].
  destruct (at_index _ _) as [vprev|]; [|done]. simpl.
  destruct (set_index _ _ _) as [p1|] eqn:Hset; [|done]. simpl.
  assert (Hn1 : no_light p1 path0 (w_bounces w + 1)).
  { eapply no_light_append; [| |exact Hn|exact Hset|]; try done.
    by rewrite CreateSurface_type. }
  destruct (maxDepth <=? w_bounces w + 1).
  { intros [= <- <-]. simpl. split; [lia|]. split; [|done].
    eapply no_light_mono; [|exact Hn1]; lia. }
  destruct (Get2D sampler) as [u sampler1].
  destruct (_ || _).
  { intros [= <- <-]. simpl. split; [lia|]. split; [|done].
    eapply no_light_mono; [|exact Hn1]; lia. }
  destruct (sf_specular _).
  - destruct (at_index p1 _) as [v|] eqn:Hv; [|done]. simpl.
    destruct (set_index p1 _ _) as [p2|] eqn:Hset2; [|done]. simpl.
    assert (Hn2 : no_light p2 path0 (w_bounces w + 1)).
    { eapply no_light_update; [exact Hn1|exact Hv| |exact Hset2]. by destruct v. }
    destruct (write_back p2 _ _ _) as [p3|] eqn:Hwb; [|done]. simpl.
    intros [= <- <-]. simpl. split; [lia|]. by eapply no_light_write_back.
  - simpl. destruct (write_back p1 _ _ _) as [p3|] eqn:Hwb; [|done]. simpl.
    intros [= <- <-]. simpl. split; [lia|]. by eapply no_light_write_back.
Qed.

Lemma RandomWalk_loop_types fuel scene maxDepth mode path0 : forall w w',
  0 <= path0 -> 0 <= w_bounces w ->
  no_light (w_path w) path0 (w_bounces w) ->
  RandomWalk_loop fuel scene maxDepth mode path0 w = Finished w' ->
  no_light (w_path w') path0 (w_bounces w' - 1) /\
  (mode = Importance -> no_light (w_path w') path0 (w_bounces w')).
Proof.
  induction fuel as [|fuel IH]; intros w w' Hp0 Hb Hn; simpl; [done|].
  destruct (RandomWalk_turn scene maxDepth mode path0 w) as [[flow w1]|] eqn:Hturn; [|done].
  apply RandomWalk_turn_types in Hturn as [Hb1 Hflow]; try done.
  destruct flow.
  - by intros [= <-].
  - by apply IH.
Qed.

(** Of the vertices a walk creates only the last can be a light, and in a
    walk from a light none is. *)
Lemma RandomWalk_types fuel scene ray sampler beta pdf maxDepth mode path path0 n path' sampler' :
  0 <= path0 ->
  RandomWalk fuel scene ray sampler beta pdf maxDepth mode path path0
    = Finished (n, path', sampler') ->
  no_light path' path0 (n - 1) /\ (mode = Importance -> no_light path' path0 n).
Proof.
  intros Hp0. unfold RandomWalk. destruct (maxDepth =? 0).
  { intros [= <- <- <-]. split; [|intros _]; intros i Hi; lia. }
  destruct (RandomWalk_loop _ _ _ _ _ _) as [w'| |] eqn:Hloop; simpl; [|done..].
  intros [= <- <- <-].
  apply RandomWalk_loop_types in Hloop; try done. simpl. intros i Hi. lia.
Qed.

(** A strategy that does not use the whole camera subpath is never rejected
    a priori: the test for a light at the end of the camera subpath can only
    succeed for [t] equal to the number of camera vertices. *)
Theorem only_the_last_camera_vertex_can_be_a_light
    fuel scene sampler maxDepth camera pFilm path n path' sampler' lights s t :
  GenerateCameraSubpath fuel scene sampler maxDepth camera pFilm path
    = Finished (n, path', sampler') ->
  1 <= t < n ->
  invalid_connection (mkSubpaths _ lights path') s t = Some false.
Proof.
  unfold GenerateCameraSubpath. destruct (maxDepth =? 0).
  { intros [= <- <- <-]. lia. }
  destruct (Get1D sampler) as [time sampler1].
  destruct (Get2D sampler1) as [pLens sampler2].
  destruct (GenerateRayDifferential camera pFilm time pLens) as [beta ray0].
  set (ray := ScaleDifferentials ray0 _).
  destruct (set_index path 0 _) as [path1|]; [|done]. simpl.
  destruct (Pdf_We camera ray) as [pdfPos pdfDir].
  destruct (RandomWalk _ _ _ _ _ _ _ _ _ _) as [[[k p] sm]| |] eqn:Hw; simpl; [|done..].
  intros [= <- <- <-] Ht.
  apply RandomWalk_types in Hw as [Hn _]; [|lia].
  unfold invalid_connection. simpl.
  destruct (1 <? t) eqn:E1; simpl; [|done].
  destruct (negb (s =? 0)); [|done].
  apply Z.ltb_lt in E1.
  destruct (Hn (t - 1)) as (v & -> & Hty); [lia|]. simpl.
  by destruct (type v).
Qed.

End VertexTypes.

(** * Proofs: one pixel sample *)

Lemma debug_splats_snoc `{Externals} `{!ConnectOps} vS vW cs c s t :
  debug_splats vS vW (cs ++ [c]) s t =
  debug_splats vS vW cs s t
  ++ (if decide (strategy_of c = (s, t)) then [(cn_pFilmNew c, debug_value vS vW c)] else []).
Proof.
  unfold debug_splats. rewrite filter_app, fmap_app. f_equal.
  rewrite filter_cons, filter_nil. by destruct (decide _).
Qed.

Section PixelProofs.
Context `{VertexDensities} `{!ConnectOps}.
Variables (scene : Scene) (camera : Camera) (lightDistribution : FixedLightDistribution).
Variables (maxDepth : Z) (visualizeStrategies visualizeWeights : bool).

(** The strategy loops return, having connected the pairs of
    [connected_strategies] in order. *)
Lemma connect_all_tracking pFilm nCamera nLight st :
  nCamera <= Z.of_nat (length (cameraVertices (ss_paths st))) ->
  nLight <= Z.of_nat (length (lightVertices (ss_paths st))) ->
  (visualizeStrategies || visualizeWeights = true ->
   films_ready maxDepth (ss_weightFilms st)) ->
  exists st',
    connect_all scene camera lightDistribution maxDepth visualizeStrategies
      visualizeWeights pFilm nCamera nLight st = Some (st', (pFilm, ss_L st')) /\
    tracking maxDepth (visualizeStrategies || visualizeWeights)
      (mkSampleState _ (ss_paths st) (ss_sampler st) black (ss_film st)
         (ss_weightFilms st) (ss_stats st) (ss_connections st))
      (connected_strategies maxDepth nCamera nLight) st'.
Proof.
  intros HnC HnL Hready. unfold connect_all.
  set (st0 := mkSampleState _ (ss_paths st) (ss_sampler st) black (ss_film st)
                (ss_weightFilms st) (ss_stats st) (ss_connections st)).
  destruct (for_each_trace (tracking maxDepth (visualizeStrategies || visualizeWeights) st0)
              (fun t => s ← upto 0 (nLight + 1);
                        if skipped maxDepth s t then [] else [(s, t)])
              (fun t st =>
                 for_each (upto 0 (nLight + 1))
                   (strategy scene camera lightDistribution maxDepth
                      visualizeStrategies visualizeWeights pFilm t) st)
              (upto 1 (nCamera + 1))) with (pre := @nil (Z * Z)) (st := st0)
    as (st' & Hrun & Htrack).
  - intros t pairs st1 Ht%elem_of_upto Htr.
    apply (for_each_trace (tracking maxDepth (visualizeStrategies || visualizeWeights) st0)
             (fun s => if skipped maxDepth s t then [] else [(s, t)])); [|done].
    intros s pairs' st2 Hs%elem_of_upto Htr2.
    apply (strategy_tracking scene camera lightDistribution maxDepth visualizeStrategies
             visualizeWeights pFilm nCamera nLight); try done; lia.
  - split; [done|]. split; [done|]. exists []. simpl. by rewrite !app_nil_r.
  - rewrite Hrun. simpl. exists st'. split; [done|]. exact Htrack.
Qed.

End PixelProofs.




Section PixelSampleProofs.
Context `{VertexDensities} `{!ConnectOps} `{!Geometry} `{!WalkOps}.
Variables (scene : Scene) (camera : Camera) (lightDistribution : FixedLightDistribution).
Variables (maxDepth : Z) (visualizeStrategies visualizeWeights : bool).

Lemma AllocArray_length n :
  0 <= n -> exists a, AllocArray n = Some a /\ Z.of_nat (length a) = n.
Proof.
  intros Hn. unfold AllocArray. destruct (Z.ltb_spec n 0); [lia|].
  eexists. split; [done|]. rewrite length_replicate. lia.
Qed.

Lemma pixel_sample_frame fuel leftToRight pPixel sampleIndex st :
  0 <= maxDepth ->
  (visualizeStrategies || visualizeWeights = true ->
   films_ready maxDepth (ss_weightFilms st)) ->
  match pixel_sample scene camera lightDistribution maxDepth visualizeStrategies
          visualizeWeights fuel leftToRight pPixel sampleIndex st with
  | Finished (st', sample) =>
      (visualizeStrategies || visualizeWeights = true ->
       films_ready maxDepth (ss_weightFilms st')) /\
      exists nCamera nLight new,
        1 <= nCamera <= maxDepth + 2 /\ 0 <= nLight <= maxDepth + 1 /\
        Z.of_nat (length (cameraVertices (ss_paths st'))) = maxDepth + 2 /\
        Z.of_nat (length (lightVertices (ss_paths st'))) = maxDepth + 1 /\
        ss_connections st' = ss_connections st ++ new /\
        strategy_of <$> new = connected_strategies maxDepth nCamera nLight /\
        ss_film st' = ss_film st ++ splats_of new /\
        sample.2 = radiance_of black new
  | Fault => False
  | Unfinished => True
  end.
Proof.
  intros Hm Hready. unfold pixel_sample.
  destruct (Get2D _) as [u sampler1].
  destruct (AllocArray_length (maxDepth + 2)) as (cam & -> & Hcam); [lia|].
  destruct (AllocArray_length (maxDepth + 1)) as (lgt & -> & Hlgt); [lia|].
  simpl. set (pFilm := (Flt.add _ _, Flt.add _ _)).
  pose proof (GenerateCameraSubpath_frame fuel scene sampler1 (maxDepth + 2) camera pFilm
                cam ltac:(lia)) as Hc.
  destruct (GenerateCameraSubpath _ _ _ _ _ _ _) as [[[nCamera cam'] sampler2]| |];
    simpl; [|done..].
  destruct Hc as (_ & HnC & [HlenC _] & _). specialize (HnC ltac:(lia)).
  destruct (at_index_in_range cam' 0) as [first ->]; [lia|]. simpl.
  pose proof (GenerateLightSubpath_frame fuel leftToRight scene sampler2 (maxDepth + 1)
                (vertex_time first) lightDistribution lgt ltac:(lia)) as Hl.
  destruct (GenerateLightSubpath _ _ _ _ _ _ _ _) as [[[nLight lgt'] sampler3]| |];
    simpl; [|done..].
  destruct Hl as (HnL & [HlenL _] & _).
  destruct (connect_all_tracking scene camera lightDistribution maxDepth
              visualizeStrategies visualizeWeights pFilm nCamera nLight
              (mkSampleState _ (mkSubpaths _ lgt' cam') sampler3 (ss_L st)
                 (ss_film st) (ss_weightFilms st) (ss_stats st) (ss_connections st)))
    as (st' & -> & Hpaths & Hfilms & new & Hconn & Hpairs & Hfilm & HL);
    simpl; [lia|lia|done|].
  simpl in *. split; [exact Hfilms|]. exists nCamera, nLight, new.
  rewrite Hpaths. simpl. repeat apply conj; try done; lia.
Qed.


(** In a scene where every intersection found has a BSDF, a pixel sample
    returns once its walks may make [maxDepth + 1] turns each. *)
Theorem pixel_sample_returns fuel leftToRight pPixel sampleIndex st :
  (forall isect ray mode, has_bsdf (ComputeScatteringFunctions isect ray mode) = true) ->
  0 <= maxDepth -> maxDepth + 1 <= Z.of_nat fuel ->
  (visualizeStrategies || visualizeWeights = true ->
   films_ready maxDepth (ss_weightFilms st)) ->
  exists st' sample,
    pixel_sample scene camera lightDistribution maxDepth visualizeStrategies
      visualizeWeights fuel leftToRight pPixel sampleIndex st = Finished (st', sample).
Proof.
  intros Hscatter Hm Hfuel Hready.
  pose proof (pixel_sample_frame fuel leftToRight pPixel sampleIndex st Hm Hready) as Hp.
  revert Hp. unfold pixel_sample.
  destruct (Get2D _) as [u sampler1].
  destruct (AllocArray_length (maxDepth + 2)) as (cam & -> & Hcam); [lia|].
  destruct (AllocArray_length (maxDepth + 1)) as (lgt & -> & Hlgt); [lia|].
  simpl. set (pFilm := (Flt.add _ _, Flt.add _ _)).
  destruct (GenerateCameraSubpath_finishes Hscatter fuel scene sampler1 (maxDepth + 2)
              camera pFilm cam) as (nCamera & cam' & sampler2 & ->); [lia|lia|].
  simpl. destruct (at_index cam' 0) as [first|]; simpl; [|done].
  destruct (GenerateLightSubpath_finishes Hscatter fuel leftToRight scene sampler2
              (maxDepth + 1) (vertex_time first) lightDistribution lgt)
    as (nLight & lgt' & sampler3 & ->); [lia|lia|].
  simpl. destruct (connect_all _ _ _ _ _ _ _ _ _ _) as [[st' sample]|]; simpl; [|done].
  intros _. by eexists _, _.
Qed.

Variable Clone : Sampler -> Sampler.
Variable InsideExclusive : Z * Z -> bool.


End PixelSampleProofs.

(** A loop that returns keeps what each of its turns keeps. *)
Lemma for_each_preserves {S} (P : S -> Prop) (body : Z -> S -> option S) indices :
  (forall i st st', i ∈ indices -> P st -> body i st = Some st' -> P st') ->
  forall st st', P st -> for_each indices body st = Some st' -> P st'.
Proof.
  induction indices as [|i rest IH]; intros Hbody st st' HP; simpl.
  - by intros [= <-].
  - destruct (body i st) as [st1|] eqn:E; [|done]. simpl.
    apply IH.
    + intros j s1 s2 Hj. apply Hbody. by right.
    + eapply Hbody; [left|done..].
Qed.

Section FilmProofs.
Context `{VertexDensities} `{!ConnectOps}.
Variables (scene : Scene) (camera : Camera) (lightDistribution : FixedLightDistribution).
Variables (maxDepth : Z) (visualizeStrategies visualizeWeights : bool).

Lemma strategy_films pFilm t s st0 st st' :
  visualizeStrategies || visualizeWeights = true ->
  1 <= t -> 0 <= s ->
  films_track maxDepth visualizeStrategies visualizeWeights st0 st ->
  strategy scene camera lightDistribution maxDepth visualizeStrategies visualizeWeights
    pFilm t s st = Some st' ->
  films_track maxDepth visualizeStrategies visualizeWeights st0 st'.
Proof.
  intros Hvis Ht Hs (new & Hconn & Hfilms). unfold strategy.
  destruct (skipped maxDepth s t) eqn:Eskip.
  { intros [= <-]. by exists new. }
  apply skipped_false in Eskip as [Hne Hd].
  assert (Hst : enumerated maxDepth s t).
  { exists (s + t - 2). repeat apply conj; lia. }
  destruct (ConnectBDPT _ _ _ _ _ _ _ _ _ _) as [r|]; [|done]. simpl.
  rewrite Hvis.
  set (pFilmNew := c_pRaster r). set (misWeight := default Flt.zero (c_misWeight r)).
  set (c := mkConnection s t pFilmNew (c_L r) misWeight).
  set (value := if visualizeWeights then _ else _).
  assert (Hvalue : value = debug_value visualizeStrategies visualizeWeights c).
  { unfold value, debug_value. simpl.
    by destruct visualizeWeights, visualizeStrategies. }
  unfold splat_weightFilm.
  destruct (Hfilms s t Hst) as (film & Hold & Hcur). rewrite Hcur. simpl.
  destruct (set_index _ _ _) as [films'|] eqn:Hset; [|done]. simpl.
  assert (Hnew : films_track maxDepth visualizeStrategies visualizeWeights st0
                   (mkSampleState _ (c_paths r) (c_sampler r) (ss_L st) (ss_film st)
                      films' (c_stats r) (ss_connections st ++ [c]))).
  { exists (new ++ [c]). simpl. split; [by rewrite Hconn, app_assoc|].
    intros s' t' Hst'. destruct (Hfilms s' t' Hst') as (film' & Hold' & Hcur').
    exists film'. split; [done|]. rewrite debug_splats_snoc.
    destruct (decide (strategy_of c = (s', t'))) as [E|E].
    - injection E as <- <-.
      rewrite (at_index_set_index _ _ _ _ Hset). rewrite Hold in Hold'.
      injection Hold' as <-. by rewrite <- app_assoc, Hvalue.
    - rewrite app_nil_r, <- Hcur'.
      apply (at_index_set_index_ne _ _ _ _ _ Hset).
      intros Heq. apply E. apply (BufferIndex_injective maxDepth); [|done..].
      apply (films_ready_depth maxDepth (ss_weightFilms st0)).
      intros s0 t0 Hst0. destruct (Hfilms s0 t0 Hst0) as (film0 & Hold0 & _).
      by exists film0. }
  destruct (negb (t =? 1)); intros [= <-].
  - destruct Hnew as (new' & Hc' & Hf'). by exists new'.
  - destruct Hnew as (new' & Hc' & Hf'). by exists new'.
Qed.

(** With the debug films in use, one pixel sample adds to the film of each
    enumerated strategy exactly the splats of the connections made for that
    strategy: one for a strategy that is connected, none for the others; no
    splat lands in the film of another strategy. *)
Theorem debug_films_receive_their_own_splats pFilm nCamera nLight st :
  visualizeStrategies || visualizeWeights = true ->
  films_ready maxDepth (ss_weightFilms st) ->
  nCamera <= Z.of_nat (length (cameraVertices (ss_paths st))) ->
  nLight <= Z.of_nat (length (lightVertices (ss_paths st))) ->
  exists st' new,
    connect_all scene camera lightDistribution maxDepth visualizeStrategies
      visualizeWeights pFilm nCamera nLight st = Some (st', (pFilm, ss_L st')) /\
    ss_connections st' = ss_connections st ++ new /\
    forall s t, enumerated maxDepth s t ->
      exists film,
        at_index (ss_weightFilms st) (BufferIndex s t) = Some (Some film) /\
        at_index (ss_weightFilms st') (BufferIndex s t)
        = Some (Some (film ++ debug_splats visualizeStrategies visualizeWeights new s t)) /\
        length (debug_splats visualizeStrategies visualizeWeights new s t)
        = if decide (valid_strategy maxDepth nCamera nLight s t) then 1%nat else 0%nat.
Proof.
  intros Hvis Hready HnC HnL.
  destruct (connect_all_tracking scene camera lightDistribution maxDepth
              visualizeStrategies visualizeWeights pFilm nCamera nLight st)
    as (st' & Hrun & _ & _ & new & Hconn & Hpairs & _); try done.
  simpl in Hconn.
  exists st', new. split; [done|]. split; [done|].
  set (st0 := mkSampleState _ (ss_paths st) (ss_sampler st) black (ss_film st)
                (ss_weightFilms st) (ss_stats st) (ss_connections st)).
  assert (Htrack : films_track maxDepth visualizeStrategies visualizeWeights st0 st').
  { unfold connect_all in Hrun. fold st0 in Hrun.
    apply bind_Some in Hrun as (st1 & Hloop & [= <- _]).
    revert Hloop.
    apply (for_each_preserves
             (films_track maxDepth visualizeStrategies visualizeWeights st0)).
    - intros t sa sb Ht%elem_of_upto Hsa.
      apply (for_each_preserves
               (films_track maxDepth visualizeStrategies visualizeWeights st0)); [|done].
      intros s sc sd Hs%elem_of_upto Hsc. apply strategy_films; try done; lia.
    - exists []. split; [by rewrite app_nil_r|]. intros s t Hst.
      destruct (Hready s t Hst) as [film Hfilm]. exists film. simpl.
      split; [done|]. by rewrite app_nil_r. }
  destruct Htrack as (new' & Hconn' & Hfilms). unfold st0 in Hconn', Hfilms.
  simpl in Hconn', Hfilms.
  rewrite Hconn in Hconn'. apply app_inv_head in Hconn' as <-.
  intros s t Hst. destruct (Hfilms s t Hst) as (film & Hold & Hcur).
  exists film. split; [done|]. split; [done|].
  unfold debug_splats. rewrite length_fmap.
  change (length (filter (fun c => strategy_of c = (s, t)) new)) with (invocations new s t).
  rewrite invocations_NoDup by (rewrite Hpairs; apply NoDup_connected_strategies).
  rewrite Hpairs.
  destruct (decide (valid_strategy maxDepth nCamera nLight s t)) as [Hv|Hv].
  - rewrite decide_True; [done|]. by apply elem_of_connected_strategies.
  - rewrite decide_False; [done|]. by rewrite elem_of_connected_strategies.
Qed.

(** Only a [t = 1] strategy moves the raster position; an [s = 0] strategy
    draws no sample. *)
Theorem connection_keeps_the_raster_position
    m s t lightDistr sampler pRaster mw stats r :
  ConnectBDPT scene m s t lightDistr camera sampler pRaster mw stats = Some r ->
  (t <> 1 \/ s = 0 -> c_pRaster r = pRaster) /\
  (s = 0 -> c_sampler r = sampler).
Proof.
  unfold ConnectBDPT. intros Hr.
  apply bind_Some in Hr as ([] & Hi & Hr); [by injection Hr as <-|].
  apply bind_Some in Hr as ([[[Lc sampled] pR] smp] & Hc & Hr).
  apply bind_Some in Hr as ([[w m'] calls] & _ & [= <-]). simpl.
  revert Hc. unfold connect_contribution. cbv zeta.
  destruct (Z.eqb_spec s 0) as [->|Hs0].
  { intros Hc. apply bind_Some in Hc as (pt & _ & Hc).
    destruct (IsLight pt).
    - apply bind_Some in Hc as (prev & _ & [= _ _ <- <-]). done.
    - injection Hc as _ _ <- <-. done. }
  destruct (Z.eqb_spec t 1) as [->|Ht1].
  { intros _. split; [intros [?|?]; done|done]. }
  intros Hc. split; [intros _|done].
  destruct (Z.eqb_spec s 1) as [->|Hs1].
  - apply bind_Some in Hc as (pt & _ & Hc).
    destruct (IsConnectible pt); [|by injection Hc as _ _ <- _].
    destruct (Get1D sampler) as [u1 sampler1].
    destruct (Sample_light _ _) as [light lightPdf].
    destruct (Get2D sampler1) as [u2 sampler2].
    destruct (_ && _); [|by injection Hc as _ _ <- _].
    destruct (Sp.nonzero _); [|by injection Hc as _ _ <- _].
    destruct (Tr _ _ _). by injection Hc as _ _ <- _.
  - apply bind_Some in Hc as (qs & _ & Hc). apply bind_Some in Hc as (pt & _ & Hc).
    destruct (_ && _); [|by injection Hc as _ _ <- _].
    destruct (Sp.nonzero _); [|by injection Hc as _ _ <- _].
    destruct (G _ _ _ _). by injection Hc as _ _ <- _.
Qed.

End FilmProofs.

(** * Proofs: the chains and the bootstrap *)

Lemma upto_snoc lo hi : lo <= hi -> upto lo (hi + 1) = upto lo hi ++ [hi].
Proof.
  intros Hle. unfold upto.
  replace (Z.to_nat (hi + 1 - lo)) with (S (Z.to_nat (hi - lo))) by lia.
  rewrite seq_S, fmap_app. simpl. do 2 f_equal. lia.
Qed.

Lemma upto_empty lo hi : hi <= lo -> upto lo hi = [].
Proof. intros Hle. unfold upto. by replace (Z.to_nat (hi - lo)) with 0%nat by lia. Qed.

(** A counting loop keeps an invariant of its index. *)
Lemma foldl_upto_invariant {St} (P : Z -> St -> Prop) (f : St -> Z -> St) lo hi st :
  lo <= hi -> P lo st ->
  (forall i st, lo <= i < hi -> P i st -> P (i + 1) (f st i)) ->
  P hi (foldl f st (upto lo hi)).
Proof.
  intros Hle Hstart Hstep.
  assert (Hgen : forall n : nat, lo + Z.of_nat n <= hi ->
                   P (lo + Z.of_nat n) (foldl f st (upto lo (lo + Z.of_nat n)))).
  { induction n as [|n IH]; intros Hn.
    - rewrite Z.add_0_r, upto_empty by lia. done.
    - replace (lo + Z.of_nat (S n)) with (lo + Z.of_nat n + 1) by lia.
      rewrite upto_snoc by lia. rewrite foldl_app. simpl.
      apply Hstep; [lia|]. apply IH. lia. }
  specialize (Hgen (Z.to_nat (hi - lo)) ltac:(lia)).
  by replace (lo + Z.of_nat (Z.to_nat (hi - lo))) with hi in Hgen by lia.
Qed.

Lemma updates_below_succ m :
  0 <= m ->
  updates_below (m + 1) =
  updates_below m + (if Z.rem m progressFrequency =? 0 then 1 else 0).
Proof.
  intros Hm. unfold updates_below, progressFrequency.
  rewrite Z.rem_mod_nonneg by lia.
  destruct (Z.eqb_spec (m mod 32768) 0); Z.to_euclidean_division_equations; lia.
Qed.

Lemma quot_step x r n :
  0 <= x -> 0 <= r <= n -> 0 < n ->
  Z.quot x n <= Z.quot (x + r) n <= Z.quot x n + 1.
Proof.
  intros Hx Hr Hn. rewrite !Z.quot_div_nonneg by lia. split.
  - apply Z.div_le_mono; lia.
  - transitivity ((x + 1 * n) / n).
    + apply Z.div_le_mono; lia.
    + rewrite Z.div_add by lia. lia.
Qed.

Section ChainProofs.
Context `{PathOps}.
Variables (scene : MLTScene).
Variables (maxDepth nBootstrap nChains mutationsPerPixel : Z).
Variables (sigma_ largeStepProbability_ : Float).

Lemma chain_step_spent nTotalMutations i depth j c r0 :
  0 <= Z.quot (i * nTotalMutations) nChains + j ->
  spent r0 (Z.quot (i * nTotalMutations) nChains + j) (rendering_of c) ->
  spent r0 (Z.quot (i * nTotalMutations) nChains + (j + 1))
    (rendering_of (chain_step scene nChains nTotalMutations i depth j c)).
Proof.
  intros Hpos (Htot & Hacc & Hfilm & Hprog). simpl in *.
  unfold chain_step.
  destruct (L scene (StartIteration (ch_sampler c)) depth) as [[LProposed pProposed] sm].
  destruct (UniformFloat (ch_rng c)) as [u r].
  unfold spent. rewrite !Z.add_assoc, updates_below_succ by done.
  set (q := Z.quot (i * nTotalMutations) nChains + j) in *.
  destruct (Z.rem q progressFrequency =? 0), (Flt.ltb u _), (Flt.ltb Flt.zero _); simpl;
    rewrite ?length_app; simpl; repeat apply conj; lia.
Qed.

Lemma run_chain_spent nTotalMutations i depth n c r0 :
  0 <= n -> 0 <= Z.quot (i * nTotalMutations) nChains ->
  spent r0 (Z.quot (i * nTotalMutations) nChains) (rendering_of c) ->
  spent r0 (Z.quot (i * nTotalMutations) nChains + n)
    (rendering_of (run_chain scene nChains nTotalMutations i depth n c)).
Proof.
  intros Hn Hq Hs. unfold run_chain.
  apply (foldl_upto_invariant
           (fun j c => spent r0 (Z.quot (i * nTotalMutations) nChains + j) (rendering_of c))
           (fun c j => chain_step scene nChains nTotalMutations i depth j c) 0 n c);
    [done|by rewrite Z.add_0_r|].
  intros j c1 Hj Hc1. apply chain_step_spent; [lia|done].
Qed.

Lemma nChainMutations_quot nTotalMutations i :
  1 <= nChains -> 0 <= nTotalMutations -> 0 <= i < nChains ->
  nChainMutations nChains nTotalMutations i
  = Z.quot ((i + 1) * nTotalMutations) nChains - Z.quot (i * nTotalMutations) nChains.
Proof.
  intros Hc Hn Hi. unfold nChainMutations. cbv zeta.
  destruct (Z.ltb_spec nTotalMutations (Z.quot ((i + 1) * nTotalMutations) nChains)) as [Hlt|];
    [|done].
  rewrite Z.quot_div_nonneg in Hlt by nia.
  assert ((i + 1) * nTotalMutations / nChains <= nTotalMutations); [|lia].
  apply Z.div_le_upper_bound; nia.
Qed.

Lemma follow_chain_spent nTotalMutations bootstrap i r r0 :
  1 <= nChains -> 0 <= nTotalMutations -> 0 <= i < nChains ->
  spent r0 (Z.quot (i * nTotalMutations) nChains) r ->
  spent r0 (Z.quot ((i + 1) * nTotalMutations) nChains)
    (follow_chain scene maxDepth nChains mutationsPerPixel sigma_ largeStepProbability_
       nTotalMutations bootstrap i r).
Proof.
  intros Hc Hn Hi Hs. unfold follow_chain. cbv zeta.
  rewrite nChainMutations_quot by done.
  pose proof (quot_step (i * nTotalMutations) nTotalMutations nChains) as Hstep.
  replace (i * nTotalMutations + nTotalMutations) with ((i + 1) * nTotalMutations)
    in Hstep by ring.
  assert (Hq : 0 <= Z.quot (i * nTotalMutations) nChains)
    by (rewrite Z.quot_div_nonneg by nia; apply Z.div_pos; nia).
  assert (Hle : Z.quot (i * nTotalMutations) nChains
                <= Z.quot ((i + 1) * nTotalMutations) nChains).
  { rewrite !Z.quot_div_nonneg by nia. apply Z.div_le_mono; nia. }
  unfold start_chain.
  destruct (UniformFloat (seeded i)) as [u r1].
  destruct (L scene _ _) as [[Lc pc] sm].
  match goal with
  | |- spent r0 ?q (mkRendering (ch_film ?c) _ _ _) =>
      change (spent r0 q (rendering_of c))
  end.
  replace (Z.quot ((i + 1) * nTotalMutations) nChains)
    with (Z.quot (i * nTotalMutations) nChains
          + (Z.quot ((i + 1) * nTotalMutations) nChains
             - Z.quot (i * nTotalMutations) nChains)) at 1 by lia.
  apply run_chain_spent; [lia|done|]. by destruct r.
Qed.

Lemma run_chains_spent nLights nTotalMutations bootstrap r :
  1 <= nChains -> 0 <= nTotalMutations -> 0 < nLights ->
  spent r nTotalMutations
    (run_chains scene maxDepth nChains mutationsPerPixel sigma_ largeStepProbability_
       nLights nTotalMutations bootstrap r).
Proof.
  intros Hc Hn Hl. unfold run_chains.
  destruct (Z.ltb_spec 0 nLights); [|lia].
  pose proof (foldl_upto_invariant
           (fun i r1 => spent r (Z.quot (i * nTotalMutations) nChains) r1)
           (fun r1 i => follow_chain scene maxDepth nChains mutationsPerPixel sigma_
                          largeStepProbability_ nTotalMutations bootstrap i r1)
           0 nChains r ltac:(lia)) as Hinv.
  cbv beta in Hinv.
  replace (Z.quot (nChains * nTotalMutations) nChains) with nTotalMutations in Hinv.
  2:{ rewrite Z.mul_comm, Z.quot_mul; lia. }
  apply Hinv.
  - rewrite Z.mul_0_l, Z.quot_0_l by lia. unfold spent.
    change (updates_below 0) with 0. repeat apply conj; lia.
  - intros i r1 Hi Hr1. by apply follow_chain_spent.
Qed.


(** The chains update the progress once for every multiple of
    [progressFrequency] below [nTotalMutations]: one update more than the
    total announced to the reporter, unless the budget is a multiple of
    [progressFrequency]. *)
Theorem chains_update_progress_once_per_period nLights nTotalMutations bootstrap r :
  1 <= nChains -> 0 <= nTotalMutations -> 0 < nLights ->
  r_progress
    (run_chains scene maxDepth nChains mutationsPerPixel sigma_ largeStepProbability_
       nLights nTotalMutations bootstrap r)
  = r_progress r + progress_total nTotalMutations
    + (if Z.rem nTotalMutations progressFrequency =? 0 then 0 else 1).
Proof.
  intros Hc Hn Hl.
  destruct (run_chains_spent nLights nTotalMutations bootstrap r Hc Hn Hl)
    as (_ & _ & _ & ->).
  unfold updates_below, progress_total, progressFrequency.
  rewrite Z.rem_mod_nonneg, Z.quot_div_nonneg by lia.
  destruct (Z.eqb_spec (nTotalMutations mod 32768) 0);
    Z.to_euclidean_division_equations; lia.
Qed.

Lemma acceptance_of_zero_luminance LProposed LCurrent :
  Flt.eqb (y LProposed) Flt.zero = true -> lit LCurrent ->
  exists s, acceptance LProposed LCurrent = S754_zero s.
Proof.
  unfold acceptance, lit. intros Hzero [Hnz Hnan].
  destruct (y LProposed) as [sp|sp| |sp mp ep];
    [|by destruct sp|done|by destruct sp].
  destruct (y LCurrent) as [sc|sc| |sc mc ec]; [done| |done|].
  - by exists (xorb sp sc).
  - by exists (xorb sp sc).
Qed.

Lemma below_zero u s : Flt.ltb u Flt.zero = false -> Flt.ltb u (S754_zero s) = false.
Proof. by destruct u. Qed.

Lemma zero_luminance_rejected_current nTotalMutations i depth j c :
  Flt.eqb (y (L scene (StartIteration (ch_sampler c)) depth).1.1) Flt.zero = true ->
  lit (LCurrent c) ->
  Flt.ltb (UniformFloat (ch_rng c)).1 Flt.zero = false ->
  LCurrent (chain_step scene nChains nTotalMutations i depth j c) = LCurrent c.
Proof.
  intros Hzero Hlit Hu. unfold chain_step.
  destruct (L scene (StartIteration (ch_sampler c)) depth) as [[LProposed pProposed] sampler].
  simpl in Hzero.
  destruct (acceptance_of_zero_luminance LProposed (LCurrent c) Hzero Hlit) as [s ->].
  destruct (UniformFloat (ch_rng c)) as [u r]. simpl in Hu.
  by rewrite (below_zero u s Hu).
Qed.

(** A proposal of zero luminance is not splatted and not accepted: the
    step splats the current state with weight one and rejects. *)
Theorem zero_luminance_proposal_is_rejected nTotalMutations i depth j c :
  Flt.eqb (y (L scene (StartIteration (ch_sampler c)) depth).1.1) Flt.zero = true ->
  lit (LCurrent c) ->
  Flt.ltb (UniformFloat (ch_rng c)).1 Flt.zero = false ->
  LCurrent (chain_step scene nChains nTotalMutations i depth j c) = LCurrent c /\
  pCurrent (chain_step scene nChains nTotalMutations i depth j c) = pCurrent c /\
  ch_sampler (chain_step scene nChains nTotalMutations i depth j c)
    = Reject (L scene (StartIteration (ch_sampler c)) depth).2 /\
  acceptedMutations (chain_step scene nChains nTotalMutations i depth j c)
    = acceptedMutations c /\
  totalMutations (chain_step scene nChains nTotalMutations i depth j c)
    = totalMutations c + 1 /\
  ch_film (chain_step scene nChains nTotalMutations i depth j c)
    = ch_film c ++ [(pCurrent c,
                     Sp.divide (Sp.scale (LCurrent c) Flt.one) (y (LCurrent c)))].
Proof.
  intros Hzero Hlit Hu. unfold chain_step.
  destruct (L scene (StartIteration (ch_sampler c)) depth) as [[LProposed pProposed] sampler].
  simpl in Hzero.
  destruct (acceptance_of_zero_luminance LProposed (LCurrent c) Hzero Hlit) as [s ->].
  destruct (UniformFloat (ch_rng c)) as [u r]. simpl in Hu.
  rewrite (below_zero u s Hu).
  replace (Flt.ltb Flt.zero (S754_zero s)) with false by (by destruct s).
  replace (Flt.sub Flt.one (S754_zero s)) with Flt.one by (by destruct s).
  done.
Qed.

Lemma chain_step_lit nTotalMutations i depth j c :
  (forall sm d, Flt.eqb (y (L scene sm d).1.1) (y (L scene sm d).1.1) = true) ->
  (forall r, Flt.ltb (UniformFloat r).1 Flt.zero = false) ->
  lit (LCurrent c) ->
  lit (LCurrent (chain_step scene nChains nTotalMutations i depth j c)).
Proof.
  intros Hnan Hu Hlit.
  destruct (Flt.eqb (y (L scene (StartIteration (ch_sampler c)) depth).1.1) Flt.zero)
    eqn:Hzero.
  - by rewrite (zero_luminance_rejected_current nTotalMutations i depth j c Hzero Hlit
                  (Hu (ch_rng c))).
  - specialize (Hnan (StartIteration (ch_sampler c)) depth). revert Hzero Hnan.
    unfold chain_step.
    destruct (L scene (StartIteration (ch_sampler c)) depth)
      as [[LProposed pProposed] sampler].
    simpl. intros Hzero Hnan.
    destruct (UniformFloat (ch_rng c)) as [u r].
    destruct (Flt.ltb u _); simpl; [by split|done].
Qed.

(** A chain whose current state has a luminance that is neither zero nor
    NaN stays on such states: a proposal of zero luminance is never
    accepted, so no step divides by a zero luminance of the current state. *)
Theorem chain_keeps_nonzero_luminance nTotalMutations i depth nChainMutations c :
  (forall sm d, Flt.eqb (y (L scene sm d).1.1) (y (L scene sm d).1.1) = true) ->
  (forall r, Flt.ltb (UniformFloat r).1 Flt.zero = false) ->
  lit (LCurrent c) ->
  lit (LCurrent (run_chain scene nChains nTotalMutations i depth nChainMutations c)).
Proof.
  intros Hnan Hu. unfold run_chain. generalize (upto 0 nChainMutations). intros steps.
  revert c. induction steps as [|j steps IH]; intros c Hlit; simpl; [done|].
  apply IH. by apply chain_step_lit.
Qed.

End ChainProofs.

Lemma at_index_is_Some {A} (a : list A) i :
  is_Some (at_index a i) <-> 0 <= i < Z.of_nat (length a).
Proof.
  split.
  - intros [x Hx]. by eapply at_index_range.
  - apply at_index_in_range.
Qed.

(** Two arrays with the same elements at every index are the same. *)
Lemma at_index_ext {A} (a b : list A) :
  (forall k, 0 <= k -> at_index a k = at_index b k) -> a = b.
Proof.
  intros Heq. apply list_eq. intros i.
  specialize (Heq (Z.of_nat i) ltac:(lia)). unfold at_index in Heq.
  destruct (Z.ltb_spec (Z.of_nat i) 0); [lia|]. by rewrite Nat2Z.id in Heq.
Qed.

Section BootstrapProofs.
Context `{PathOps}.
Variables (scene : MLTScene).
Variables (maxDepth nBootstrap nChains mutationsPerPixel : Z).
Variables (sigma_ largeStepProbability_ : Float).

Lemma bootstrap_chunks_write chunks : forall b,
  0 <= maxDepth -> proper_chunks nBootstrap chunks ->
  length (bootstrapWeights b) = Z.to_nat (nBootstrap * (maxDepth + 1)) ->
  exists b',
    bootstrap_chunks scene maxDepth mutationsPerPixel sigma_ largeStepProbability_
      chunks b = Some b' /\
    bootstrapProgress b' = bootstrapProgress b /\
    forall k, 0 <= k ->
      at_index (bootstrapWeights b') k =
      if decide (in_chunks maxDepth chunks k)
      then Some (bootstrap_weight scene maxDepth mutationsPerPixel sigma_
                   largeStepProbability_ k)
      else at_index (bootstrapWeights b) k.
Proof.
  induction chunks as [|[start end_] rest IH]; intros b Hm Hproper Hlen.
  { exists b. split; [done|]. split; [done|]. intros k Hk.
    rewrite decide_False; [done|]. unfold in_chunks. intros Hex. by apply Exists_nil in Hex. }
  apply Forall_cons in Hproper as [Hhead Hrest]. simpl in Hhead.
  destruct Hhead as [Hstart Hend].
  cbn [bootstrap_chunks].
  destruct (bootstrap_loop_writes scene maxDepth nBootstrap mutationsPerPixel sigma_
              largeStepProbability_ progress_due start end_ b)
    as (b1 & Hrun & Hb1); try done.
  destruct (bootstrap_loop_weights scene maxDepth nBootstrap mutationsPerPixel sigma_
              largeStepProbability_ (upto start end_) b) as (weights & Hw); try done.
  { intros i Hi%elem_of_upto. lia. }
  destruct (Hw progress_due) as (progress & Hrun' & Hprog).
  pose proof Hrun as Hrun0. unfold bootstrap_loop in Hrun0.
  rewrite Hrun' in Hrun0. injection Hrun0 as <-. cbn [bootstrapWeights] in Hb1.
  unfold bootstrap_chunk. rewrite Hrun. cbn [mbind option_bind].
  assert (Hlen1 : length weights = Z.to_nat (nBootstrap * (maxDepth + 1))).
  { rewrite <- Hlen. apply Nat2Z.inj.
    destruct (Z.lt_trichotomy (Z.of_nat (length weights))
                (Z.of_nat (length (bootstrapWeights b)))) as [Hlt|[Heq|Hgt]]; [|done|].
    - exfalso.
      assert (Hin : is_Some (at_index (bootstrapWeights b) (Z.of_nat (length weights))))
        by (apply at_index_is_Some; lia).
      assert (Hout : ~ is_Some (at_index weights (Z.of_nat (length weights))))
        by (rewrite at_index_is_Some; lia).
      apply Hout. specialize (Hb1 (Z.of_nat (length weights)) ltac:(lia)).
      simpl in Hb1. rewrite Hb1. destruct (decide _); [by eexists|done].
    - exfalso.
      set (k := Z.of_nat (length (bootstrapWeights b))) in *.
      assert (Hin : is_Some (at_index weights k)) by (apply at_index_is_Some; lia).
      specialize (Hb1 k ltac:(lia)). simpl in Hb1. rewrite Hb1 in Hin.
      destruct (decide _) as [Hd|Hd].
      + assert (k < nBootstrap * (maxDepth + 1)).
        { destruct Hd as [_ Hd].
          pose proof (Z.div_mod k (maxDepth + 1) ltac:(lia)).
          pose proof (Z.mod_pos_bound k (maxDepth + 1) ltac:(lia)). nia. }
        unfold k in *. lia.
      + apply at_index_is_Some in Hin. lia. }
  destruct (IH (mkBootstrap weights progress) Hm Hrest Hlen1) as (b' & -> & Hp' & Hb').
  exists b'. split; [done|]. split.
  - rewrite Hp'. simpl. apply Hprog. intros i Hi%elem_of_upto.
    apply progress_due_false. lia.
  - intros k Hk. rewrite (Hb' k Hk). cbn [bootstrapWeights]. rewrite (Hb1 k Hk).
    unfold in_chunks. destruct (decide (Exists _ rest)) as [Hin|Hnin].
    + rewrite decide_True; [done|]. by apply Exists_cons_tl.
    + destruct (decide (start <= k / (maxDepth + 1) < end_)) as [Hhere|Hnot].
      * rewrite decide_True; [done|]. by apply Exists_cons_hd.
      * rewrite decide_False; [done|]. intros [?|?]%Exists_cons; done.
Qed.

(** The bootstrap weights do not depend on how the loop is cut into chunks
    nor on the order in which the chunks run: every weight whose sample lies
    in a chunk holds the luminance of that sample, the others are as they
    were, and no chunk updates the progress. *)
Theorem bootstrap_weights_do_not_depend_on_the_schedule chunks chunks' b :
  0 <= maxDepth -> proper_chunks nBootstrap chunks -> chunks' ≡ₚ chunks ->
  length (bootstrapWeights b) = Z.to_nat (nBootstrap * (maxDepth + 1)) ->
  exists b',
    bootstrap_chunks scene maxDepth mutationsPerPixel sigma_ largeStepProbability_
      chunks b = Some b' /\
    bootstrap_chunks scene maxDepth mutationsPerPixel sigma_ largeStepProbability_
      chunks' b = Some b' /\
    bootstrapProgress b' = bootstrapProgress b /\
    forall k, 0 <= k ->
      at_index (bootstrapWeights b') k =
      if decide (in_chunks maxDepth chunks k)
      then Some (bootstrap_weight scene maxDepth mutationsPerPixel sigma_
                   largeStepProbability_ k)
      else at_index (bootstrapWeights b) k.
Proof.
  intros Hm Hproper Hperm Hlen.
  destruct (bootstrap_chunks_write chunks b Hm Hproper Hlen) as (b1 & Hrun1 & Hp1 & Hb1).
  destruct (bootstrap_chunks_write chunks' b Hm) as (b2 & Hrun2 & Hp2 & Hb2); [|done|].
  { unfold proper_chunks. by rewrite Hperm. }
  exists b1. split; [done|]. split; [|done].
  rewrite Hrun2. f_equal. destruct b1 as [w1 p1], b2 as [w2 p2]. simpl in *.
  f_equal; [|congruence].
  apply at_index_ext. intros k Hk. rewrite (Hb1 k Hk), (Hb2 k Hk).
  unfold in_chunks.
  destruct (decide (Exists _ chunks')) as [Hin|Hnin].
  - rewrite decide_True; [done|]. by rewrite <- Hperm.
  - rewrite decide_False; [done|]. by rewrite <- Hperm.
Qed.

End BootstrapProofs.

(** * Proofs: the streams of the sampler *)

Section StreamProofs.
Context `{RandomOps}.

Lemma run_app calls1 calls2 : forall sm : MLTSampler,
  run (calls1 ++ calls2) sm =
  '(vs, sm1) ← run calls1 sm; '(ws, sm2) ← run calls2 sm1; Some (vs ++ ws, sm2).
Proof.
  induction calls1 as [|c rest IH]; intros sm; simpl.
  - destruct (run calls2 sm) as [[ws sm2]|]; done.
  - destruct (call c sm) as [[v sm1]|]; simpl; [|done].
    rewrite IH. destruct (run rest sm1) as [[vs sm2]|]; simpl; [|done].
    destruct (run calls2 sm2) as [[ws sm3]|]; simpl; [|done].
    by rewrite app_assoc.
Qed.

Lemma proposing_at_start sm : proposing_at sm [] (StartIteration sm).
Proof.
  unfold proposing_at, StartIteration. destruct (UniformFloat (rng sm)) as [u r]. simpl.
  repeat apply conj; try lia.
  - intros i Hi. by apply elem_of_nil in Hi.
  - intros i Hi. split.
    + intros Hin. by apply elem_of_nil in Hin.
    + intros _. unfold original. apply lookup_lt_is_Some in Hi as [Xi ->]. done.
Qed.

(** One draw of a coordinate not touched before. *)
Lemma Get1D_proposing_at sm T st :
  proposing_at sm T st ->
  0 <= streamIndex st + streamCount st * sampleIndex st ->
  streamIndex st + streamCount st * sampleIndex st ∉ T ->
  exists v st',
    Get1D_MLT st = Some (v, st') /\
    proposing_at sm (T ++ [streamIndex st + streamCount st * sampleIndex st]) st' /\
    streamIndex st' = streamIndex st /\ sampleIndex st' = sampleIndex st + 1.
Proof.
  intros (Ecur & Elarge & Ecount & Hlen & Hin & HX) Hpos Hfresh.
  unfold Get1D_MLT, GetNextIndex, EnsureReady. cbn [X currentIteration].
  set (index := streamIndex st + streamCount st * sampleIndex st) in *.
  destruct (Z.ltb_spec index 0); [lia|].
  set (i := Z.to_nat index).
  assert (Hi : Z.of_nat i = index) by (unfold i; lia).
  set (x := if Z.of_nat (length (X st)) <=? index
            then resize (S i) fresh_sample (X st) else X st).
  assert (Hx : forall j : nat, (j < length (X st))%nat -> x !! j = X st !! j).
  { intros j Hj. unfold x. destruct (Z.leb_spec (Z.of_nat (length (X st))) index); [|done].
    rewrite lookup_resize; [done| |lia]. unfold i. lia. }
  assert (Hxnew : forall j : nat, (length (X st) <= j < length x)%nat ->
                               x !! j = Some fresh_sample).
  { intros j Hj. unfold x in *.
    destruct (Z.leb_spec (Z.of_nat (length (X st))) index); [|lia].
    rewrite length_resize in Hj. apply lookup_resize_new; lia. }
  assert (Hxlen : (length (X st) <= length x)%nat /\ (i < length x)%nat).
  { unfold x. destruct (Z.leb_spec (Z.of_nat (length (X st))) index).
    - rewrite length_resize. unfold i. lia.
    - unfold i. lia. }
  assert (Horig : forall j : nat, (j < length x)%nat -> Z.of_nat j ∉ T ->
                               x !! j = Some (original sm j)).
  { intros j Hj Hnt. destruct (decide (j < length (X st))%nat) as [Hlt|Hge].
    - rewrite Hx by done. by apply HX.
    - rewrite Hxnew by lia. unfold original.
      rewrite (lookup_ge_None_2 (X sm) j) by lia. done. }
  rewrite (Horig i) by (lia || by rewrite Hi). simpl.
  destruct (mutate _ (original sm i)) as [Xi' r] eqn:Em.
  apply mutate_spec in Em as [Emod Eback]. simpl in Emod, Eback.
  simpl. unfold at_index. cbn [X with_rng with_X].
  destruct (Z.ltb_spec index 0); [lia|]. fold i.
  rewrite list_lookup_insert_eq by lia. simpl.
  eexists _, _. split; [reflexivity|]. split; [|done].
  unfold proposing_at. cbn. rewrite length_insert.
  repeat apply conj; try lia.
  - intros z [Hz| ->%list_elem_of_singleton]%elem_of_app; [apply Hin in Hz; lia|lia].
  - intros j Hj.
    destruct (decide (j = i)) as [->|Hji].
    { split.
      - intros _. exists Xi'. rewrite list_lookup_insert_eq by lia.
        split; [done|]. split; [lia|]. intros Hle. apply Eback. lia.
      - intros Hn1. exfalso. apply Hn1, elem_of_app. right.
        apply list_elem_of_singleton. done. }
    rewrite list_lookup_insert_ne by done. split.
    + intros [Hin0| Heq%list_elem_of_singleton]%elem_of_app; [|lia].
      assert (Hlt : (j < length (X st))%nat) by (apply Hin in Hin0; lia).
      rewrite Hx by done. by apply HX.
    + intros Hnin. apply Horig; [done|]. intros Hin0. apply Hnin, elem_of_app. by left.
Qed.

Lemma upto_cons lo hi : lo < hi -> upto lo hi = lo :: upto (lo + 1) hi.
Proof.
  intros Hlt. unfold upto.
  replace (Z.to_nat (hi - lo)) with (S (Z.to_nat (hi - (lo + 1)))) by lia.
  simpl. f_equal; [lia|]. rewrite <- fmap_S_seq, <- list_fmap_compose.
  apply list_fmap_ext. intros _ k _. simpl. lia.
Qed.

(** The draws [ds] from the current stream, none of whose coordinates was
    touched before. *)
Lemma draws_proposing_at sm ds : forall T st,
  proposing_at sm T st -> only_draws ds ->
  0 <= streamIndex st -> 1 <= streamCount sm -> 0 <= sampleIndex st ->
  (forall k, sampleIndex st <= k -> streamIndex st + streamCount sm * k ∉ T) ->
  exists vs st',
    run ds st = Some (vs, st') /\
    proposing_at sm
      (T ++ ((fun k => streamIndex st + streamCount sm * k)
               <$> upto (sampleIndex st) (sampleIndex st + draws ds))) st'.
Proof.
  induction ds as [|c rest IH]; intros T st Hp Hd Hj Hc Hk Hfresh.
  { exists [], st. simpl. rewrite Z.add_0_r, upto_empty, app_nil_r by lia. done. }
  apply Forall_cons in Hd as [Hhead Hrest].
  pose proof (draws_nonneg rest) as Hrest0.
  pose proof Hp as (_ & _ & Ecount & _).
  assert (Hone : forall T st,
    proposing_at sm T st -> 0 <= streamIndex st -> 0 <= sampleIndex st ->
    (forall k, sampleIndex st <= k -> streamIndex st + streamCount sm * k ∉ T) ->
    exists v st', Get1D_MLT st = Some (v, st') /\
      proposing_at sm (T ++ [streamIndex st + streamCount sm * sampleIndex st]) st' /\
      streamIndex st' = streamIndex st /\ sampleIndex st' = sampleIndex st + 1 /\
      (forall k, sampleIndex st' <= k -> streamIndex st' + streamCount sm * k
                                         ∉ T ++ [streamIndex st + streamCount sm * sampleIndex st])).
  { clear - Hc. intros T st Hp Hj Hk Hfresh. pose proof Hp as (_ & _ & Ecount & _).
    destruct (Get1D_proposing_at sm T st Hp) as (v & st' & Hget & Hp' & Ej & Ek).
    - rewrite Ecount. nia.
    - rewrite Ecount. apply Hfresh. lia.
    - rewrite Ecount in Hp'. exists v, st'.
      split; [done|]. split; [done|]. split; [done|]. split; [done|].
      intros k Hk' [Hin| Heq%list_elem_of_singleton]%elem_of_app.
      + rewrite Ej in Hin. apply (Hfresh k); [lia|done].
      + rewrite Ej, Ek in *.
        destruct Hp as (_ & _ & _ & _ & _ & _).
        assert (streamCount sm * k = streamCount sm * sampleIndex st) by lia.
        destruct Hp' as (_ & _ & Ec' & _). nia. }
  destruct Hhead as [-> | ->]; simpl.
  - destruct (Hone T st Hp Hj Hk Hfresh) as (v & st1 & -> & Hp1 & Ej & Ek & Hfresh1).
    simpl.
    destruct (IH _ st1 Hp1 Hrest) as (ws & st2 & -> & Hp2); try done; try lia.
    simpl. eexists _, _. split; [done|].
    rewrite Ej, Ek in Hp2. rewrite <- app_assoc in Hp2. simpl in Hp2.
    rewrite (upto_cons (sampleIndex st)) by lia.
    by replace (sampleIndex st + (1 + draws rest)) with (sampleIndex st + 1 + draws rest)
      by lia.
  - unfold Get2D_MLT.
    destruct (Hone T st Hp Hj Hk Hfresh) as (v & st1 & -> & Hp1 & Ej & Ek & Hfresh1).
    simpl.
    destruct (Hone _ st1 Hp1) as (v' & st2 & -> & Hp2 & Ej2 & Ek2 & Hfresh2);
      try done; try lia.
    simpl.
    destruct (IH _ st2 Hp2 Hrest) as (ws & st3 & -> & Hp3); try done; try lia.
    simpl. eexists _, _. split; [done|].
    rewrite Ej2, Ek2, Ej, Ek in Hp3. rewrite <- !app_assoc in Hp3. simpl in Hp3.
    rewrite (upto_cons (sampleIndex st)) by lia.
    rewrite (upto_cons (sampleIndex st + 1)) by lia.
    by replace (sampleIndex st + (2 + draws rest))
      with (sampleIndex st + 1 + 1 + draws rest) by lia.
Qed.

Lemma StartStream_proposing_at sm T st j :
  proposing_at sm T st -> j < streamCount sm ->
  exists st', StartStream j st = Some st' /\ proposing_at sm T st' /\
              streamIndex st' = j /\ sampleIndex st' = 0.
Proof.
  intros (Ecur & Elarge & Ecount & Hrest) Hj. unfold StartStream.
  destruct (Z.ltb_spec j (streamCount st)); [|lia].
  eexists. split; [done|]. split; [|done]. unfold proposing_at. simpl. done.
Qed.

Lemma stream_coordinate_mod c j k : 0 <= j < c -> (j + c * k) mod c = j.
Proof.
  intros Hj. rewrite (Z.mul_comm c k), Z.mod_add by lia. apply Z.mod_small. lia.
Qed.

Lemma streams_proposing_at sm streams : forall T st,
  proposing_at sm T st -> 1 <= streamCount sm -> proper_streams sm streams ->
  (forall i jd, i ∈ T -> jd ∈ streams -> i mod streamCount sm <> jd.1) ->
  exists vs st',
    run (stream_calls streams) st = Some (vs, st') /\
    proposing_at sm (T ++ streams_touched sm streams) st'.
Proof.
  induction streams as [|[j ds] rest IH]; intros T st Hp Hc [Hnd Hok] Hapart.
  { exists [], st. simpl. by rewrite app_nil_r. }
  rewrite fmap_cons in Hnd. apply NoDup_cons in Hnd as [Hnotin Hnd].
  apply Forall_cons in Hok as [Hhead Hok]. simpl in Hhead, Hnotin.
  destruct Hhead as [Hj Hd].
  unfold stream_calls, streams_touched. rewrite !bind_cons.
  fold (stream_calls rest). fold (streams_touched sm rest). cbn [fst snd].
  rewrite run_app. cbn [run call].
  destruct (StartStream_proposing_at sm T st j Hp) as (st0 & -> & Hp0 & Ej & Ek); [lia|].
  cbn [mbind option_bind].
  destruct (draws_proposing_at sm ds T st0 Hp0 Hd) as (vs & st1 & -> & Hp1); try lia.
  { intros k Hk Hin. rewrite Ej in Hin.
    apply (Hapart _ (j, ds) Hin); [left|]. simpl. by apply stream_coordinate_mod. }
  rewrite Ej, Ek, Z.add_0_l in Hp1.
  fold (stream_coordinates sm j ds) in Hp1.
  cbn [mbind option_bind].
  destruct (IH _ st1 Hp1 Hc (conj Hnd Hok)) as (ws & st2 & -> & Hp2).
  { intros i jd [Hin|Hin]%elem_of_app Hjd.
    - apply (Hapart i jd Hin). by right.
    - unfold stream_coordinates in Hin.
      apply list_elem_of_fmap in Hin as (k & -> & _).
      rewrite stream_coordinate_mod by done. intros ->.
      apply Hnotin. apply list_elem_of_fmap. by exists jd. }
  cbn [mbind option_bind]. eexists _, _. split; [done|]. by rewrite app_assoc.
Qed.

(** From a well-formed sampler, [StartIteration], then for each of several
    distinct streams [StartStream] and any draws (the pattern of one path
    evaluation), then [Reject]: the iteration counter is back at its value,
    every coordinate not touched is unchanged, and every touched coordinate
    holds its backup again, which is its value from before the iteration
    unless a large step was still to be applied to it. *)
Theorem Reject_restores_every_stream sm streams :
  well_formed sm -> proper_streams sm streams ->
  exists vs sm1,
    run (stream_calls streams) (StartIteration sm) = Some (vs, sm1) /\
    currentIteration (Reject sm1) = currentIteration sm /\
    (forall i Xi, at_index (X sm) i = Some Xi -> i ∉ streams_touched sm streams ->
       at_index (X (Reject sm1)) i = Some Xi) /\
    (forall i, i ∈ streams_touched sm streams ->
       exists Xi1 Xi2,
         at_index (X sm1) i = Some Xi1 /\
         at_index (X (Reject sm1)) i = Some Xi2 /\
         value Xi2 = valueBackup Xi1 /\
         lastModificationIteration Xi2 = modifyBackup Xi1 /\
         (forall Xi0, at_index (X sm) i = Some Xi0 ->
            lastLargeStepIteration sm <= lastModificationIteration Xi0 ->
            value Xi2 = value Xi0 /\
            lastModificationIteration Xi2 = lastModificationIteration Xi0)).
Proof.
  intros (Hc & Hi & Hs & Hwf) Hproper.
  destruct (streams_proposing_at sm streams [] (StartIteration sm))
    as (vs & sm1 & Hrun & Hp); try done.
  { apply proposing_at_start. }
  { intros i jd Hin. by apply elem_of_nil in Hin. }
  rewrite app_nil_l in Hp.
  destruct Hp as (Ecur & Elarge & Ecount & Hlen & Hin & HX).
  exists vs, sm1. split; [done|]. split; [simpl; lia|]. split.
  - intros i Xi [Hpos Hlook]%at_index_Some Hnt.
    apply at_index_Some. split; [done|]. simpl.
    rewrite list_lookup_fmap.
    assert (Hlt : (Z.to_nat i < length (X sm1))%nat).
    { apply lookup_lt_Some in Hlook. lia. }
    destruct (HX _ Hlt) as [_ Hold]. rewrite Hold by (by rewrite Z2Nat.id).
    unfold original. rewrite Hlook. simpl. f_equal.
    destruct (Z.eqb_spec (lastModificationIteration Xi) (currentIteration sm1)); [|done].
    rewrite Forall_forall in Hwf.
    destruct (Hwf Xi) as [Hle|Hre]; [by eapply list_elem_of_lookup_2| lia |done].
  - intros i Hit.
    destruct (Hin i Hit) as [Hpos Hlt0].
    assert (Hlt : (Z.to_nat i < length (X sm1))%nat) by lia.
    destruct (HX _ Hlt) as [Hnew _].
    destruct Hnew as (Xi1 & Hlook & Emod & Eback); [by rewrite Z2Nat.id|].
    exists Xi1, (Restore Xi1). split; [by apply at_index_Some|].
    split.
    { apply at_index_Some. split; [done|]. simpl.
      rewrite list_lookup_fmap, Hlook. simpl. f_equal.
      destruct (Z.eqb_spec (lastModificationIteration Xi1) (currentIteration sm1));
        [done|lia]. }
    split; [done|]. split; [done|].
    intros Xi0 [_ Hlook0]%at_index_Some Hle.
    unfold original in Eback. rewrite Hlook0 in Eback. simpl in Eback.
    by apply Eback.
Qed.

End StreamProofs.

(** * Proofs: the evaluation of one path *)

Section MLTPathProofs.
Context `{RandomOps} (world : Externals).
#[local] Hint Extern 0 Externals => exact (with_MLTSampler world) : typeclass_instances.
Context `{!VertexDensities} `{!ConnectOps} `{!Geometry} `{!WalkOps}.
Variable GetDiscrete1D : MLTSampler -> Z -> Z * MLTSampler.
Variable Bounds2f : Type.
Variable GetSampleBounds : Camera -> Bounds2f.
Variable Lerp : Bounds2f -> Point2f -> Point2f.

(** The collaborators draw from the sampler without changing its number of
    streams, and [GetDiscrete1D(n)] yields one of [0 .. n - 1]. *)
Hypothesis Get1D_streams :
  forall sampler : MLTSampler, streamCount (Get1D (sampler : Sampler)).2 = streamCount sampler.
Hypothesis Get2D_streams :
  forall sampler : MLTSampler, streamCount (Get2D (sampler : Sampler)).2 = streamCount sampler.
Hypothesis medium_Sample_streams :
  forall ray (sampler : MLTSampler),
    streamCount (medium_Sample ray (sampler : Sampler)).2 = streamCount sampler.
Hypothesis GetDiscrete1D_streams :
  forall sampler n, streamCount (GetDiscrete1D sampler n).2 = streamCount sampler.
Hypothesis GetDiscrete1D_range :
  forall sampler n, 0 < n -> 0 <= (GetDiscrete1D sampler n).1 < n.

Lemma StartStream_streams index (sampler sampler' : MLTSampler) :
  StartStream index sampler = Some sampler' -> streamCount sampler' = streamCount sampler.
Proof. unfold StartStream. destruct (_ <? _); [|done]. by intros [= <-]. Qed.

Lemma StartStream_defined index (sampler : MLTSampler) :
  index < streamCount sampler -> is_Some (StartStream index sampler).
Proof. intros Hi. unfold StartStream. destruct (Z.ltb_spec index (streamCount sampler)); [eauto|lia]. Qed.

Lemma AllocArray_replicate n :
  0 <= n -> AllocArray n = Some (replicate (Z.to_nat n) default_vertex).
Proof. intros Hn. unfold AllocArray. by destruct (Z.ltb_spec n 0); [lia|]. Qed.

Lemma MLTIntegrator_L_frame fuel leftToRight scene camera lightDistr sampler depth stats
    Lresult :
  0 <= depth -> nSampleStreams <= streamCount sampler ->
  Lresult = MLTIntegrator_L world GetDiscrete1D Bounds2f GetSampleBounds Lerp fuel
              leftToRight scene camera lightDistr sampler depth stats ->
  exists samplerC s sampler0 u sampler1,
    StartStream cameraStreamIndex sampler = Some samplerC /\
    (s, sampler0)
      = (if depth =? 0 then (0, samplerC) else GetDiscrete1D samplerC (depth + 2)) /\
    0 <= s <= depth + 1 /\
    Get2D (sampler0 : Sampler) = (u, sampler1) /\
    let t := depth + 2 - s in
    let nStrategies := if depth =? 0 then 1 else depth + 2 in
    let pRaster := Lerp (GetSampleBounds camera) u in
    match GenerateCameraSubpath fuel scene sampler1 t camera pRaster
            (replicate (Z.to_nat t) default_vertex) with
    | Fault => False
    | Unfinished => Lresult = Unfinished
    | Finished (nCamera, cameraVertices, sampler2) =>
        nCamera <= t /\
        if nCamera =? t then
          exists samplerL first,
            StartStream lightStreamIndex sampler2 = Some samplerL /\
            at_index cameraVertices 0 = Some first /\
            match GenerateLightSubpath fuel leftToRight scene samplerL s
                    (vertex_time first) lightDistr
                    (replicate (Z.to_nat s) default_vertex) with
            | Fault => False
            | Unfinished => Lresult = Unfinished
            | Finished (nLight, lightVertices, sampler3) =>
                nLight <= s /\
                if nLight =? s then
                  exists samplerX r,
                    StartStream connectionStreamIndex sampler3 = Some samplerX /\
                    Z.of_nat (length lightVertices) = s /\
                    Z.of_nat (length cameraVertices) = t /\
                    ConnectBDPT scene (mkSubpaths _ lightVertices cameraVertices) s t
                      lightDistr camera samplerX pRaster None stats = Some r /\
                    Lresult = Finished (Sp.scale (c_L r) (Flt.of_Z nStrategies),
                                        c_pRaster r, c_sampler r, c_stats r)
                else Lresult = Finished (black, pRaster, sampler3, stats)
            end
        else Lresult = Finished (black, pRaster, sampler2, stats)
    end.
Proof.
  intros Hd Hstreams HL. unfold MLTIntegrator_L, nSampleStreams in *.
  destruct (StartStream_defined cameraStreamIndex sampler) as [samplerC HsC];
    [unfold cameraStreamIndex; lia|].
  rewrite HsC in HL. simpl in HL. pose proof (StartStream_streams _ _ _ HsC) as HkC.
  exists samplerC.
  set (choice := if depth =? 0 then _ else _) in HL.
  assert (Hchoice : exists s sampler0,
            (s, sampler0)
              = (if depth =? 0 then (0, samplerC) else GetDiscrete1D samplerC (depth + 2)) /\
            0 <= s <= depth + 1 /\
            streamCount sampler0 = streamCount sampler /\
            choice = (s, depth + 2 - s, (if depth =? 0 then 1 else depth + 2), sampler0)).
  { unfold choice. destruct (Z.eqb_spec depth 0) as [->|Hne].
    - exists 0, samplerC. repeat split; try done; lia.
    - pose proof (GetDiscrete1D_range samplerC (depth + 2) ltac:(lia)) as Hr.
      pose proof (GetDiscrete1D_streams samplerC (depth + 2)) as Hk.
      destruct (GetDiscrete1D samplerC (depth + 2)) as [s sampler0]. simpl in *.
      exists s, sampler0. repeat split; try done; lia. }
  destruct Hchoice as (s & sampler0 & Hpick & Hs & Hk0 & Hchoice).
  rewrite Hchoice in HL. clear choice Hchoice. cbv beta iota in HL.
  exists s, sampler0.
  rewrite (AllocArray_replicate (depth + 2 - s)) in HL by lia. simpl in HL.
  pose proof (Get2D_streams sampler0) as Hk1.
  destruct (@Get2D (with_MLTSampler world) _ sampler0) as [u sampler1]. simpl in Hk1.
  exists u, sampler1. split; [done|]. split; [done|]. split; [done|]. split; [done|].
  cbv zeta.
  set (t := depth + 2 - s) in *.
  set (pRaster := Lerp (GetSampleBounds camera) u) in *.
  set (cam := replicate (Z.to_nat t) default_vertex) in *.
  assert (Hcam : Z.of_nat (length cam) = t) by (unfold cam; rewrite length_replicate; lia).
  pose proof (GenerateCameraSubpath_frame fuel scene sampler1 t camera pRaster cam
                ltac:(lia)) as Hc.
  destruct (GenerateCameraSubpath _ _ _ _ _ _ _) as [[[nCamera cam'] sampler2]| |] eqn:Hgc;
    simpl in HL; [|done..].
  destruct Hc as (_ & HnC & [HlenC _] & _). specialize (HnC ltac:(lia)).
  split; [lia|].
  assert (Hk2 : @streamCount _ sampler2 = streamCount sampler).
  { apply (GenerateCameraSubpath_keeps
             (fun sm : @Sampler (with_MLTSampler world) => @streamCount _ sm = streamCount sampler))
      in Hgc; try done; try congruence. }
  destruct (Z.eqb_spec nCamera t) as [->|Hne]; simpl in HL; [|done].
  destruct (StartStream_defined lightStreamIndex sampler2) as [samplerL HsL];
    [unfold lightStreamIndex; lia|].
  rewrite HsL in HL. simpl in HL. pose proof (StartStream_streams _ _ _ HsL) as HkL.
  rewrite (AllocArray_replicate s) in HL by lia. simpl in HL.
  destruct (at_index_in_range cam' 0) as [first Hfirst]; [lia|].
  rewrite Hfirst in HL. simpl in HL.
  exists samplerL, first. split; [done|]. split; [done|].
  set (lgt := replicate (Z.to_nat s) default_vertex) in *.
  assert (Hlgt : Z.of_nat (length lgt) = s) by (unfold lgt; rewrite length_replicate; lia).
  pose proof (GenerateLightSubpath_frame fuel leftToRight scene samplerL s
                (vertex_time first) lightDistr lgt ltac:(lia)) as Hl.
  destruct (GenerateLightSubpath _ _ _ _ _ _ _ _) as [[[nLight lgt'] sampler3]| |] eqn:Hgl;
    simpl in HL; [|done..].
  destruct Hl as (HnL & [HlenL _] & _).
  split; [lia|].
  assert (Hk3 : @streamCount _ sampler3 = streamCount sampler).
  { apply (GenerateLightSubpath_keeps
             (fun sm : @Sampler (with_MLTSampler world) => @streamCount _ sm = streamCount sampler))
      in Hgl; try done; try congruence. }
  destruct (Z.eqb_spec nLight s) as [->|Hne]; simpl in HL; [|done].
  destruct (StartStream_defined connectionStreamIndex sampler3) as [samplerX HsX];
    [unfold connectionStreamIndex; lia|].
  rewrite HsX in HL. simpl in HL.
  destruct (ConnectBDPT_defined scene (mkSubpaths _ lgt' cam') s t lightDistr camera
              samplerX pRaster None stats) as (r & Hr & _); simpl; [lia|lia|lia|].
  rewrite Hr in HL. simpl in HL.
  exists samplerX, r. repeat split; try done; lia.
Qed.

(** [MLTIntegrator::L], on a sampler with at least the three streams it uses
    and with collaborators that keep the sampler's number of streams and a
    [GetDiscrete1D(n)] that yields one of [0 .. n - 1], passes every
    [StartStream] check and stays inside the arrays of [t] and [s] vertices
    it allocates.  It picks [s = 0] at depth 0 and [s = GetDiscrete1D(depth
    + 2)] otherwise, and [t = depth + 2 - s >= 1].  When the camera subpath
    has fewer than [t] vertices or, if not, the light subpath fewer than
    [s], it returns zero radiance without connecting, with the counters as
    they were; in every other case it returns what [ConnectBDPT] returns
    for [(s, t)] on arrays of exactly [s] and [t] vertices, times the number
    of strategies. *)
Theorem MLTIntegrator_L_evaluates_one_strategy
    fuel leftToRight scene camera lightDistr sampler depth stats :
  0 <= depth -> nSampleStreams <= streamCount sampler ->
  exists samplerC s sampler0 u sampler1,
    StartStream cameraStreamIndex sampler = Some samplerC /\
    (s, sampler0)
      = (if depth =? 0 then (0, samplerC) else GetDiscrete1D samplerC (depth + 2)) /\
    0 <= s <= depth + 1 /\
    Get2D (sampler0 : Sampler) = (u, sampler1) /\
    let Lresult :=
      MLTIntegrator_L world GetDiscrete1D Bounds2f GetSampleBounds Lerp fuel leftToRight
        scene camera lightDistr sampler depth stats in
    let t := depth + 2 - s in
    let nStrategies := if depth =? 0 then 1 else depth + 2 in
    let pRaster := Lerp (GetSampleBounds camera) u in
    match GenerateCameraSubpath fuel scene sampler1 t camera pRaster
            (replicate (Z.to_nat t) default_vertex) with
    | Fault => False
    | Unfinished => Lresult = Unfinished
    | Finished (nCamera, cameraVertices, sampler2) =>
        nCamera <= t /\
        if nCamera =? t then
          exists samplerL first,
            StartStream lightStreamIndex sampler2 = Some samplerL /\
            at_index cameraVertices 0 = Some first /\
            match GenerateLightSubpath fuel leftToRight scene samplerL s
                    (vertex_time first) lightDistr
                    (replicate (Z.to_nat s) default_vertex) with
            | Fault => False
            | Unfinished => Lresult = Unfinished
            | Finished (nLight, lightVertices, sampler3) =>
                nLight <= s /\
                if nLight =? s then
                  exists samplerX r,
                    StartStream connectionStreamIndex sampler3 = Some samplerX /\
                    Z.of_nat (length lightVertices) = s /\
                    Z.of_nat (length cameraVertices) = t /\
                    ConnectBDPT scene (mkSubpaths _ lightVertices cameraVertices) s t
                      lightDistr camera samplerX pRaster None stats = Some r /\
                    Lresult = Finished (Sp.scale (c_L r) (Flt.of_Z nStrategies),
                                        c_pRaster r, c_sampler r, c_stats r)
                else Lresult = Finished (black, pRaster, sampler3, stats)
            end
        else Lresult = Finished (black, pRaster, sampler2, stats)
    end.
Proof.
  intros Hd Hstreams.
  exact (MLTIntegrator_L_frame fuel leftToRight scene camera lightDistr sampler depth stats
           _ Hd Hstreams eq_refl).
Qed.

End MLTPathProofs.

(** * The theorems at work on the concrete world *)

Section Witnesses.
Import Example.
#[local] Existing Instances externals densities connect random evaluation.

Lemma MISWeight_leaves_subpaths_unchanged_witness :
  (0 <= 2 <= Z.of_nat (length (lightVertices paths)) /\
   1 <= 2 <= Z.of_nat (length (cameraVertices paths)) /\ 2 <= 2 + 2) /\
  exists w, MISWeight scene paths sampled 2 2 lights = Some (w, paths).
Proof.
  split; [simpl; lia|].
  apply (proj2 (MISWeight_leaves_subpaths_unchanged scene paths sampled 2 2 lights));
    simpl; lia.
Defined.

Lemma MISWeight_is_one_when_two_vertices_witness :
  0 + 2 = 2 /\ MISWeight scene paths sampled 0 2 lights = Some (Flt.one, paths).
Proof.
  split; [reflexivity|].
  apply (MISWeight_is_one_when_two_vertices scene paths sampled 0 2 lights). reflexivity.
Defined.

Lemma zero_contribution_skips_MISWeight_witness :
  Sp.IsBlack (grey Flt.zero) = true /\
  exists r,
    ConnectBDPT scene paths 2 3 lights camera sampler0 (Flt.zero, Flt.zero) (Some Flt.one) no_stats
      = Some r /\
    misWeightCalls (c_stats r) = [] /\
    c_misWeight r = Some Flt.zero /\
    Sp.IsBlack (c_L r) = true /\
    zeroRadiancePaths (c_stats r) = 1 /\
    c_paths r = paths.
Proof.
  split; [reflexivity|].
  apply (zero_contribution_skips_MISWeight scene paths 2 3 lights camera sampler0 (Flt.zero, Flt.zero)
           (Some Flt.one) no_stats (grey Flt.zero) default_vertex
           (Flt.zero, Flt.zero) sampler0); reflexivity.
Defined.

Lemma warm_sampler_well_formed : well_formed warm_sampler.
Proof.
  unfold well_formed. simpl. repeat apply conj; try lia.
  repeat (apply Forall_cons; split; [left; simpl; lia|]). apply Forall_nil_2.
Defined.


Lemma connect_all_connects_each_strategy_once_witness :
  (3 <= Z.of_nat (length (cameraVertices (ss_paths sample_state))) /\
   2 <= Z.of_nat (length (lightVertices (ss_paths sample_state)))) /\
  exists st' new,
    connect_all scene camera lights 1 false false (half, half) 3 2 sample_state
      = Some (st', ((half, half), ss_L st')) /\
    ss_connections st' = ss_connections sample_state ++ new /\
    (forall s t, valid_strategy 1 3 2 s t -> invocations new s t = 1%nat) /\
    (forall s t, ~ valid_strategy 1 3 2 s t -> invocations new s t = 0%nat) /\
    ss_film st' = ss_film sample_state ++ splats_of new /\
    ss_L st' = radiance_of black new /\
    ss_paths st' = ss_paths sample_state.
Proof.
  split; [simpl; lia|].
  apply (connect_all_connects_each_strategy_once scene camera lights 1 false false (half, half)
           3 2 sample_state).
  - simpl; lia.
  - simpl; lia.
  - simpl. discriminate.
Defined.

(** With one light vertex and two camera vertices at depth 0, the pair
    (1, 1) meets every bound of the loops and is never connected. *)
Lemma strategy_1_1_is_not_connected :
  (1 <= 1 <= 2 /\ 0 <= 1 <= 1 /\ 0 <= 1 + 1 - 2 <= 0) /\
  exists st' sample,
    connect_all scene camera lights 0 false false (half, half) 2 1 sample_state
      = Some (st', sample) /\
    (strategy_of <$> ss_connections st') = [(0, 2)] /\
    invocations (ss_connections st') 1 1 = 0%nat.
Proof.
  split; [lia|]. eexists _, _. split; [vm_compute; reflexivity|].
  split; vm_compute; reflexivity.
Qed.

Lemma bootstrap_progress_is_never_updated_witness :
  (0 <= 0 /\ 2 <= 2 /\ 0 <= 1 /\
   length (replicate 4 Flt.zero) = Z.to_nat (2 * (1 + 1))) /\
  (forall i, 0 <= i -> progress_due i = false) /\
  exists b',
    bootstrap_chunk mlt_scene 1 100 quarter half 0 2 (mkBootstrap (replicate 4 Flt.zero) 0)
      = Some b' /\
    bootstrapProgress b' = 0 /\
    forall report,
      bootstrapWeights <$>
        bootstrap_loop mlt_scene 1 100 quarter half report 0 2
          (mkBootstrap (replicate 4 Flt.zero) 0)
      = Some (bootstrapWeights b').
Proof.
  split; [repeat split; try lia; reflexivity|].
  apply (bootstrap_progress_is_never_updated mlt_scene 1 2 100 quarter half 0 2
           (mkBootstrap (replicate 4 Flt.zero) 0)); try lia.
  reflexivity.
Defined.

Lemma chain_start_replays_bootstrap_sample_witness :
  (0 <= 0 /\ 2 <= 2 /\ 0 <= 1 /\
   length (replicate 4 Flt.zero) = Z.to_nat (2 * (1 + 1)) /\
   bootstrap_chunk mlt_scene 1 100 quarter half 0 2
     (mkBootstrap (replicate 4 Flt.zero) 0) = Some bootstrapped /\
   0 * (1 + 1) <= 0 < 2 * (1 + 1)) /\
  (start_chain mlt_scene 1 100 quarter half 1 (bootstrapWeights bootstrapped)
     [] 0 0 0).1 = Z.rem 0 (1 + 1) /\
  at_index (bootstrapWeights bootstrapped) 0 =
  Some (y (LCurrent (start_chain mlt_scene 1 100 quarter half 1
                       (bootstrapWeights bootstrapped) [] 0 0 0).2)).
Proof.
  split; [repeat split; try lia; reflexivity|].
  apply (chain_start_replays_bootstrap_sample mlt_scene 1 2 100 quarter half 1 0 2
           (mkBootstrap (replicate 4 Flt.zero) 0) bootstrapped [] 0 0 0);
    try lia; try reflexivity.
  simpl. lia.
Defined.

Lemma well_formed_run_witness :
  (proper_calls [CallStartStream 0; CallGet1D; CallGet2D; CallStartIteration;
                 CallStartStream 1; CallGet1D; CallAccept] /\
   well_formed sampler /\
   run [CallStartStream 0; CallGet1D; CallGet2D; CallStartIteration;
        CallStartStream 1; CallGet1D; CallAccept] sampler
   = Some (warm_values, warm_sampler)) /\
  well_formed warm_sampler.
Proof.
  assert (Hproper : proper_calls
            [CallStartStream 0; CallGet1D; CallGet2D; CallStartIteration;
             CallStartStream 1; CallGet1D; CallAccept]).
  { repeat (apply Forall_cons; split; [intros index [= <-] || intros index [=]; lia|]).
    apply Forall_nil_2. }
  assert (Hnew : well_formed sampler).
  { unfold well_formed. simpl. repeat apply conj; try lia. apply Forall_nil_2. }
  split; [split; [assumption|split; [assumption|reflexivity]]|].
  apply (well_formed_run
           [CallStartStream 0; CallGet1D; CallGet2D; CallStartIteration;
            CallStartStream 1; CallGet1D; CallAccept]
           sampler warm_values warm_sampler); try assumption.
  reflexivity.
Defined.

Lemma MISWeight_invoked_only_for_nonzero_witness :
  exists r,
    ConnectBDPT scene paths 1 2 lights camera sampler0 (Flt.zero, Flt.zero)
      (Some Flt.one) no_stats = Some r /\
    misWeightCalls (c_stats r) <> misWeightCalls no_stats /\
    exists Lc sampled' pRaster' sampler',
      connect_contribution scene paths 1 2 lights camera sampler0 (Flt.zero, Flt.zero)
        = Some (Lc, sampled', pRaster', sampler') /\
      Sp.IsBlack Lc = false.
Proof.
  eexists. split; [vm_compute; reflexivity|]. split; [discriminate|].
  eapply (MISWeight_invoked_only_for_nonzero scene paths 1 2 lights camera sampler0
            (Flt.zero, Flt.zero) (Some Flt.one) no_stats);
    [vm_compute; reflexivity|discriminate].
Defined.

End Witnesses.

Lemma allocate_weightFilms_ready_witness :
  0 <= 1 <= 46337 /\
  exists films, allocate_weightFilms 1 = Some films /\
                films_ready 1 films /\
                Z.of_nat (length films) = bufferCount 1.
Proof. split; [lia|]. apply (allocate_weightFilms_ready 1). lia. Defined.

Lemma BufferIndex_in_bounds_and_distinct_witness :
  (0 <= 1 <= 46337 /\ enumerated 1 0 2 /\ enumerated 1 1 2) /\
  0 <= BufferIndex 0 2 < bufferCount 1 /\
  (BufferIndex 0 2 = BufferIndex 1 2 -> (0, 2) = (1, 2)).
Proof.
  assert (E02 : enumerated 1 0 2) by (exists 0; lia).
  assert (E12 : enumerated 1 1 2) by (exists 1; lia).
  split; [split; [lia|split; assumption]|].
  apply (BufferIndex_in_bounds_and_distinct 1 0 2 1 2); [lia|assumption|assumption].
Defined.

(** * The theorems at work in the corridor *)

Section CorridorWitnesses.
Import Corridor.
#[local] Existing Instances externals rays vertex_densities connections walks.

Lemma corridor_scatters isect ray mode :
  has_bsdf (ComputeScatteringFunctions isect ray mode) = true.
Proof. reflexivity. Qed.

Lemma corridor_surfaces isect beta pdf prev :
  type (CreateSurface isect beta pdf prev) = VSurface.
Proof. reflexivity. Qed.

Lemma corridor_media mi beta pdf prev :
  type (CreateMedium mi beta pdf prev) = VMedium.
Proof. reflexivity. Qed.

Lemma RandomWalk_stays_in_its_array_witness :
  (0 <= 3 /\ 1 <= 1 /\ 1 + 3 <= Z.of_nat (length blank)) /\
  RandomWalk 5 scene entrance counter (Example.grey Flt.one) Flt.one 3 Radiance blank 1 <> Fault /\
  forall n path' sampler',
    RandomWalk 5 scene entrance counter (Example.grey Flt.one) Flt.one 3 Radiance blank 1
      = Finished (n, path', sampler') ->
    0 <= n <= 3 /\
    length path' = length blank /\
    (forall i, i < 1 - 1 \/ 1 + n <= i -> at_index path' i = at_index blank i) /\
    exists v v',
      at_index blank (1 - 1) = Some v /\ at_index path' (1 - 1) = Some v' /\
      set_pdfRev (pdfRev v) v' = v.
Proof.
  split; [simpl; lia|].
  apply (RandomWalk_stays_in_its_array 5 scene entrance counter (Example.grey Flt.one) Flt.one 3
           Radiance blank 1); simpl; lia.
Defined.

Lemma RandomWalk_returns_within_maxDepth_turns_witness :
  ((forall isect ray mode, has_bsdf (ComputeScatteringFunctions isect ray mode) = true) /\
   0 <= 3 /\ 1 <= 1 /\ 1 + 3 <= Z.of_nat (length blank) /\ 3 <= Z.of_nat 3) /\
  exists n path' sampler',
    RandomWalk 3 scene entrance counter (Example.grey Flt.one) Flt.one 3 Radiance blank 1
      = Finished (n, path', sampler').
Proof.
  split; [split; [reflexivity|simpl; lia]|].
  apply (RandomWalk_returns_within_maxDepth_turns corridor_scatters 3 scene 0 0
           (Example.grey Flt.one) Flt.one 3 Radiance blank 1); simpl; lia.
Defined.

Lemma GenerateCameraSubpath_fills_a_prefix_witness :
  0 <= 5 <= Z.of_nat (length blank) /\
  GenerateCameraSubpath 5 scene counter 5 camera (Example.half, Example.half) blank <> Fault /\
  forall n path' sampler',
    GenerateCameraSubpath 5 scene counter 5 camera (Example.half, Example.half) blank
      = Finished (n, path', sampler') ->
    (5 = 0 -> n = 0 /\ path' = blank /\ sampler' = counter) /\
    (0 < 5 -> 1 <= n <= 5) /\
    length path' = length blank /\
    (forall i, n <= i -> at_index path' i = at_index blank i) /\
    (0 < 5 ->
     exists ray beta v,
       at_index path' 0 = Some v /\
       set_pdfRev (pdfRev (CreateCamera_ray camera ray beta)) v
         = CreateCamera_ray camera ray beta).
Proof.
  split; [simpl; lia|].
  apply (GenerateCameraSubpath_fills_a_prefix 5 scene counter 5 camera
           (Example.half, Example.half) blank); simpl; lia.
Defined.

Lemma GenerateLightSubpath_fills_a_prefix_witness :
  0 <= 4 <= Z.of_nat (length blank) /\
  GenerateLightSubpath 5 true scene counter 4 Flt.zero lights blank <> Fault /\
  forall n path' sampler',
    GenerateLightSubpath 5 true scene counter 4 Flt.zero lights blank
      = Finished (n, path', sampler') ->
    0 <= n <= 4 /\
    length path' = length blank /\
    (forall i, n <= i -> at_index path' i = at_index blank i) /\
    (n = 0 -> path' = blank) /\
    (4 = 0 -> sampler' = counter).
Proof.
  split; [simpl; lia|].
  apply (GenerateLightSubpath_fills_a_prefix 5 true scene counter 4 Flt.zero lights blank);
    simpl; lia.
Defined.

Lemma only_the_last_camera_vertex_can_be_a_light_witness :
  ((forall isect beta pdf prev, type (CreateSurface isect beta pdf prev) = VSurface) /\
   (forall mi beta pdf prev, type (CreateMedium mi beta pdf prev) = VMedium) /\
   GenerateCameraSubpath 5 scene counter 5 camera (Example.half, Example.half) blank
     = Finished (5, camera_subpath.1.2, camera_subpath.2) /\
   1 <= 2 < 5) /\
  invalid_connection (mkSubpaths _ [] camera_subpath.1.2) 1 2 = Some false.
Proof.
  split; [split; [reflexivity|split; [reflexivity|split; [vm_compute; reflexivity|lia]]]|].
  apply (only_the_last_camera_vertex_can_be_a_light
           corridor_surfaces corridor_media
           5 scene counter 5 camera (Example.half, Example.half) blank
           5 camera_subpath.1.2 camera_subpath.2 [] 1 2);
    [vm_compute; reflexivity|lia].
Defined.

Lemma films_ready_films : films_ready 1 films.
Proof.
  intros s t Hst%elem_of_visualized_strategies.
  let pairs := eval vm_compute in (visualized_strategies 1) in
  change (visualized_strategies 1) with pairs in Hst.
  repeat (apply elem_of_cons in Hst as [[= -> ->]|Hst]; [eexists; reflexivity|]).
  by apply elem_of_nil in Hst.
Qed.


Lemma pixel_sample_returns_witness :
  ((forall isect ray mode, has_bsdf (ComputeScatteringFunctions isect ray mode) = true) /\
   0 <= 1 /\ 1 + 1 <= Z.of_nat 2 /\
   (true || false = true -> films_ready 1 (ss_weightFilms sample_state))) /\
  exists st' sample,
    pixel_sample scene camera lights 1 true false 2 true (1, 2) 0 sample_state
      = Finished (st', sample).
Proof.
  split; [split; [reflexivity|split; [lia|split; [simpl; lia|intros _; exact films_ready_films]]]|].
  apply (pixel_sample_returns scene camera lights 1 true false 2 true (1, 2) 0 sample_state
           corridor_scatters); [lia|simpl; lia|intros _; exact films_ready_films].
Defined.


Lemma debug_films_receive_their_own_splats_witness :
  (true || false = true /\
   films_ready 1 (ss_weightFilms connecting_state) /\
   3 <= Z.of_nat (length (cameraVertices (ss_paths connecting_state))) /\
   1 <= Z.of_nat (length (lightVertices (ss_paths connecting_state)))) /\
  exists st' new,
    connect_all scene camera lights 1 true false (Example.half, Example.half) 3 1
      connecting_state = Some (st', ((Example.half, Example.half), ss_L st')) /\
    ss_connections st' = ss_connections connecting_state ++ new /\
    forall s t, enumerated 1 s t ->
      exists film,
        at_index (ss_weightFilms connecting_state) (BufferIndex s t) = Some (Some film) /\
        at_index (ss_weightFilms st') (BufferIndex s t)
          = Some (Some (film ++ debug_splats true false new s t)) /\
        length (debug_splats true false new s t)
          = if decide (valid_strategy 1 3 1 s t) then 1%nat else 0%nat.
Proof.
  split; [split; [reflexivity|split; [exact films_ready_films|simpl; lia]]|].
  apply (debug_films_receive_their_own_splats scene camera lights 1 true false
           (Example.half, Example.half) 3 1 connecting_state);
    [reflexivity|exact films_ready_films|simpl; lia|simpl; lia].
Defined.

Lemma connection_keeps_the_raster_position_witness :
  exists r,
    ConnectBDPT scene subpaths 1 2 lights camera counter (Example.half, Example.half) None no_stats
      = Some r /\
    (2 <> 1 \/ 1 = 0 -> c_pRaster r = (Example.half, Example.half)) /\
    (1 = 0 -> c_sampler r = counter).
Proof.
  eexists. split; [vm_compute; reflexivity|].
  eapply (connection_keeps_the_raster_position scene camera subpaths 1 2 lights counter
            (Example.half, Example.half) None no_stats).
  vm_compute; reflexivity.
Defined.

End CorridorWitnesses.

Section ChainWitnesses.
Import Example.
#[local] Existing Instances random evaluation.


Lemma chains_update_progress_once_per_period_witness :
  (1 <= 2 /\ 0 <= 5 /\ 0 < 1) /\
  r_progress (run_chains mlt_scene 1 2 100 quarter half 1 5 (bootstrapWeights bootstrapped)
                (mkRendering [] 0 0 0))
  = r_progress (mkRendering [] 0 0 0) + progress_total 5 +
    (if Z.rem 5 progressFrequency =? 0 then 0 else 1).
Proof.
  split; [lia|].
  apply (chains_update_progress_once_per_period mlt_scene 1 2 100 quarter half 1 5
           (bootstrapWeights bootstrapped) (mkRendering [] 0 0 0)); lia.
Defined.

Lemma bootstrap_weights_do_not_depend_on_the_schedule_witness :
  (0 <= 1 /\ proper_chunks 2 [(0, 1); (1, 2)] /\
   [(1, 2); (0, 1)] ≡ₚ [(0, 1); (1, 2)] /\
   length (bootstrapWeights (mkBootstrap (replicate 4 Flt.zero) 0)) = Z.to_nat (2 * (1 + 1))) /\
  exists b',
    bootstrap_chunks mlt_scene 1 100 quarter half [(0, 1); (1, 2)]
      (mkBootstrap (replicate 4 Flt.zero) 0) = Some b' /\
    bootstrap_chunks mlt_scene 1 100 quarter half [(1, 2); (0, 1)]
      (mkBootstrap (replicate 4 Flt.zero) 0) = Some b' /\
    bootstrapProgress b' = bootstrapProgress (mkBootstrap (replicate 4 Flt.zero) 0) /\
    forall k, 0 <= k ->
      at_index (bootstrapWeights b') k
      = if decide (in_chunks 1 [(0, 1); (1, 2)] k)
        then Some (bootstrap_weight mlt_scene 1 100 quarter half k)
        else at_index (bootstrapWeights (mkBootstrap (replicate 4 Flt.zero) 0)) k.
Proof.
  assert (Hproper : proper_chunks 2 [(0, 1); (1, 2)]).
  { repeat (apply Forall_cons; split; [simpl; lia|]). apply Forall_nil_2. }
  assert (Hperm : [(1, 2); (0, 1)] ≡ₚ [(0, 1); (1, 2)]) by apply perm_swap.
  split; [split; [lia|split; [assumption|split; [assumption|reflexivity]]]|].
  apply (bootstrap_weights_do_not_depend_on_the_schedule mlt_scene 1 2 100 quarter half
           [(0, 1); (1, 2)] [(1, 2); (0, 1)] (mkBootstrap (replicate 4 Flt.zero) 0));
    [lia|assumption|assumption|reflexivity].
Defined.

Lemma Reject_restores_every_stream_witness :
  (well_formed warm_sampler /\
   proper_streams warm_sampler [(0, [CallGet1D; CallGet2D]); (2, [CallGet1D])]) /\
  exists vs sm1,
    run (stream_calls [(0, [CallGet1D; CallGet2D]); (2, [CallGet1D])])
      (StartIteration warm_sampler) = Some (vs, sm1) /\
    currentIteration (Reject sm1) = currentIteration warm_sampler /\
    (forall i Xi, at_index (X warm_sampler) i = Some Xi ->
       i ∉ streams_touched warm_sampler [(0, [CallGet1D; CallGet2D]); (2, [CallGet1D])] ->
       at_index (X (Reject sm1)) i = Some Xi) /\
    forall i,
      i ∈ streams_touched warm_sampler [(0, [CallGet1D; CallGet2D]); (2, [CallGet1D])] ->
      exists Xi1 Xi2,
        at_index (X sm1) i = Some Xi1 /\
        at_index (X (Reject sm1)) i = Some Xi2 /\
        value Xi2 = valueBackup Xi1 /\
        lastModificationIteration Xi2 = modifyBackup Xi1 /\
        forall Xi0, at_index (X warm_sampler) i = Some Xi0 ->
          lastLargeStepIteration warm_sampler <= lastModificationIteration Xi0 ->
          value Xi2 = value Xi0 /\
          lastModificationIteration Xi2 = lastModificationIteration Xi0.
Proof.
  assert (Hstreams : proper_streams warm_sampler
            [(0, [CallGet1D; CallGet2D]); (2, [CallGet1D])]).
  { split.
    - by apply (bool_decide_unpack _).
    - repeat (apply Forall_cons; split;
              [split; [simpl; lia|
                       repeat (apply Forall_cons; split; [auto|]); apply Forall_nil_2]|]).
      apply Forall_nil_2. }
  split; [split; [exact warm_sampler_well_formed|assumption]|].
  apply (Reject_restores_every_stream warm_sampler
           [(0, [CallGet1D; CallGet2D]); (2, [CallGet1D])]);
    [exact warm_sampler_well_formed|assumption].
Defined.

End ChainWitnesses.

Section MetropolisWitnesses.
Import Corridor.
#[local] Existing Instance Example.random.

Lemma Get1D_MLT_streams sm v sm' :
  Get1D_MLT sm = Some (v, sm') -> streamCount sm' = streamCount sm.
Proof.
  unfold Get1D_MLT, GetNextIndex, EnsureReady. simpl.
  destruct (_ <? 0); [done|]. simpl.
  destruct (_ !! _) as [Xi|]; [|done]. simpl.
  destruct (mutate _ Xi) as [Xi' r]. simpl.
  destruct (at_index _ _); [|done]. simpl. by intros [= _ <-].
Qed.

Lemma Get2D_MLT_streams sm v sm' :
  Get2D_MLT sm = Some (v, sm') -> streamCount sm' = streamCount sm.
Proof.
  unfold Get2D_MLT. intros Hget.
  destruct (Get1D_MLT sm) as [[a sm1]|] eqn:Ha; [|done]. simpl in Hget.
  destruct (Get1D_MLT sm1) as [[b sm2]|] eqn:Hb; [|done]. simpl in Hget.
  injection Hget as _ <-.
  rewrite (Get1D_MLT_streams _ _ _ Hb). exact (Get1D_MLT_streams _ _ _ Ha).
Qed.

Lemma draw1_streams sm : streamCount (draw1 sm).2 = streamCount sm.
Proof.
  unfold draw1. destruct (Get1D_MLT sm) as [[v sm']|] eqn:Hget; [|done].
  exact (Get1D_MLT_streams _ _ _ Hget).
Qed.

Lemma draw2_streams sm : streamCount (draw2 sm).2 = streamCount sm.
Proof.
  unfold draw2. destruct (Get2D_MLT sm) as [[v sm']|] eqn:Hget; [|done].
  exact (Get2D_MLT_streams _ _ _ Hget).
Qed.

Lemma choose_range sm n : 0 < n -> 0 <= (choose sm n).1 < n.
Proof. unfold choose. simpl. lia. Qed.

Lemma uniform_not_negative r : Flt.ltb (UniformFloat r).1 Flt.zero = false.
Proof.
  simpl. assert (Hr : r mod 4 = 0 \/ r mod 4 = 1 \/ r mod 4 = 2 \/ r mod 4 = 3)
    by (pose proof (Z.mod_pos_bound r 4); lia).
  destruct Hr as [->|[->|[->| ->]]]; reflexivity.
Qed.

Lemma flicker_luminance sm d :
  Flt.eqb (@y _ flicker (@L _ flicker tt sm d).1.1)
    (@y _ flicker (@L _ flicker tt sm d).1.1) = true.
Proof. simpl. by destruct (largeStep sm). Qed.

Lemma lit_chain_lit : @lit _ flicker (LCurrent lit_chain).
Proof. by split. Qed.

Lemma zero_luminance_proposal_is_rejected_witness :
  (Flt.eqb (@y _ flicker (@L _ flicker tt (StartIteration (ch_sampler lit_chain)) 0).1.1)
     Flt.zero = true /\
   @lit _ flicker (LCurrent lit_chain) /\
   Flt.ltb (UniformFloat (ch_rng lit_chain)).1 Flt.zero = false) /\
  LCurrent (@chain_step _ flicker tt 2 5 0 0 0 lit_chain) = LCurrent lit_chain /\
  pCurrent (@chain_step _ flicker tt 2 5 0 0 0 lit_chain) = pCurrent lit_chain /\
  ch_sampler (@chain_step _ flicker tt 2 5 0 0 0 lit_chain)
    = Reject (@L _ flicker tt (StartIteration (ch_sampler lit_chain)) 0).2 /\
  acceptedMutations (@chain_step _ flicker tt 2 5 0 0 0 lit_chain)
    = acceptedMutations lit_chain /\
  totalMutations (@chain_step _ flicker tt 2 5 0 0 0 lit_chain)
    = totalMutations lit_chain + 1 /\
  ch_film (@chain_step _ flicker tt 2 5 0 0 0 lit_chain)
    = ch_film lit_chain
      ++ [(pCurrent lit_chain,
           Sp.divide (Sp.scale (LCurrent lit_chain) Flt.one)
             (@y _ flicker (LCurrent lit_chain)))].
Proof.
  split; [split; [reflexivity|split; [exact lit_chain_lit|reflexivity]]|].
  apply (@zero_luminance_proposal_is_rejected _ flicker tt 2 5 0 0 0 lit_chain);
    [reflexivity|exact lit_chain_lit|reflexivity].
Defined.

Lemma chain_keeps_nonzero_luminance_witness :
  ((forall sm d,
      Flt.eqb (@y _ flicker (@L _ flicker tt sm d).1.1)
        (@y _ flicker (@L _ flicker tt sm d).1.1) = true) /\
   (forall r, Flt.ltb (UniformFloat r).1 Flt.zero = false) /\
   @lit _ flicker (LCurrent lit_chain)) /\
  @lit _ flicker (LCurrent (@run_chain _ flicker tt 2 5 0 0 3 lit_chain)).
Proof.
  split; [split; [exact flicker_luminance|split; [exact uniform_not_negative|
                                                   exact lit_chain_lit]]|].
  apply (@chain_keeps_nonzero_luminance _ flicker tt 2 5 0 0 3 lit_chain);
    [exact flicker_luminance|exact uniform_not_negative|exact lit_chain_lit].
Defined.

#[local] Hint Extern 0 Externals =>
  exact (with_MLTSampler externals) : typeclass_instances.
#[local] Existing Instances metropolis_densities metropolis_connections rays
  metropolis_walks.

Lemma MLTIntegrator_L_evaluates_one_strategy_witness :
  ((forall sampler : MLTSampler,
      streamCount (Get1D (sampler : Sampler)).2 = streamCount sampler) /\
   (forall sampler : MLTSampler,
      streamCount (Get2D (sampler : Sampler)).2 = streamCount sampler) /\
   (forall ray (sampler : MLTSampler),
      streamCount (medium_Sample ray (sampler : Sampler)).2 = streamCount sampler) /\
   (forall sampler n, streamCount (choose sampler n).2 = streamCount sampler) /\
   (forall sampler n, 0 < n -> 0 <= (choose sampler n).1 < n) /\
   0 <= 1 /\ nSampleStreams <= streamCount Example.sampler) /\
  exists samplerC s sampler0 u sampler1,
    StartStream cameraStreamIndex Example.sampler = Some samplerC /\
    (s, sampler0) = (if 1 =? 0 then (0, samplerC) else choose samplerC (1 + 2)) /\
    0 <= s <= 1 + 1 /\
    Get2D (sampler0 : Sampler) = (u, sampler1) /\
    let Lresult :=
      @MLTIntegrator_L _ externals metropolis_densities metropolis_connections rays
        metropolis_walks choose unit whole_film on_film 5 true scene camera lights
        Example.sampler 1 no_stats in
    let t := 1 + 2 - s in
    let nStrategies := if 1 =? 0 then 1 else 1 + 2 in
    let pRaster := on_film (whole_film camera) u in
    match @GenerateCameraSubpath (with_MLTSampler externals) _ _ _ 5 scene sampler1 t camera pRaster
            (replicate (Z.to_nat t) default_vertex) with
    | Fault => False
    | Unfinished => Lresult = Unfinished
    | Finished (nCamera, cameraVertices, sampler2) =>
        nCamera <= t /\
        if nCamera =? t then
          exists samplerL first,
            StartStream lightStreamIndex sampler2 = Some samplerL /\
            at_index cameraVertices 0 = Some first /\
            match @GenerateLightSubpath (with_MLTSampler externals) _ _ _ 5 true scene samplerL s (vertex_time first) lights
                    (replicate (Z.to_nat s) default_vertex) with
            | Fault => False
            | Unfinished => Lresult = Unfinished
            | Finished (nLight, lightVertices, sampler3) =>
                nLight <= s /\
                if nLight =? s then
                  exists samplerX r,
                    StartStream connectionStreamIndex sampler3 = Some samplerX /\
                    Z.of_nat (length lightVertices) = s /\
                    Z.of_nat (length cameraVertices) = t /\
                    @ConnectBDPT (with_MLTSampler externals) _ _ scene
                      (mkSubpaths _ lightVertices cameraVertices) s t
                      lights camera samplerX pRaster None no_stats = Some r /\
                    Lresult = Finished (Sp.scale (c_L r) (Flt.of_Z nStrategies),
                                        c_pRaster r, c_sampler r, c_stats r)
                else Lresult = Finished (black, pRaster, sampler3, no_stats)
            end
        else Lresult = Finished (black, pRaster, sampler2, no_stats)
    end.
Proof.
  split.
  { split; [exact draw1_streams|]. split; [exact draw2_streams|].
    split; [intros ray sampler; exact (draw1_streams sampler)|].
    split; [intros sampler n; exact (draw1_streams sampler)|].
    split; [exact choose_range|]. split; [lia|]. unfold nSampleStreams. simpl. lia. }
  apply (@MLTIntegrator_L_evaluates_one_strategy _ externals metropolis_densities
           metropolis_connections rays metropolis_walks choose unit whole_film on_film
           draw1_streams draw2_streams
           (fun ray sampler => draw1_streams sampler)
           (fun sampler n => draw1_streams sampler)
           choose_range 5 true scene camera lights Example.sampler 1 no_stats).
  - lia.
  - unfold nSampleStreams. simpl. lia.
Defined.

End MetropolisWitnesses.
